(** * Serviço Fácil: provider discovery, conversations, notification feed

    A shallow embedding of the core of the application:
    - [services/chat.ts]: [createOrGetChat], [sendMessage], [getChatMessages];
    - the [NotificationButton] component: the two snapshot handlers, the
      unread counter, [markAsRead] and [markAllAsRead];
    - [app/(tabs)/index.tsx] and [app/(tabs)/map.tsx]: [loadProviders] and
      [filterProviders];
    and of what surrounds it:
    - the conversation screen ([handleSendMessage]) and [handleStartChat];
    - the profile form ([formatCPF], [formatPhone], [validateForm],
      [handleSave]), the sign-in screen ([handleEmailAuth]) and
      [services/auth.ts] ([createUserProfile], [getUserProfile],
      [updateUserProfile]);
    - the radius dialog of [SearchFilters] and [loadSearchRadius];
    - the review dialog ([handleSubmit], [handleClose], [renderStars]);
    - [formatTime] and the badge of the [NotificationButton];
    - the access rules of [firestore.rules].

    JavaScript numbers are binary64 floats ([PrimFloat]); dates and Firestore
    timestamps are their millisecond counts ([Z]); a document is its id
    together with its data; an object used as a map is a [gmap].  The remote
    store is an explicit world, threaded through a small state-and-exception
    monad together with the answers it will give.  [calculateDistance] comes
    from [services/location] and is a parameter of the two screens, and so
    is [toLowerCase], whose case tables belong to the Unicode standard.  A
    string is held as the bytes of its UTF-8 encoding, as the literals of
    this file are: [JsString.trim] removes the white space of the language,
    of one, two or three bytes, and [JsString.utf16Length] counts code units
    as [length] does.  The services that are called and not part of the code
    at hand ([AsyncStorage], [getCurrentLocation], [addReview], the
    authentication service) enter as the answers they give.

    The modules of the code come first, then the vocabulary in which the
    properties are stated, the scenarios, and the properties. *)

From Stdlib Require Import PrimFloat ZArith.
From Stdlib Require Import FloatAxioms SpecFloat FloatOps.
#[local] Set Warnings "-inexact-float".
#[local] Set Warnings "-register-all".
From stdpp Require Import base decidable option list strings gmap pretty.
From stdpp Require Import sorting.

(** ** JavaScript values *)

Module Js.

(** Truthiness, as tested by [if (x)], [!x] and [x || d].  A field read from
    a document ([any]) is [None] when the document has no such field. *)
Definition truthyString (s : string) : bool :=
  match s with
  | EmptyString => false
  | String _ _ => true
  end.

Definition truthyNumber (x : float) : bool :=
  negb ((x =? 0)%float || PrimFloat.is_nan x).

Definition truthy {A : Type} (t : A → bool) (v : option A) : bool :=
  match v with
  | Some a => t a
  | None => false
  end.

(** [v || d] *)
Definition orElse {A : Type} (t : A → bool) (v : option A) (d : A) : A :=
  match v with
  | Some a => if t a then a else d
  | None => d
  end.

(** [Array.prototype.sort(compare)]: a stable sort.  [before a b] stands for
    [compare(a, b) < 0]; an element moves in front of another one only when
    the comparator puts it strictly before. *)
Section Sort.
Context {A : Type} (before : A → A → bool).

Fixpoint place (x : A) (l : list A) : list A :=
  match l with
  | [] => [x]
  | y :: ys => if before y x then y :: place x ys else x :: y :: ys
  end.

Definition sort (l : list A) : list A := foldr place [] l.

End Sort.

(** [Array.prototype.find] *)
Definition find {A : Type} (p : A → bool) (l : list A) : option A :=
  List.find p l.

(** [String.prototype.startsWith] and [String.prototype.includes] compare
    code units; on well-formed strings the bytes of [search] occur in those
    of [s] exactly where its code units do. *)
Fixpoint startsWith (s search : string) : bool :=
  match search, s with
  | EmptyString, _ => true
  | String a search', String b s' => Ascii.eqb a b && startsWith s' search'
  | String _ _, EmptyString => false
  end.

(** [String.prototype.includes] *)
Fixpoint includes (s search : string) : bool :=
  startsWith s search ||
  match s with
  | EmptyString => false
  | String _ s' => includes s' search
  end.

End Js.

(** ** The document store *)

Module Firestore.

(** A document of a snapshot: [doc.id] and [doc.data()]. *)
Record Doc (D : Type) := mkDoc { id : string; data : D }.
Arguments mkDoc {D} _ _.
Arguments id {D} _.
Arguments data {D} _.

(** [chats/{chatId}] *)
Record ChatData := mkChatData {
  participants : list string;
  participantNames : gmap string string;
  lastMessage : option string;
  lastMessageTime : option Z;
  createdAt : Z
}.

(** [chats/{chatId}/messages/{messageId}] *)
Record MessageData := mkMessageData {
  senderId : string;
  senderName : string;
  text : string;
  timestamp : Z
}.

(** What the network and the backend answer to one request: whether it
    succeeds, how many milliseconds the caller waited, and the automatic id
    drawn for the document when the request is an [addDoc]. *)
Record Reply := mkReply { ok : bool; elapsed : N; autoId : string }.

(** The [chats] collection, the [messages] subcollection of every chat, the
    clock of the device that makes the calls, which [Timestamp.now()] reads,
    and the answers to come.  A collection is listed in the order of its
    document ids: the order in which Firestore returns the documents of a
    query without [orderBy], and the order in which it breaks the ties of an
    [orderBy]. *)
Record World := mkWorld {
  chats : list (Doc ChatData);
  messages : gmap string (list (Doc MessageData));
  clock : Z;
  replies : list Reply
}.

Inductive Result (A : Type) : Type :=
| Ok (a : A)
| Throw.
Arguments Ok {A} _.
Arguments Throw {A}.

Definition M (A : Type) : Type := World → Result A * World.

Definition ret {A : Type} (a : A) : M A := λ w, (Ok a, w).

Definition bind {A B : Type} (m : M A) (k : A → M B) : M B :=
  λ w, match m w with
       | (Ok a, w') => k a w'
       | (Throw, w') => (Throw, w')
       end.

(** [Timestamp.now()] *)
Definition timestampNow : M Z := λ w, (Ok (clock w), w).

(** Every awaited request takes the next answer; with none left the client
    is offline and the request is rejected. *)
Definition request : M Reply :=
  λ w, match replies w with
       | [] => (Throw, w)
       | r :: rs =>
           let w' := mkWorld (chats w) (messages w)
                             (clock w + Z.of_N (elapsed r)) rs in
           if ok r then (Ok r, w') else (Throw, w')
       end.

(** A document enters a collection where its id sorts; a document that is
    already there under the same id is overwritten. *)
Fixpoint insertDoc {D : Type} (d : Doc D) (l : list (Doc D)) : list (Doc D) :=
  match l with
  | [] => [d]
  | x :: xs =>
      match String.compare (id d) (id x) with
      | Lt => d :: x :: xs
      | Eq => d :: xs
      | Gt => x :: insertDoc d xs
      end
  end.

(** [getDocs(query(chats, where('participants', 'array-contains', uid)))] *)
Definition getDocsChats (uid : string) : M (list (Doc ChatData)) :=
  bind request (λ _ w,
    (Ok (filter (λ d, uid ∈ participants (data d)) (chats w)), w)).

(** [addDoc(collection(db, 'chats'), chatData)] *)
Definition addDocChats (chatData : ChatData) : M string :=
  bind request (λ r w,
    (Ok (autoId r),
     mkWorld (insertDoc (mkDoc (autoId r) chatData) (chats w))
             (messages w) (clock w) (replies w))).

(** [addDoc(collection(db, 'chats', chatId, 'messages'), messageData)] *)
Definition addDocMessages (chatId : string) (messageData : MessageData)
  : M string :=
  bind request (λ r w,
    (Ok (autoId r),
     mkWorld (chats w)
             (<[chatId := insertDoc (mkDoc (autoId r) messageData)
                                    (messages w !!! chatId)]> (messages w))
             (clock w) (replies w))).

(** [updateDoc(doc(db, 'chats', chatId), fields)]: rejected when the document
    does not exist. *)
Definition updateDocChats (chatId : string) (fields : ChatData → ChatData)
  : M unit :=
  bind request (λ _ w,
    if bool_decide (chatId ∈ id <$> chats w) then
      (Ok tt,
       mkWorld ((λ d, if String.eqb (id d) chatId
                      then mkDoc (id d) (fields (data d)) else d) <$> chats w)
               (messages w) (clock w) (replies w))
    else (Throw, w)).

(** [query(messagesRef, orderBy('timestamp', 'asc'))] *)
Definition queryMessages (chatId : string) (w : World)
  : list (Doc MessageData) :=
  Js.sort (λ a b, (timestamp (data a) <? timestamp (data b))%Z)
          (messages w !!! chatId).

End Firestore.

(** ** services/chat.ts *)

(** The element type of the list handed to the callback of
    [getChatMessages]. *)
Module ChatMessage.
Record t := mk {
  id : string;
  chatId : string;
  senderId : string;
  senderName : string;
  text : string;
  timestamp : Z
}.
End ChatMessage.

(** The functions of the service.  Each wraps its body in [try ... catch],
    logs the error and throws it again: a rejected request propagates, as
    [bind] has it. *)
Module ChatService.
Import Firestore.

Notation "'let!' x ':=' m 'in' k" := (bind m (λ x, k))
  (at level 10, x pattern, m at level 100, k at level 200).

(** The [forEach] of [createOrGetChat]: every matching document overwrites
    [existingChatId], so the last one wins. *)
Definition scanExisting (otherUserId : string)
    (querySnapshot : list (Doc ChatData)) : option string :=
  foldl (λ existingChatId doc,
           if bool_decide (otherUserId ∈ participants (data doc))
           then Some (id doc) else existingChatId)
        None querySnapshot.

Definition createOrGetChat (currentUserId otherUserId : string)
    (currentUserName otherUserName : string) : M string :=
  let! querySnapshot := getDocsChats currentUserId in
  let existingChatId := scanExisting otherUserId querySnapshot in
  if Js.truthy Js.truthyString existingChatId then
    ret (default "" existingChatId)
  else
    let! now1 := timestampNow in
    let! now2 := timestampNow in
    let chatData :=
      mkChatData [currentUserId; otherUserId]
                 (<[otherUserId := otherUserName]>
                    (<[currentUserId := currentUserName]> ∅))
                 (Some "") (Some now1) now2 in
    addDocChats chatData.

Definition sendMessage (chatId senderId senderName text : string) : M unit :=
  let! now1 := timestampNow in
  let! _ := addDocMessages chatId
              (mkMessageData senderId senderName text now1) in
  let! now2 := timestampNow in
  updateDocChats chatId
    (λ c, mkChatData (participants c) (participantNames c)
                     (Some text) (Some now2) (createdAt c)).

(** [createOrGetChat] with an [otherUserId] that is [undefined], as a
    provider read from a record without [uid] gives it.  The query is made;
    no conversation holds [undefined] among its participants, so none is
    found; and [addDoc] refuses the document it is handed, which holds
    [undefined] among its participants, before any request is made: the
    store takes no [undefined], which is why [services/auth.ts] removes
    such properties from what it writes. *)
Definition createOrGetChatUndefined (currentUserId : string) : M string :=
  let! querySnapshot := getDocsChats currentUserId in
  λ w, (Throw, w).

(** What the snapshot listener registered by [getChatMessages] passes to its
    callback when the store is in state [w]: once when the listener is
    attached and again after every change of the subcollection. *)
Definition getChatMessages (chatId : string) (w : World) : list ChatMessage.t :=
  foldl (λ messages doc,
           messages ++ [ChatMessage.mk (id doc) chatId
                          (senderId (data doc)) (senderName (data doc))
                          (text (data doc)) (timestamp (data doc))])
        [] (queryMessages chatId w).

End ChatService.

(** ** components/NotificationButton.tsx *)

Module NotificationButton.

Inductive NotificationType := Message | Review | Service.

(** The [data] payload: [{ chatId }] or [{ reviewId }]. *)
Inductive NotificationData :=
| ChatId (chatId : string)
| ReviewId (reviewId : string).

Record Notification := mkNotification {
  id : string;
  type : NotificationType;
  title : string;
  message : string;
  timestamp : Z;
  read : bool;
  data : option NotificationData
}.

#[global] Instance NotificationType_eq_dec : EqDecision NotificationType.
Proof. solve_decision. Defined.
#[global] Instance NotificationData_eq_dec : EqDecision NotificationData.
Proof. solve_decision. Defined.
#[global] Instance Notification_eq_dec : EqDecision Notification.
Proof. solve_decision. Defined.

(** [reviews/{reviewId}], as far as the handler reads it; [rating] is the
    number of stars, a whole number, which the template literal prints in
    decimal. *)
Record ReviewData := mkReviewData {
  clientName : string;
  rating : Z;
  comment : string;
  createdAt : Z
}.

(** The component state; [user] is fixed for the lifetime of the listeners. *)
Record State := mkState {
  notifications : list Notification;
  showModal : bool;
  unreadCount : nat
}.

Definition initialState : State := mkState [] false 0.

(** [obj[key]] with a key that may be [undefined]. *)
Definition propertyKey (key : option string) : string :=
  default "undefined" key.

(** [{ ...n, read: true }] *)
Definition withReadTrue (n : Notification) : Notification :=
  mkNotification (id n) (type n) (title n) (message n) (timestamp n) true
                 (data n).

(** The comparator of both handlers: [b.timestamp.getTime() -
    a.timestamp.getTime()]. *)
Definition byTimestampDesc (a b : Notification) : bool :=
  (timestamp b - timestamp a <? 0)%Z.

(** [setNotifications(update)], followed by the effect that depends on
    [notifications] and recomputes [unreadCount]. *)
Definition setNotifications (update : list Notification → list Notification)
    (st : State) : State :=
  let notifications' := update (notifications st) in
  let count := length (filter (λ n, negb (read n)) notifications') in
  mkState notifications' (showModal st) count.

(** The [forEach] of the chats listener. *)
Definition messageNotifications (uid : string)
    (snapshot : list (Firestore.Doc Firestore.ChatData)) : list Notification :=
  foldl (λ messageNotifications doc,
           let data := Firestore.data doc in
           if Js.truthy Js.truthyString (Firestore.lastMessage data)
              && Js.truthy (λ _, true) (Firestore.lastMessageTime data)
           then
             let otherParticipant :=
               Js.find (λ p, negb (String.eqb p uid))
                       (Firestore.participants data) in
             let senderName :=
               Js.orElse Js.truthyString
                 (Firestore.participantNames data
                    !! propertyKey otherParticipant)
                 "Usuário" in
             messageNotifications ++
             [mkNotification
                ("message-" +:+ Firestore.id doc)
                Message
                ("Nova mensagem de " +:+ senderName)
                (default "" (Firestore.lastMessage data))
                (default 0%Z (Firestore.lastMessageTime data))
                false
                (Some (ChatId (Firestore.id doc)))]
           else messageNotifications)
        [] snapshot.

Definition onChatsSnapshot (uid : string)
    (snapshot : list (Firestore.Doc Firestore.ChatData)) : State → State :=
  setNotifications (λ prev,
    let filtered := filter (λ n, type n ≠ Message) prev in
    Js.sort byTimestampDesc (messageNotifications uid snapshot ++ filtered)).

(** The [forEach] of the reviews listener. *)
Definition reviewNotifications
    (snapshot : list (Firestore.Doc ReviewData)) : list Notification :=
  foldl (λ reviewNotifications doc,
           let data := Firestore.data doc in
           reviewNotifications ++
           [mkNotification
              ("review-" +:+ Firestore.id doc)
              Review
              ("Nova avaliação de " +:+ clientName data)
              (pretty (rating data) +:+ " estrelas: " +:+ comment data)
              (createdAt data)
              false
              (Some (ReviewId (Firestore.id doc)))])
        [] snapshot.

Definition onReviewsSnapshot
    (snapshot : list (Firestore.Doc ReviewData)) : State → State :=
  setNotifications (λ prev,
    let filtered := filter (λ n, type n ≠ Review) prev in
    Js.sort byTimestampDesc (reviewNotifications snapshot ++ filtered)).

Definition markAsRead (notificationId : string) : State → State :=
  setNotifications (λ prev,
    (λ n, if String.eqb (id n) notificationId then withReadTrue n else n)
      <$> prev).

Definition markAllAsRead : State → State :=
  setNotifications (λ prev, withReadTrue <$> prev).

(** [formatTime(date)]; [now] is the reading of [new Date()].  Both dates are
    whole numbers of milliseconds, on which [Math.floor(diff / n)] is the
    floor division. *)
Definition formatTime (now date : Z) : string :=
  let diff := (now - date)%Z in
  let minutes := (diff / 60000)%Z in
  let hours := (diff / 3600000)%Z in
  let days := (diff / 86400000)%Z in
  if (minutes <? 1)%Z then "Agora"
  else if (minutes <? 60)%Z then pretty minutes +:+ "m"
  else if (hours <? 24)%Z then pretty hours +:+ "h"
  else pretty days +:+ "d".

(** The text of the badge on the bell, if the badge is drawn:
    [unreadCount > 0 && (unreadCount > 99 ? '99+' : unreadCount)]. *)
Definition badge (st : State) : option string :=
  if (0 <? unreadCount st)%nat then
    Some (if (99 <? unreadCount st)%nat then "99+"
          else pretty (unreadCount st))
  else None.

End NotificationButton.

(** ** Provider discovery: app/(tabs)/index.tsx and app/(tabs)/map.tsx *)

(** [userLocation]: [{ latitude, longitude }]. *)
Module Location.
Record t := mk { latitude : float; longitude : float }.
End Location.

(** [users/{uid}], as far as the two screens read it; a field that the
    document does not have is absent, the [uid] as well, which only
    [createUserProfile] writes. *)
Module UserDoc.
Record t := mk {
  uid : option string;
  displayName : option string;
  photoURL : option string;
  serviceType : option string;
  neighborhood : option string;
  rating : option float;
  reviewCount : option float;
  status : option string;
  latitude : option float;
  longitude : option float
}.
End UserDoc.

(** The providers the screens build; [uid] is [data.uid] as it was read,
    [undefined] included. *)
Module Provider.
Record t := mk {
  uid : option string;
  displayName : string;
  photoURL : option string;
  serviceType : string;
  neighborhood : string;
  rating : float;
  reviewCount : float;
  status : string;
  latitude : float;
  longitude : float;
  distance : option float
}.

(** [provider.distance = d] *)
Definition setDistance (d : float) (p : t) : t :=
  mk (uid p) (displayName p) (photoURL p) (serviceType p) (neighborhood p)
     (rating p) (reviewCount p) (status p) (latitude p) (longitude p) (Some d).

(** [(a.distance || 0) - (b.distance || 0)], negative *)
Definition byDistance (a b : t) : bool :=
  (Js.orElse Js.truthyNumber (distance a) 0
   - Js.orElse Js.truthyNumber (distance b) 0 <? 0)%float.
End Provider.

Module HomeScreen.

Record State := mkState {
  providers : list Provider.t;
  filteredProviders : list Provider.t;
  selectedService : string;
  selectedNeighborhood : string;
  searchText : string;
  userLocation : option Location.t;
  searchRadius : float
}.

Definition initialState : State := mkState [] [] "" "" "" None 5.

(** The snapshot that [getDocs(q)] answers on the list screen, whose query
    ends in [limit(50)]: of the records that satisfy the two [where]
    clauses, [matching], listed in the order of the store, the first
    fifty. *)
Definition getDocs (matching : list (Firestore.Doc UserDoc.t))
  : list (Firestore.Doc UserDoc.t) :=
  take 50 matching.

Section LocationService.
(** [calculateDistance(lat1, lon1, lat2, lon2)] of [services/location]. *)
Variable calculateDistance : float → float → float → float → float.

(** The list handed to [setProviders] once [getDocs] has answered; when it
    is rejected the list is not set.  [userLocation] is the value the closure
    of [loadProviders] holds: that of the render the call comes from. *)
Definition loadProviders (userLocation : option Location.t)
    (querySnapshot : list (Firestore.Doc UserDoc.t)) : list Provider.t :=
  let providersData :=
    foldl (λ providersData doc,
             let data := Firestore.data doc in
             if negb (Js.truthy Js.truthyString (UserDoc.displayName data))
                || negb (Js.truthy Js.truthyString (UserDoc.serviceType data))
                || negb (Js.truthy Js.truthyString (UserDoc.neighborhood data))
             then providersData
             else
               let provider :=
                 Provider.mk
                   (UserDoc.uid data)
                   (default "" (UserDoc.displayName data))
                   (if Js.truthy Js.truthyString (UserDoc.photoURL data)
                    then UserDoc.photoURL data else None)
                   (default "" (UserDoc.serviceType data))
                   (default "" (UserDoc.neighborhood data))
                   (Js.orElse Js.truthyNumber (UserDoc.rating data) 0%float)
                   (Js.orElse Js.truthyNumber (UserDoc.reviewCount data) 0%float)
                   (Js.orElse Js.truthyString (UserDoc.status data)
                              "disponivel")
                   (Js.orElse Js.truthyNumber (UserDoc.latitude data)
                              (-22.9068)%float)
                   (Js.orElse Js.truthyNumber (UserDoc.longitude data)
                              (-43.1729)%float)
                   None in
               let provider :=
                 match userLocation with
                 | Some loc =>
                     Provider.setDistance
                       (calculateDistance
                          (Location.latitude loc) (Location.longitude loc)
                          (Provider.latitude provider)
                          (Provider.longitude provider))
                       provider
                 | None => provider
                 end in
               providersData ++ [provider])
          [] querySnapshot in
  Js.sort Provider.byDistance providersData.

End LocationService.

Definition setProviders (providersData : list Provider.t) (st : State)
  : State :=
  mkState providersData (filteredProviders st) (selectedService st)
          (selectedNeighborhood st) (searchText st) (userLocation st)
          (searchRadius st).

Definition setUserLocation (loc : option Location.t) (st : State) : State :=
  mkState (providers st) (filteredProviders st) (selectedService st)
          (selectedNeighborhood st) (searchText st) loc (searchRadius st).

Section CaseMapping.
(** [String.prototype.toLowerCase]: the lower-case mapping of the Unicode
    standard.  Its tables are not part of the code, and it does not work
    unit by unit: the function is a parameter of the screen. *)
Variable toLowerCase : string → string.

(** The list handed to [setFilteredProviders]. *)
Definition filtered (st : State) : list Provider.t :=
  let filtered := providers st in
  let filtered :=
    if Js.truthyString (selectedService st) then
      filter (λ provider,
                Js.includes (toLowerCase (Provider.serviceType provider))
                            (toLowerCase (selectedService st)))
             filtered
    else filtered in
  let filtered :=
    if Js.truthyString (selectedNeighborhood st) then
      filter (λ provider,
                Provider.neighborhood provider = selectedNeighborhood st)
             filtered
    else filtered in
  let filtered :=
    if Js.truthyString (searchText st) then
      filter (λ provider,
                Js.includes (toLowerCase (Provider.displayName provider))
                            (toLowerCase (searchText st))
                || Js.includes (toLowerCase (Provider.serviceType provider))
                               (toLowerCase (searchText st)))
             filtered
    else filtered in
  match userLocation st with
  | Some _ =>
      filter (λ provider,
                (Js.orElse Js.truthyNumber (Provider.distance provider) 0
                 <=? searchRadius st)%float)
             filtered
  | None => filtered
  end.

Definition filterProviders (st : State) : State :=
  mkState (providers st) (filtered st) (selectedService st)
          (selectedNeighborhood st) (searchText st) (userLocation st)
          (searchRadius st).

End CaseMapping.

End HomeScreen.

Module MapScreen.

(** The snapshot that [getDocs(q)] answers on the map screen, whose query
    sets no limit: all the records that satisfy the two [where] clauses. *)
Definition getDocs (matching : list (Firestore.Doc UserDoc.t))
  : list (Firestore.Doc UserDoc.t) :=
  matching.

Section LocationService.
Variable calculateDistance : float → float → float → float → float.

(** The list handed to [setProviders]. *)
Definition loadProviders (userLocation : option Location.t)
    (searchRadius : float)
    (querySnapshot : list (Firestore.Doc UserDoc.t)) : list Provider.t :=
  let providersData :=
    foldl (λ providersData doc,
             let data := Firestore.data doc in
             if negb (Js.truthy Js.truthyString (UserDoc.displayName data))
                || negb (Js.truthy Js.truthyString (UserDoc.serviceType data))
                || negb (Js.truthy Js.truthyString (UserDoc.neighborhood data))
                || negb (Js.truthy Js.truthyNumber (UserDoc.latitude data))
                || negb (Js.truthy Js.truthyNumber (UserDoc.longitude data))
             then providersData
             else
               let provider :=
                 Provider.mk
                   (UserDoc.uid data)
                   (default "" (UserDoc.displayName data))
                   (if Js.truthy Js.truthyString (UserDoc.photoURL data)
                    then UserDoc.photoURL data else None)
                   (default "" (UserDoc.serviceType data))
                   (default "" (UserDoc.neighborhood data))
                   (Js.orElse Js.truthyNumber (UserDoc.rating data) 0%float)
                   (Js.orElse Js.truthyNumber (UserDoc.reviewCount data) 0%float)
                   (Js.orElse Js.truthyString (UserDoc.status data)
                              "disponivel")
                   (default 0%float (UserDoc.latitude data))
                   (default 0%float (UserDoc.longitude data))
                   None in
               match userLocation with
               | Some loc =>
                   let distance :=
                     calculateDistance
                       (Location.latitude loc) (Location.longitude loc)
                       (Provider.latitude provider)
                       (Provider.longitude provider) in
                   if (distance <=? searchRadius)%float
                   then providersData ++ [Provider.setDistance distance provider]
                   else providersData
               | None => providersData ++ [provider]
               end)
          [] querySnapshot in
  Js.sort Provider.byDistance providersData.

End LocationService.

End MapScreen.

(** The other setters of the state of the list screen. *)
Module HomeScreenState.
Import HomeScreen.

Definition setSelectedService (service : string) (st : State) : State :=
  mkState (providers st) (filteredProviders st) service
          (selectedNeighborhood st) (searchText st) (userLocation st)
          (searchRadius st).

Definition setSelectedNeighborhood (neighborhood : string) (st : State)
  : State :=
  mkState (providers st) (filteredProviders st) (selectedService st)
          neighborhood (searchText st) (userLocation st) (searchRadius st).

Definition setSearchText (text : string) (st : State) : State :=
  mkState (providers st) (filteredProviders st) (selectedService st)
          (selectedNeighborhood st) text (userLocation st) (searchRadius st).

Definition setSearchRadius (radius : float) (st : State) : State :=
  mkState (providers st) (filteredProviders st) (selectedService st)
          (selectedNeighborhood st) (searchText st) (userLocation st) radius.

Section Reload.
Variable calculateDistance : float → float → float → float → float.
Variable toLowerCase : string → string.

(** The [onRadiusChange] that the screen hands to [SearchFilters]:
    [setSearchRadius(radius); loadProviders()].  The new radius runs the
    effect [filterProviders] on the providers at hand; then the providers
    that the call of [loadProviders] builds, with the [userLocation] of the
    render the call comes from, run it again.  [answer] is the snapshot that
    [getDocs] answers, absent when the request is rejected. *)
Definition onRadiusChange (radius : float)
    (answer : option (list (Firestore.Doc UserDoc.t))) (st : State) : State :=
  let st1 := filterProviders toLowerCase (setSearchRadius radius st) in
  match answer with
  | Some querySnapshot =>
      filterProviders toLowerCase
        (setProviders
           (loadProviders calculateDistance (userLocation st) querySnapshot)
           st1)
  | None => st1
  end.

End Reload.

End HomeScreenState.

(** ** More of the JavaScript library: strings and [parseInt] *)

Module JsString.
Import Stdlib.Strings.Ascii.

(** The string whose UTF-8 encoding is the given bytes. *)
Definition ofBytes (bytes : list nat) : string :=
  foldr (λ n s, String (ascii_of_nat n) s) "" bytes.

(** The white space and the line terminators of the language, which [trim]
    and [parseInt] skip: U+0009 to U+000D, U+0020, U+00A0, U+1680, U+2000 to
    U+200A, U+2028, U+2029, U+202F, U+205F, U+3000 and U+FEFF, each as the
    one, two or three bytes of its encoding. *)
Definition whiteSpace : list string :=
  ofBytes <$>
    [[9]; [10]; [11]; [12]; [13]; [32];
     [194; 160];
     [225; 154; 128];
     [226; 128; 128]; [226; 128; 129]; [226; 128; 130]; [226; 128; 131];
     [226; 128; 132]; [226; 128; 133]; [226; 128; 134]; [226; 128; 135];
     [226; 128; 136]; [226; 128; 137]; [226; 128; 138];
     [226; 128; 168]; [226; 128; 169]; [226; 128; 175];
     [226; 129; 159];
     [227; 128; 128];
     [239; 187; 191]].

Definition isWhiteSpace (w : string) : bool := bool_decide (w ∈ whiteSpace).

Section Strip.
(** Whether one, two or three bytes are a character to remove. *)
Variable remove : string → bool.

(** What is left of [s] once the characters to remove at its start are
    gone. *)
Fixpoint strip (s : string) : string :=
  match s with
  | EmptyString => s
  | String a s1 =>
      if remove (String a "") then strip s1
      else
        match s1 with
        | EmptyString => s
        | String b s2 =>
            if remove (String a (String b "")) then strip s2
            else
              match s2 with
              | EmptyString => s
              | String c s3 =>
                  if remove (String a (String b (String c ""))) then strip s3
                  else s
              end
        end
  end.

End Strip.

(** [String.prototype.trimStart] *)
Definition trimStart (s : string) : string := strip isWhiteSpace s.

(** [String.prototype.trimEnd]: the same from the other end. *)
Definition trimEnd (s : string) : string :=
  String.rev (strip (λ w, isWhiteSpace (String.rev w)) (String.rev s)).

(** [String.prototype.trim] *)
Definition trim (s : string) : string := trimEnd (trimStart s).

(** [String.prototype.length]: the number of UTF-16 code units.  A character
    of one, two or three bytes is one unit and a character of four bytes,
    whose first byte is F0 or more, is two; the bytes from 80 to BF continue
    a character. *)
Fixpoint utf16Length (s : string) : nat :=
  match s with
  | EmptyString => 0
  | String a s' =>
      let n := nat_of_ascii a in
      (if (n <? 128)%nat || (192 <=? n)%nat then 1 else 0)
      + (if (240 <=? n)%nat then 1 else 0)
      + utf16Length s'
  end.

(** [\d], and [[0-9]]. *)
Definition isDigit (c : Ascii.ascii) : bool :=
  let n := Ascii.nat_of_ascii c in (48 <=? n)%nat && (n <=? 57)%nat.

(** [s.replace(/\D/g, '')], and [s.replace(/[^0-9]/g, '')]. *)
Fixpoint removeNonDigits (s : string) : string :=
  match s with
  | EmptyString => EmptyString
  | String c s' =>
      if isDigit c then String c (removeNonDigits s') else removeNonDigits s'
  end.

(** A match of [(\d{n})] at the start of [s]: the group and what follows. *)
Fixpoint takeDigits (n : nat) (s : string) : option (string * string) :=
  match n with
  | 0 => Some (EmptyString, s)
  | S n' =>
      match s with
      | EmptyString => None
      | String c s' =>
          if isDigit c then
            match takeDigits n' s' with
            | Some (group, rest) => Some (String c group, rest)
            | None => None
            end
          else None
      end
  end.

(** A match of [(\d{n1})(\d{n2})...] at the start of [s]: the groups and
    what follows. *)
Fixpoint takeGroups (sizes : list nat) (s : string)
  : option (list string * string) :=
  match sizes with
  | [] => Some ([], s)
  | n :: sizes' =>
      match takeDigits n s with
      | Some (group, rest) =>
          match takeGroups sizes' rest with
          | Some (groups, rest') => Some (group :: groups, rest')
          | None => None
          end
      | None => None
      end
  end.

(** [s.replace(/(\d{n1})(\d{n2}).../, replacement)], without the [g] flag:
    the leftmost match is replaced, the text around it is kept, and a string
    without a match is returned as it is.  [replacement] receives the groups
    [$1], [$2], ... *)
Fixpoint replaceGroups (sizes : list nat) (replacement : list string → string)
    (s : string) : string :=
  match takeGroups sizes s with
  | Some (groups, rest) => replacement groups +:+ rest
  | None =>
      match s with
      | EmptyString => EmptyString
      | String c s' => String c (replaceGroups sizes replacement s')
      end
  end.

(** A number that is a whole number, or [NaN]. *)
Inductive number := NaN | Int (n : Z).

#[global] Instance number_eq_dec : EqDecision number.
Proof. solve_decision. Defined.

(** The value of a digit in the given radix: [0-9], [a-z], [A-Z]. *)
Definition digitValue (radix : Z) (c : Ascii.ascii) : option Z :=
  let n := Z.of_nat (Ascii.nat_of_ascii c) in
  let value :=
    if (48 <=? n)%Z && (n <=? 57)%Z then Some (n - 48)%Z
    else if (97 <=? n)%Z && (n <=? 122)%Z then Some (n - 87)%Z
    else if (65 <=? n)%Z && (n <=? 90)%Z then Some (n - 55)%Z
    else None in
  match value with
  | Some d => if (d <? radix)%Z then Some d else None
  | None => None
  end.

(** The value of the longest prefix of digits, if it is not empty. *)
Fixpoint parseDigits (radix : Z) (acc : option Z) (s : string) : option Z :=
  match s with
  | EmptyString => acc
  | String c s' =>
      match digitValue radix c with
      | Some d => parseDigits radix (Some (radix * default 0 acc + d)%Z) s'
      | None => acc
      end
  end.

(** [parseInt(string)], without a radix: leading white space is skipped, a
    sign is read, a prefix [0x] or [0X] selects radix 16, and the longest
    prefix of digits gives the value; without a digit the result is [NaN].
    The value is the mathematical one, which is what JavaScript returns
    below [2^53]. *)
Definition parseInt (string : string) : number :=
  let input := trimStart string in
  let '(sign, input) :=
    match input with
    | String "-"%char rest => ((-1)%Z, rest)
    | String "+"%char rest => (1%Z, rest)
    | _ => (1%Z, input)
    end in
  let '(radix, input) :=
    match input with
    | String "0"%char (String "x"%char rest) => (16%Z, rest)
    | String "0"%char (String "X"%char rest) => (16%Z, rest)
    | _ => (10%Z, input)
    end in
  match parseDigits radix None input with
  | Some n => Int (sign * n)
  | None => NaN
  end.

(** [Number.prototype.toString] *)
Definition toString (x : number) : string :=
  match x with
  | NaN => "NaN"
  | Int n => pretty n
  end.

(** [x >= lo && x <= hi]; every comparison with [NaN] is false. *)
Definition between (lo hi : Z) (x : number) : bool :=
  match x with
  | NaN => false
  | Int n => (lo <=? n)%Z && (n <=? hi)%Z
  end.

End JsString.

(** ** app/chat/[id].tsx *)

Module ChatDetailScreen.
Import Firestore ChatService.

(** [useAuth()]: the signed-in user and their profile, as far as the screen
    reads them. *)
Record User := mkUser { uid : string }.
Record UserProfile := mkUserProfile { displayName : string }.

(** The state of the screen that sending and listening touch. *)
Record State := mkState {
  messages : list ChatMessage.t;
  newMessage : string;
  loading : bool
}.

Definition setMessages (newMessages : list ChatMessage.t) (st : State)
  : State :=
  mkState newMessages (newMessage st) (loading st).

Definition setNewMessage (text : string) (st : State) : State :=
  mkState (messages st) text (loading st).

Definition setLoading (loading : bool) (st : State) : State :=
  mkState (messages st) (newMessage st) loading.

(** [try { body } catch (error) { handler }] *)
Definition tryCatch {A : Type} (body handler : M A) : M A :=
  λ w, match body w with
       | (Ok a, w') => (Ok a, w')
       | (Throw, w') => handler w'
       end.

(** [id] is the route parameter, [user] and [userProfile] come from
    [useAuth()].  The [catch] logs the error and shows an alert. *)
Definition handleSendMessage (id : option string) (user : option User)
    (userProfile : option UserProfile) (st : State) : M State :=
  if negb (Js.truthyString (JsString.trim (newMessage st)))
     || negb (Js.truthy (λ _, true) user)
     || negb (Js.truthy (λ _, true) userProfile)
     || negb (Js.truthy Js.truthyString id)
  then ret st
  else
    match id, user, userProfile with
    | Some id, Some user, Some userProfile =>
        let st := setLoading true st in
        let! st :=
          tryCatch
            (let! _ := sendMessage id (uid user) (displayName userProfile)
                         (JsString.trim (newMessage st)) in
             ret (setNewMessage "" st))
            (ret st) in
        ret (setLoading false st)
    | _, _, _ => ret st
    end.

(** The callback handed to [getChatMessages] when the screen mounts. *)
Definition onMessages (id : string) (w : World) : State → State :=
  setMessages (getChatMessages id w).

End ChatDetailScreen.

(** ** Starting a conversation: [handleStartChat] of app/(tabs)/map.tsx and
    of app/(tabs)/index.tsx *)

Module StartChat.
Import Firestore ChatService.

(** Where the handler leaves the user: on the sign-in screen, on the screen
    of the conversation, or where they were, with an error shown. *)
Inductive Route :=
| ToAuth
| ToChat (chatId : string)
| Stay.

(** A [ReferenceError]: an identifier that is not bound is evaluated. *)
Definition referenceError {A : Type} : M A := λ w, (Throw, w).

(** The map screen binds [user] and [userProfile] from [useAuth()]. *)
Definition handleStartChatMap (user : option ChatDetailScreen.User)
    (userProfile : option ChatDetailScreen.UserProfile)
    (provider : Provider.t) : M Route :=
  if negb (Js.truthy (λ _, true) user)
     || negb (Js.truthy (λ _, true) userProfile)
  then ret ToAuth
  else
    match user, userProfile with
    | Some user, Some userProfile =>
        ChatDetailScreen.tryCatch
          (let! chatId :=
             match Provider.uid provider with
             | Some otherUserId =>
                 createOrGetChat (ChatDetailScreen.uid user)
                                 otherUserId
                                 (ChatDetailScreen.displayName userProfile)
                                 (Provider.displayName provider)
             | None => createOrGetChatUndefined (ChatDetailScreen.uid user)
             end in
           ret (ToChat chatId))
          (ret Stay)
    | _, _ => ret ToAuth
    end.

(** The list screen binds [user] only ([const { user } = useAuth()]), and
    nothing else in the module binds [userProfile]: in [!user ||
    !userProfile] the second operand is evaluated when [user] is set, and
    throws, before the [try] is entered. *)
Definition handleStartChatHome (user : option ChatDetailScreen.User)
    (provider : Provider.t) : M Route :=
  if negb (Js.truthy (λ _, true) user) then ret ToAuth
  else referenceError.

End StartChat.

(** ** app/profile-setup.tsx *)

Module ProfileSetupScreen.

Definition formatCPF (value : string) : string :=
  let numbers := JsString.removeNonDigits value in
  let formatted :=
    JsString.replaceGroups [3; 3; 3; 2]
      (λ groups,
         match groups with
         | [g1; g2; g3; g4] => g1 +:+ "." +:+ g2 +:+ "." +:+ g3 +:+ "-" +:+ g4
         | _ => ""
         end)
      numbers in
  formatted.

Definition formatPhone (value : string) : string :=
  let numbers := JsString.removeNonDigits value in
  let formatted :=
    JsString.replaceGroups [2; 5; 4]
      (λ groups,
         match groups with
         | [g1; g2; g3] => "(" +:+ g1 +:+ ") " +:+ g2 +:+ "-" +:+ g3
         | _ => ""
         end)
      numbers in
  formatted.

End ProfileSetupScreen.

(** ** components/SearchFilters.tsx *)

Module SearchFilters.
Import JsString.

(** [AsyncStorage] *)
Abbreviation Storage := (gmap string string).

Record State := mkState {
  searchText : string;
  showServices : bool;
  showNeighborhoods : bool;
  showRadiusModal : bool;
  tempRadius : string
}.

Definition setTempRadius (text : string) (st : State) : State :=
  mkState (searchText st) (showServices st) (showNeighborhoods st)
          (showRadiusModal st) text.

Definition setShowRadiusModal (show : bool) (st : State) : State :=
  mkState (searchText st) (showServices st) (showNeighborhoods st)
          show (tempRadius st).

(** What a call of [handleRadiusChange] leaves: the storage, the radius
    handed to [onRadiusChange] if it was called, and the state. *)
Record Outcome := mkOutcome {
  storage : Storage;
  radiusChanged : option number;
  state : State
}.

(** [setItem] says whether [AsyncStorage.setItem] is fulfilled; when it is
    rejected the [catch] logs the error. *)
Definition handleRadiusChange (setItem : bool) (storage : Storage)
    (st : State) : Outcome :=
  let radius := parseInt (tempRadius st) in
  if between 1 50 radius then
    if setItem then
      mkOutcome (<["searchRadius" := toString radius]> storage)
                (Some radius) (setShowRadiusModal false st)
    else mkOutcome storage None st
  else mkOutcome storage None st.

Definition radiusOptions : list number :=
  Int <$> [1; 2; 5; 10; 15; 20; 25; 30; 40; 50]%Z.

(** The [onPress] of the button that opens the radius dialog. *)
Definition openRadiusModal (currentRadius : number) (st : State) : State :=
  setShowRadiusModal true (setTempRadius (toString currentRadius) st).

(** The [onPress] of an option of the radius dialog. *)
Definition pressRadiusOption (radius : number) : State → State :=
  setTempRadius (toString radius).

(** The [onChangeText] of the input of the radius dialog. *)
Definition changeRadiusText (text : string) (st : State) : State :=
  let numericValue := removeNonDigits text in
  if String.eqb numericValue ""
     || between 1 50 (parseInt numericValue)
  then setTempRadius numericValue st
  else st.

End SearchFilters.

(** ** The saved search radius: [loadSearchRadius], the same code in
    app/(tabs)/index.tsx, app/(tabs)/map.tsx and components/MapView.tsx *)

Module SearchRadius.
Import JsString.

(** [getItem] says whether [AsyncStorage.getItem] is fulfilled; the result
    is the [searchRadius] of the screen after the call. *)
Definition loadSearchRadius (getItem : bool) (storage : SearchFilters.Storage)
    (searchRadius : number) : number :=
  if getItem then
    let savedRadius := storage !! "searchRadius" in
    if Js.truthy Js.truthyString savedRadius
    then parseInt (default "" savedRadius)
    else searchRadius
  else searchRadius.

End SearchRadius.

(** ** components/ReviewModal.tsx *)

Module ReviewModal.

Record Props := mkProps {
  providerUid : string;
  clientId : string;
  clientName : string
}.

Record State := mkState {
  rating : Z;
  comment : string;
  loading : bool
}.

Definition initialState : State := mkState 0 "" false.

Definition setRating (rating : Z) (st : State) : State :=
  mkState rating (comment st) (loading st).

Definition setComment (comment : string) (st : State) : State :=
  mkState (rating st) comment (loading st).

Definition setLoading (loading : bool) (st : State) : State :=
  mkState (rating st) (comment st) loading.

(** The arguments of a call of [addReview]. *)
Record AddReview := mkAddReview {
  reviewProviderId : string;
  reviewClientId : string;
  reviewClientName : string;
  reviewRating : Z;
  reviewComment : string
}.

(** What a call of [handleSubmit] leaves: the call of [addReview] if it was
    made, whether [onReviewSubmitted] and [onClose] were called, and the
    state. *)
Record Outcome := mkOutcome {
  call : option AddReview;
  closed : bool;
  state : State
}.

(** [handleClose]: the state it leaves; it also calls [onClose]. *)
Definition handleClose (st : State) : State :=
  setComment "" (setRating 0 st).

(** [addReview] says whether the call of [addReview] is fulfilled. *)
Definition handleSubmit (props : Props) (addReview : bool) (st : State)
  : Outcome :=
  if (rating st =? 0)%Z then mkOutcome None false st
  else if negb (Js.truthyString (JsString.trim (comment st)))
  then mkOutcome None false st
  else
    let st := setLoading true st in
    let call :=
      mkAddReview (providerUid props) (clientId props) (clientName props)
                  (rating st) (JsString.trim (comment st)) in
    if addReview then
      mkOutcome (Some call) true (setLoading false (handleClose st))
    else
      mkOutcome (Some call) false (setLoading false st).

(** The [onPress] handlers of the stars that [renderStars] draws, from the
    first to the fifth. *)
Definition renderStars : list (State → State) :=
  (λ i, setRating (Z.of_nat i)) <$> seq 1 5.

End ReviewModal.

(** ** Documents as the backend sees them *)

Module Document.

(** The values of the fields of a document. *)
Inductive Value :=
| VNull
| VBool (b : bool)
| VNumber (x : float)
| VString (s : string)
| VTimestamp (t : Z)
| VList (l : list Value)
| VMap (m : list (string * Value)).

(** [resource.data]: the fields of a document. *)
Abbreviation Data := (gmap string Value).

End Document.

(** ** services/auth.ts: the profile documents *)

Module AuthService.
Import Document.

(** The [users] collection, by document id. *)
Abbreviation Users := (gmap string Data).

(** An object whose properties may hold [undefined]. *)
Abbreviation Object := (gmap string (option Value)).

(** What [useAuth] and the sign-in functions give of the signed-in user. *)
Record FirebaseUser := mkFirebaseUser {
  uid : string;
  email : option string;
  displayName : option string;
  photoURL : option string
}.

(** Truthiness of a property; [None] is [undefined]. *)
Definition truthy (v : option Value) : bool :=
  match v with
  | None | Some VNull => false
  | Some (VBool b) => b
  | Some (VNumber x) => Js.truthyNumber x
  | Some (VString s) => Js.truthyString s
  | Some (VTimestamp _) | Some (VList _) | Some (VMap _) => true
  end.

(** [a || b] *)
Definition or (a b : option Value) : option Value :=
  if truthy a then a else b.

(** A property of type [string | null]. *)
Definition ofString (s : option string) : option Value :=
  Some match s with
       | Some s => VString s
       | None => VNull
       end.

(** [v === s] *)
Definition isString (v : option Value) (s : string) : bool :=
  match v with
  | Some (VString s') => String.eqb s' s
  | _ => false
  end.

(** [Object.fromEntries(Object.entries(o).filter(([_, value]) => value !==
    undefined))] *)
Definition clean (o : Object) : Data := omap id o.

(** [setDoc(doc(db, "users", uid), data, { merge: true })], for data whose
    fields hold no maps: the fields written replace those of the document,
    the other fields of the document stay, and a document that does not
    exist is created.  [ok] says whether the request is fulfilled. *)
Definition setDocMerge (ok : bool) (uid : string) (data : Data)
    (users : Users) : Firestore.Result unit * Users :=
  if ok then
    (Firestore.Ok tt, <[uid := data ∪ default ∅ (users !! uid)]> users)
  else (Firestore.Throw, users).

(** [now] is the reading of [new Date()].  The [catch] logs the error and
    throws it again. *)
Definition createUserProfile (ok : bool) (now : Z)
    (firebaseUser : FirebaseUser) (userData : Object) (users : Users)
  : Firestore.Result Object * Users :=
  let cleanUserData := clean userData in
  let isPrestador := isString (cleanUserData !! "userType") "prestador" in
  let newUser : Object :=
    list_to_map
      [("uid", Some (VString (uid firebaseUser)));
       ("email", ofString (email firebaseUser));
       ("displayName",
         or (or (ofString (displayName firebaseUser))
                (cleanUserData !! "displayName"))
            (Some (VString "")));
       ("photoURL",
         or (or (ofString (photoURL firebaseUser))
                (cleanUserData !! "photoURL"))
            (Some VNull));
       ("userType", cleanUserData !! "userType");
       ("cpf", or (cleanUserData !! "cpf") (Some VNull));
       ("phone", or (cleanUserData !! "phone") (Some VNull));
       ("neighborhood", or (cleanUserData !! "neighborhood") (Some VNull));
       ("serviceType", or (cleanUserData !! "serviceType") (Some VNull));
       ("isProfileComplete", Some (VBool false));
       ("status",
         Some (if isPrestador then VString "disponivel" else VNull));
       ("rating", Some (if isPrestador then VNumber 0 else VNull));
       ("reviewCount", Some (if isPrestador then VNumber 0 else VNull));
       ("latitude", or (cleanUserData !! "latitude") (Some VNull));
       ("longitude", or (cleanUserData !! "longitude") (Some VNull));
       ("createdAt", Some (VTimestamp now))] in
  let cleanNewUser := clean newUser in
  match setDocMerge ok (uid firebaseUser) cleanNewUser users with
  | (Firestore.Ok _, users') => (Firestore.Ok newUser, users')
  | (Firestore.Throw, users') => (Firestore.Throw, users')
  end.

(** [ok] says whether [getDoc] is fulfilled; the [catch] returns [null], as
    the function does for a document that does not exist. *)
Definition getUserProfile (ok : bool) (uid : string) (users : Users)
  : option Data :=
  if ok then users !! uid else None.

Definition updateUserProfile (ok : bool) (uid : string) (userData : Object)
    (users : Users) : Firestore.Result unit * Users :=
  let cleanUserData := clean userData in
  setDocMerge ok uid cleanUserData users.

End AuthService.

(** The form of app/profile-setup.tsx and its saving. *)

Module ProfileForm.
Import Document AuthService.

(** The fields of the form. *)
Record State := mkState {
  displayName : string;
  phone : string;
  cpf : string;
  neighborhood : string;
  serviceType : string;
  photoURL : string;
  fullAddress : string;
  loading : bool
}.

Definition setLoading (loading : bool) (st : State) : State :=
  mkState (displayName st) (phone st) (cpf st) (neighborhood st)
          (serviceType st) (photoURL st) (fullAddress st) loading.

(** [userType || userProfile?.userType]: the route parameter, else the type
    kept in the profile. *)
Definition currentUserType (userType : option string)
    (userProfile : option Data) : option Value :=
  or (VString <$> userType)
     (match userProfile with
      | Some profile => profile !! "userType"
      | None => None
      end).

Definition validateForm (userType : option string)
    (userProfile : option Data) (st : State) : bool :=
  if negb (Js.truthyString (JsString.trim (displayName st))) then false
  else if negb (Js.truthyString (JsString.trim (phone st))) then false
  else if negb (Js.truthyString (JsString.trim (cpf st))) then false
  else if negb (Js.truthyString (neighborhood st)) then false
  else if isString (currentUserType userType userProfile) "prestador"
          && negb (Js.truthyString (serviceType st))
  then false
  else true.

(** [s || null] *)
Definition orNull (s : string) : option Value :=
  Some (if Js.truthyString s then VString s else VNull).

(** The object handed to [updateUserProfile]. *)
Definition profileData (userType : option string) (userProfile : option Data)
    (location : Location.t) (st : State) : Object :=
  let currentUserType := currentUserType userType userProfile in
  let profileData : Object :=
    list_to_map
      [("displayName", Some (VString (JsString.trim (displayName st))));
       ("phone", Some (VString (JsString.trim (phone st))));
       ("cpf", Some (VString (JsString.trim (cpf st))));
       ("neighborhood", Some (VString (neighborhood st)));
       ("fullAddress", orNull (JsString.trim (fullAddress st)));
       ("photoURL", orNull (photoURL st));
       ("latitude", Some (VNumber (Location.latitude location)));
       ("longitude", Some (VNumber (Location.longitude location)));
       ("isProfileComplete", Some (VBool true))] in
  let profileData :=
    if truthy currentUserType
    then <["userType" := currentUserType]> profileData
    else profileData in
  if isString currentUserType "prestador" then
    <["reviewCount" := Some (VNumber 0)]>
      (<["rating" := Some (VNumber 0)]>
         (<["status" := Some (VString "disponivel")]>
            (<["serviceType" := Some (VString (serviceType st))]>
               profileData)))
  else profileData.

(** What a call of [handleSave] leaves: whether the profile was written,
    the [users] collection and the form.  [user] is the id of the signed-in
    user, [location] the answer of [getCurrentLocation], absent when it is
    rejected, and [ok] says whether the write is fulfilled; the [catch] shows
    an alert.  [refreshProfile], called after the write, reads the profile
    again and leaves the collection as it is. *)
Definition handleSave (userType : option string) (user : option string)
    (userProfile : option Data) (location : option Location.t) (ok : bool)
    (st : State) (users : Users) : bool * Users * State :=
  if negb (validateForm userType userProfile st) then (false, users, st)
  else
    let st := setLoading true st in
    match location, user with
    | Some location, Some uid =>
        match updateUserProfile ok uid
                (profileData userType userProfile location st) users with
        | (Firestore.Ok _, users') => (true, users', setLoading false st)
        | (Firestore.Throw, users') => (false, users', setLoading false st)
        end
    | _, _ => (false, users, setLoading false st)
    end.

End ProfileForm.

(** ** AuthScreen: signing in and signing up with an e-mail address *)

Module AuthScreen.
Import Document AuthService.

Record State := mkState {
  selectedUserType : option string;
  isLogin : bool;
  email : string;
  password : string;
  confirmPassword : string;
  loading : bool
}.

Definition setLoading (loading : bool) (st : State) : State :=
  mkState (selectedUserType st) (isLogin st) (email st) (password st)
          (confirmPassword st) loading.

(** The call made to the authentication service. *)
Inductive Attempt :=
| SignIn (email password : string)
| SignUp (email password : string).

(** [router.replace]: to the profile form, or to the tabs. *)
Inductive Route :=
| ProfileSetup (userType : string)
| Tabs.

(** What a call of [handleEmailAuth] leaves. *)
Record Outcome := mkOutcome {
  attempt : option Attempt;
  users : Users;
  route : option Route;
  state : State
}.

(** [s || null] *)
Definition orNull (s : option string) : option Value :=
  Some match s with
       | Some s => if Js.truthyString s then VString s else VNull
       | None => VNull
       end.

(** [signIn] and [signUp] are the answers of [signInWithEmail] and
    [signUpWithEmail], absent when the call is rejected; [ok] and [now] are
    those of [createUserProfile].  The [catch] shows an alert. *)
Definition handleEmailAuth (signIn signUp : option FirebaseUser) (ok : bool)
    (now : Z) (st : State) (users : Users) : Outcome :=
  if negb (Js.truthyString (email st)) || negb (Js.truthyString (password st))
  then mkOutcome None users None st
  else if negb (isLogin st)
          && negb (String.eqb (password st) (confirmPassword st))
  then mkOutcome None users None st
  else if negb (isLogin st)
          && (JsString.utf16Length (password st) <? 6)%nat
  then mkOutcome None users None st
  else
    let st := setLoading true st in
    let replace : option Route :=
      Some match selectedUserType st with
           | Some type => if Js.truthyString type then ProfileSetup type
                          else Tabs
           | None => Tabs
           end in
    if isLogin st then
      match signIn with
      | Some firebaseUser =>
          mkOutcome (Some (SignIn (email st) (password st))) users
                    replace (setLoading false st)
      | None =>
          mkOutcome (Some (SignIn (email st) (password st))) users None
                    (setLoading false st)
      end
    else
      match signUp with
      | Some firebaseUser =>
          if Js.truthy Js.truthyString (selectedUserType st) then
            let userData : Object :=
              list_to_map
                [("userType", VString <$> selectedUserType st);
                 ("displayName", orNull (displayName firebaseUser));
                 ("photoURL", orNull (photoURL firebaseUser))] in
            match createUserProfile ok now firebaseUser userData users with
            | (Firestore.Ok _, users') =>
                mkOutcome (Some (SignUp (email st) (password st))) users'
                          replace (setLoading false st)
            | (Firestore.Throw, users') =>
                mkOutcome (Some (SignUp (email st) (password st))) users'
                          None (setLoading false st)
            end
          else
            mkOutcome (Some (SignUp (email st) (password st))) users
                      replace (setLoading false st)
      | None =>
          mkOutcome (Some (SignUp (email st) (password st))) users None
                    (setLoading false st)
      end.

End AuthScreen.

(** ** firestore.rules *)

Module Rules.
Import Document.

Inductive Method := Get | List | Create | Update | Delete.

(** [read] stands for [get] and [list], [write] for [create], [update] and
    [delete]. *)
Definition read (m : Method) : bool :=
  match m with
  | Get | List => true
  | Create | Update | Delete => false
  end.

Definition write (m : Method) : bool :=
  match m with
  | Create | Update | Delete => true
  | Get | List => false
  end.

Definition create (m : Method) : bool :=
  match m with Create => true | _ => false end.

Definition update (m : Method) : bool :=
  match m with Update => true | _ => false end.

Definition delete (m : Method) : bool :=
  match m with Delete => true | _ => false end.

(** A request on one document.  [auth] is [request.auth.uid], absent when
    [request.auth] is [null]; [resource] holds [resource.data], absent when
    the document does not exist; [requestResource] holds
    [request.resource.data], the document as the write would leave it, absent
    for a read and for a [delete]. *)
Record Request := mkRequest {
  auth : option string;
  method : Method;
  resource : option Data;
  requestResource : option Data
}.

(** Conditions.  An [allow] grants the request when its condition evaluates
    to [true]; it does not when the condition evaluates to [false] or fails
    to evaluate, as it does on a field of [null] and on a field that is
    missing.  The functions below are [true] in the first case only. *)

(** [document.data.name] *)
Definition field (document : option Data) (name : string) : option Value :=
  match document with
  | Some data => data !! name
  | None => None
  end.

(** [request.auth != null] *)
Definition signedIn (request : Request) : bool :=
  match auth request with
  | Some _ => true
  | None => false
  end.

(** [request.auth.uid == s] *)
Definition uidIs (request : Request) (s : string) : bool :=
  match auth request with
  | Some uid => String.eqb uid s
  | None => false
  end.

(** [request.auth.uid == v] *)
Definition uidEquals (request : Request) (v : option Value) : bool :=
  match auth request, v with
  | Some uid, Some (VString s) => String.eqb uid s
  | _, _ => false
  end.

(** [v == s] *)
Definition equalsString (v : option Value) (s : string) : bool :=
  match v with
  | Some (VString s') => String.eqb s' s
  | _ => false
  end.

(** [v == true] *)
Definition equalsTrue (v : option Value) : bool :=
  match v with
  | Some (VBool b) => b
  | _ => false
  end.

(** [s in v]: membership in a list, and in the keys of a map. *)
Definition isIn (s : string) (v : option Value) : bool :=
  match v with
  | Some (VList l) =>
      existsb (λ x, match x with
                    | VString s' => String.eqb s' s
                    | _ => false
                    end) l
  | Some (VMap m) => existsb (λ entry, String.eqb (fst entry) s) m
  | _ => false
  end.

(** [request.auth.uid in v] *)
Definition uidIn (request : Request) (v : option Value) : bool :=
  match auth request with
  | Some uid => isIn uid v
  | None => false
  end.

(** [match /users/{userId}] *)
Definition users (userId : string) (request : Request) : bool :=
  let m := method request in
  ((read m || write m) && (signedIn request && uidIs request userId))
  || (read m && signedIn request)
  || (read m
      && (equalsString (field (resource request) "userType") "prestador"
          && equalsTrue (field (resource request) "isProfileComplete"))).

(** [match /reviews/{reviewId}] *)
Definition reviews (request : Request) : bool :=
  let m := method request in
  (read m && signedIn request)
  || (create m
      && (signedIn request
          && uidEquals request (field (requestResource request) "clientId")))
  || ((update m || delete m)
      && (signedIn request
          && uidEquals request (field (resource request) "clientId"))).

(** [match /chats/{chatId}] *)
Definition chats (request : Request) : bool :=
  let m := method request in
  ((read m || write m)
   && (signedIn request
       && uidIn request (field (resource request) "participants")))
  || (create m
      && (signedIn request
          && uidIn request (field (requestResource request) "participants"))).

(** [match /chats/{chatId}/messages/{messageId}]; [get] answers
    [get(/databases/$(database)/documents/chats/$(chatId))]: the fields of
    that conversation, if it exists. *)
Definition messages (get : string → option Data) (chatId : string)
    (request : Request) : bool :=
  let m := method request in
  (read m || create m)
  && (signedIn request
      && uidIn request (field (get chatId) "participants")).

(** The documents of the database; no rule matches the other ones. *)
Inductive Path :=
| UsersDoc (userId : string)
| ReviewsDoc (reviewId : string)
| ChatsDoc (chatId : string)
| MessagesDoc (chatId messageId : string)
| OtherDoc (segments : list string).

(** Whether the rules grant the request on the document. *)
Definition allow (get : string → option Data) (path : Path)
    (request : Request) : bool :=
  match path with
  | UsersDoc userId => users userId request
  | ReviewsDoc _ => reviews request
  | ChatsDoc _ => chats request
  | MessagesDoc chatId _ => messages get chatId request
  | OtherDoc _ => false
  end.

End Rules.

(** * Vocabulary of the properties *)

(** ** Vocabulary of the conversations *)

Module ChatSpec.
Import Firestore ChatService.

(** The conversation [createOrGetChat A B] settles on in a [chats]
    collection, if any. *)
Definition existing (A B : string) (collection : list (Doc ChatData))
  : option string :=
  scanExisting B (filter (λ d, A ∈ participants (data d)) collection).

(** The [messages] subcollections once [doc] is added under [chatId]. *)
Definition appended (chatId : string) (doc : Doc MessageData) (w : World)
  : gmap string (list (Doc MessageData)) :=
  <[chatId := insertDoc doc (messages w !!! chatId)]> (messages w).

(** The [chats] collection once [updateDoc] has written the last message. *)
Definition updated (chatId text : string) (time : Z)
    (collection : list (Doc ChatData)) : list (Doc ChatData) :=
  (λ d, if String.eqb (id d) chatId
        then mkDoc (id d)
               (mkChatData (participants (data d)) (participantNames (data d))
                           (Some text) (Some time) (createdAt (data d)))
        else d) <$> collection.

(** The element built by the [forEach] of [getChatMessages]. *)
Definition toChatMessage (chatId : string) (doc : Doc MessageData)
  : ChatMessage.t :=
  ChatMessage.mk (id doc) chatId (senderId (data doc)) (senderName (data doc))
                (text (data doc)) (timestamp (data doc)).

(** The order in which a collection lists its documents: by document id. *)
Definition idBefore {D : Type} (a b : Doc D) : Prop :=
  String.compare (id a) (id b) = Lt.

Definition inDocumentOrder {D : Type} (collection : list (Doc D)) : Prop :=
  StronglySorted idBefore collection.

(** Ascending by timestamp. *)
Definition notAfter (m1 m2 : ChatMessage.t) : Prop :=
  (ChatMessage.timestamp m1 ≤ ChatMessage.timestamp m2)%Z.

(** Ascending by timestamp, equal timestamps by document id. *)
Definition deliveredBefore (m1 m2 : ChatMessage.t) : Prop :=
  (ChatMessage.timestamp m1 < ChatMessage.timestamp m2)%Z
  ∨ (ChatMessage.timestamp m1 = ChatMessage.timestamp m2
     ∧ String.compare (ChatMessage.id m1) (ChatMessage.id m2) = Lt).

(** The same store, seen from a device whose clock reads [t]. *)
Definition atClock (t : Z) (w : World) : World :=
  mkWorld (chats w) (messages w) t (replies w).

End ChatSpec.

(** ** Vocabulary of the notification feed *)

Module NotificationSpec.
Import NotificationButton.

(** The body of the chats [forEach], for one document. *)
Definition ofChat (uid : string) (doc : Firestore.Doc Firestore.ChatData)
  : option Notification :=
  let data := Firestore.data doc in
  if Js.truthy Js.truthyString (Firestore.lastMessage data)
     && Js.truthy (λ _, true) (Firestore.lastMessageTime data)
  then
    Some (mkNotification
            ("message-" +:+ Firestore.id doc) Message
            ("Nova mensagem de " +:+
               Js.orElse Js.truthyString
                 (Firestore.participantNames data
                    !! propertyKey
                         (Js.find (λ p, negb (String.eqb p uid))
                                  (Firestore.participants data)))
                 "Usuário")
            (default "" (Firestore.lastMessage data))
            (default 0%Z (Firestore.lastMessageTime data))
            false (Some (ChatId (Firestore.id doc))))
  else None.

(** The body of the reviews [forEach], for one document. *)
Definition ofReview (doc : Firestore.Doc ReviewData) : Notification :=
  mkNotification
    ("review-" +:+ Firestore.id doc) Review
    ("Nova avaliação de " +:+ clientName (Firestore.data doc))
    (pretty (rating (Firestore.data doc)) +:+ " estrelas: " +:+
       comment (Firestore.data doc))
    (createdAt (Firestore.data doc))
    false (Some (ReviewId (Firestore.id doc))).

(** The events of one kind, and those of one kind and one source. *)
Definition eventsOf (kind : NotificationType) (feed : list Notification)
  : list Notification :=
  filter (λ n, type n = kind) feed.

Definition eventsFor (kind : NotificationType) (source : NotificationData)
    (feed : list Notification) : list Notification :=
  filter (λ n, type n = kind ∧ data n = Some source) feed.

(** What identifies the source of an event. *)
Definition key (n : Notification)
  : NotificationType * option NotificationData :=
  (type n, data n).

Definition OnePerSource (feed : list Notification) : Prop :=
  ∀ kind source, length (eventsFor kind source feed) ≤ 1.

(** [notifications.filter(n => !n.read).length], in the words of the
    specification: the number of events with [read = false]. *)
Definition countUnread (feed : list Notification) : nat :=
  length (filter (λ n, read n = false) feed).

(** What can happen to the component once its listeners are attached. *)
Inductive Action :=
| ChatsSnapshot (snapshot : list (Firestore.Doc Firestore.ChatData))
| ReviewsSnapshot (snapshot : list (Firestore.Doc ReviewData))
| MarkAsRead (notificationId : string)
| MarkAllAsRead.

Definition apply (uid : string) (a : Action) : State → State :=
  match a with
  | ChatsSnapshot snapshot => onChatsSnapshot uid snapshot
  | ReviewsSnapshot snapshot => onReviewsSnapshot snapshot
  | MarkAsRead notificationId => markAsRead notificationId
  | MarkAllAsRead => markAllAsRead
  end.

(** The documents of one snapshot have pairwise different ids. *)
Definition wellFormed (a : Action) : Prop :=
  match a with
  | ChatsSnapshot snapshot => NoDup (Firestore.id <$> snapshot)
  | ReviewsSnapshot snapshot => NoDup (Firestore.id <$> snapshot)
  | MarkAsRead _ | MarkAllAsRead => True
  end.

Definition run (uid : string) (actions : list Action) : State → State :=
  λ st, foldl (λ st a, apply uid a st) st actions.

(** The two queries carry [limit(10)] and [limit(5)]: a snapshot of the
    chats has at most ten documents, one of the reviews at most five. *)
Definition withinLimits (a : Action) : Prop :=
  match a with
  | ChatsSnapshot snapshot => length snapshot ≤ 10
  | ReviewsSnapshot snapshot => length snapshot ≤ 5
  | MarkAsRead _ | MarkAllAsRead => True
  end.

(** Most recent first. *)
Definition newestFirst (a b : Notification) : Prop :=
  (timestamp b ≤ timestamp a)%Z.

(** What the limits of the queries keep true of the feed. *)
Definition Bounded (feed : list Notification) : Prop :=
  length (eventsOf Message feed) ≤ 10
  ∧ length (eventsOf Review feed) ≤ 5
  ∧ length (eventsOf Service feed) = 0.

(** The ids the handlers give: the kind, a dash, the id of the document. *)
Definition WellNamed (n : Notification) : Prop :=
  (∃ c, id n = "message-" +:+ c ∧ key n = (Message, Some (ChatId c)))
  ∨ (∃ r, id n = "review-" +:+ r ∧ key n = (Review, Some (ReviewId r))).

End NotificationSpec.

(** ** Vocabulary of the case of letters *)

Module CaseSpec.
Import Stdlib.Strings.Ascii.

(** A text of Latin-1: every character is below U+0100, that is one byte
    below 80, or the byte C2 or C3 and one byte from 80 to BF. *)
Fixpoint latin1 (s : string) : bool :=
  match s with
  | EmptyString => true
  | String a s1 =>
      let n := nat_of_ascii a in
      if (n <? 128)%nat then latin1 s1
      else if (n =? 194)%nat || (n =? 195)%nat then
        match s1 with
        | EmptyString => false
        | String b s2 =>
            let m := nat_of_ascii b in
            (128 <=? m)%nat && (m <=? 191)%nat && latin1 s2
        end
      else false
  end.

(** The lower case of a letter from A to Z, and every other byte as it
    is. *)
Definition lowerUnit (c : ascii) : ascii :=
  let n := nat_of_ascii c in
  if (65 <=? n)%nat && (n <=? 90)%nat then ascii_of_nat (n + 32) else c.

(** The lower case of a text of Latin-1, as the Unicode tables give it: the
    letters A to Z and the letters U+00C0 to U+00DE but U+00D7 (the bytes C3
    80 to C3 9E but C3 97) become the letters 32 places further, and every
    other character is its own lower case. *)
Fixpoint lowerLatin1 (s : string) : string :=
  match s with
  | EmptyString => EmptyString
  | String a s1 =>
      if (nat_of_ascii a =? 195)%nat then
        match s1 with
        | EmptyString => s
        | String b s2 =>
            let m := nat_of_ascii b in
            String a
              (String (if (128 <=? m)%nat && (m <=? 158)%nat
                          && negb (m =? 151)%nat
                       then ascii_of_nat (m + 32) else b)
                      (lowerLatin1 s2))
        end
      else String (lowerUnit a) (lowerLatin1 s1)
  end.

(** A text of ASCII, and its lower case. *)
Fixpoint ascii (s : string) : bool :=
  match s with
  | EmptyString => true
  | String a s' => (nat_of_ascii a <? 128)%nat && ascii s'
  end.

Fixpoint lowerAscii (s : string) : string :=
  match s with
  | EmptyString => EmptyString
  | String a s' => String (lowerUnit a) (lowerAscii s')
  end.

(** Equal up to the case of the letters A to Z. *)
Definition equalIgnoringCase (s t : string) : Prop :=
  lowerAscii s = lowerAscii t.

(** The mapping is the one of the standard on the texts of Latin-1. *)
Definition onLatin1 (toLowerCase : string → string) : Prop :=
  ∀ s, latin1 s = true → toLowerCase s = lowerLatin1 s.

End CaseSpec.

(** ** Vocabulary of provider discovery *)

Module DiscoverySpec.

Section CaseMapping.
Variable toLowerCase : string → string.

(** A case-insensitive substring match: [needle], in lower case, occurs in
    [haystack], in lower case. *)
Definition substringCI (needle haystack : string) : Prop :=
  ∃ pre post, toLowerCase haystack = pre +:+ toLowerCase needle +:+ post.

(** The filters on the texts; an unset filter is the empty string and lets
    every provider through. *)
Definition matchesService (serviceFilter : string) (p : Provider.t) : Prop :=
  serviceFilter = "" ∨ substringCI serviceFilter (Provider.serviceType p).

Definition matchesFreeText (freeText : string) (p : Provider.t) : Prop :=
  freeText = ""
  ∨ substringCI freeText (Provider.displayName p)
  ∨ substringCI freeText (Provider.serviceType p).

End CaseMapping.

Definition matchesNeighborhood (neighborhoodFilter : string) (p : Provider.t)
  : Prop :=
  neighborhoodFilter = "" ∨ Provider.neighborhood p = neighborhoodFilter.

(** The radius filter: [(provider.distance || 0) <= searchRadius], applied
    when the location of the user is known. *)
Definition withinRadius (userLocation : option Location.t) (searchRadius : float)
    (p : Provider.t) : Prop :=
  userLocation = None
  ∨ (Js.orElse Js.truthyNumber (Provider.distance p) 0 <=? searchRadius)%float
    = true.

(** The body of the [forEach] of the list screen, for one document. *)
Definition ofUserHome
    (calculateDistance : float → float → float → float → float)
    (userLocation : option Location.t) (doc : Firestore.Doc UserDoc.t)
  : option Provider.t :=
  let data := Firestore.data doc in
  if negb (Js.truthy Js.truthyString (UserDoc.displayName data))
     || negb (Js.truthy Js.truthyString (UserDoc.serviceType data))
     || negb (Js.truthy Js.truthyString (UserDoc.neighborhood data))
  then None
  else
    let provider :=
      Provider.mk
        (UserDoc.uid data)
        (default "" (UserDoc.displayName data))
        (if Js.truthy Js.truthyString (UserDoc.photoURL data)
         then UserDoc.photoURL data else None)
        (default "" (UserDoc.serviceType data))
        (default "" (UserDoc.neighborhood data))
        (Js.orElse Js.truthyNumber (UserDoc.rating data) 0%float)
        (Js.orElse Js.truthyNumber (UserDoc.reviewCount data) 0%float)
        (Js.orElse Js.truthyString (UserDoc.status data) "disponivel")
        (Js.orElse Js.truthyNumber (UserDoc.latitude data) (-22.9068)%float)
        (Js.orElse Js.truthyNumber (UserDoc.longitude data) (-43.1729)%float)
        None in
    Some match userLocation with
         | Some loc =>
             Provider.setDistance
               (calculateDistance
                  (Location.latitude loc) (Location.longitude loc)
                  (Provider.latitude provider) (Provider.longitude provider))
               provider
         | None => provider
         end.

(** The body of the [forEach] of the map screen, for one document. *)
Definition ofUserMap
    (calculateDistance : float → float → float → float → float)
    (userLocation : option Location.t) (searchRadius : float)
    (doc : Firestore.Doc UserDoc.t) : option Provider.t :=
  let data := Firestore.data doc in
  if negb (Js.truthy Js.truthyString (UserDoc.displayName data))
     || negb (Js.truthy Js.truthyString (UserDoc.serviceType data))
     || negb (Js.truthy Js.truthyString (UserDoc.neighborhood data))
     || negb (Js.truthy Js.truthyNumber (UserDoc.latitude data))
     || negb (Js.truthy Js.truthyNumber (UserDoc.longitude data))
  then None
  else
    let provider :=
      Provider.mk
        (UserDoc.uid data)
        (default "" (UserDoc.displayName data))
        (if Js.truthy Js.truthyString (UserDoc.photoURL data)
         then UserDoc.photoURL data else None)
        (default "" (UserDoc.serviceType data))
        (default "" (UserDoc.neighborhood data))
        (Js.orElse Js.truthyNumber (UserDoc.rating data) 0%float)
        (Js.orElse Js.truthyNumber (UserDoc.reviewCount data) 0%float)
        (Js.orElse Js.truthyString (UserDoc.status data) "disponivel")
        (default 0%float (UserDoc.latitude data))
        (default 0%float (UserDoc.longitude data))
        None in
    match userLocation with
    | Some loc =>
        let distance :=
          calculateDistance
            (Location.latitude loc) (Location.longitude loc)
            (Provider.latitude provider) (Provider.longitude provider) in
        if (distance <=? searchRadius)%float
        then Some (Provider.setDistance distance provider)
        else None
    | None => Some provider
    end.

End DiscoverySpec.

(** ** Vocabulary of texts *)

Module TextSpec.
Import JsString.

(** Pieces that satisfy [P], one after the other. *)
Inductive runOf (P : string → Prop) : string → Prop :=
| runOf_empty : runOf P ""
| runOf_more (w s : string) : P w → runOf P s → runOf P (w +:+ s).

(** Nothing but white space. *)
Definition blank (s : string) : Prop := runOf (λ w, w ∈ whiteSpace) s.

(** No white space at either end. *)
Definition trimmed (t : string) : Prop :=
  ∀ w, w ∈ whiteSpace → (∀ t', t ≠ w +:+ t') ∧ (∀ t', t ≠ t' +:+ w).

(** Nothing but digits. *)
Fixpoint allDigits (s : string) : bool :=
  match s with
  | EmptyString => true
  | String c s' => isDigit c && allDigits s'
  end.

(** What the groups of a match are: runs of digits of the given sizes. *)
Definition groupsOf (sizes : list nat) (groups : list string) : Prop :=
  Forall2 (λ n group, allDigits group = true ∧ String.length group = n)
          sizes groups.

End TextSpec.

(** ** Vocabulary of the review dialog *)

Module ReviewSpec.
Import ReviewModal.

(** What the user can do with the dialog: press one of the stars drawn,
    type a comment, submit, with the outcome of [addReview], and close. *)
Inductive Action :=
| PressStar (index : nat)
| TypeComment (text : string)
| Submit (addReview : bool)
| Close.

(** The calls of [addReview] made and the state left. *)
Definition apply (props : Props) (a : Action) (st : State)
  : list AddReview * State :=
  match a with
  | PressStar index =>
      ([], match renderStars !! index with
           | Some onPress => onPress st
           | None => st
           end)
  | TypeComment text => ([], setComment text st)
  | Submit addReview =>
      let out := handleSubmit props addReview st in
      (option_list (call out), state out)
  | Close => ([], handleClose st)
  end.

Definition run (props : Props) (actions : list Action) (st : State)
  : list AddReview * State :=
  foldl (λ acc a, let '(calls, st) := acc in
                  let '(calls', st') := apply props a st in
                  (calls ++ calls', st'))
        ([], st) actions.

(** What every call of [addReview] made by the dialog satisfies. *)
Definition Submitted (props : Props) (c : AddReview) : Prop :=
  (1 ≤ reviewRating c ≤ 5)%Z
  ∧ reviewComment c ≠ "" ∧ TextSpec.trimmed (reviewComment c)
  ∧ reviewProviderId c = providerUid props
  ∧ reviewClientId c = clientId props
  ∧ reviewClientName c = clientName props.

End ReviewSpec.

(** ** Vocabulary of the access rules *)

Module RulesSpec.
Import Document Rules.

(** A conversation as the backend stores it. *)
Definition encodeChat (c : Firestore.ChatData) : Data :=
  let fields : Data :=
    <["participants" := VList (VString <$> Firestore.participants c)]>
      (<["participantNames" :=
           VMap (prod_map id VString
                   <$> map_to_list (Firestore.participantNames c))]>
         (<["createdAt" := VTimestamp (Firestore.createdAt c)]> ∅)) in
  let fields :=
    match Firestore.lastMessage c with
    | Some text => <["lastMessage" := VString text]> fields
    | None => fields
    end in
  match Firestore.lastMessageTime c with
  | Some time => <["lastMessageTime" := VTimestamp time]> fields
  | None => fields
  end.

(** What [get(/databases/.../chats/chatId)] answers in a store. *)
Definition getChat (w : Firestore.World) (chatId : string) : option Data :=
  (λ d, encodeChat (Firestore.data d))
    <$> List.find (λ d, String.eqb (Firestore.id d) chatId)
                  (Firestore.chats w).

(** The [where] clauses of the query of providers, the same on the list
    screen and on the map screen: [userType == 'prestador'] and
    [isProfileComplete == true]. *)
Definition providersQuery (data : Data) : Prop :=
  data !! "userType" = Some (VString "prestador")
  ∧ data !! "isProfileComplete" = Some (VBool true).

End RulesSpec.

(** ** Vocabulary of the listings *)

Module ListingSpec.

(** A record with a name, a service and a neighbourhood: what both screens
    require of a record. *)
Definition required (doc : Firestore.Doc UserDoc.t) : bool :=
  Js.truthy Js.truthyString (UserDoc.displayName (Firestore.data doc))
  && Js.truthy Js.truthyString (UserDoc.serviceType (Firestore.data doc))
  && Js.truthy Js.truthyString (UserDoc.neighborhood (Firestore.data doc)).

(** A record with a latitude and a longitude that are numbers other than
    zero: what the map screen requires in addition. *)
Definition located (doc : Firestore.Doc UserDoc.t) : bool :=
  Js.truthy Js.truthyNumber (UserDoc.latitude (Firestore.data doc))
  && Js.truthy Js.truthyNumber (UserDoc.longitude (Firestore.data doc)).

(** The four tests of [filterProviders] on one provider. *)
Definition shown (toLowerCase : string → string) (st : HomeScreen.State)
    (p : Provider.t) : bool :=
  (negb (Js.truthyString (HomeScreen.selectedService st))
   || Js.includes (toLowerCase (Provider.serviceType p))
                  (toLowerCase (HomeScreen.selectedService st)))
  && (negb (Js.truthyString (HomeScreen.selectedNeighborhood st))
      || bool_decide (Provider.neighborhood p
                      = HomeScreen.selectedNeighborhood st))
  && (negb (Js.truthyString (HomeScreen.searchText st))
      || Js.includes (toLowerCase (Provider.displayName p))
                     (toLowerCase (HomeScreen.searchText st))
      || Js.includes (toLowerCase (Provider.serviceType p))
                     (toLowerCase (HomeScreen.searchText st)))
  && match HomeScreen.userLocation st with
     | Some _ =>
         (Js.orElse Js.truthyNumber (Provider.distance p) 0
          <=? HomeScreen.searchRadius st)%float
     | None => true
     end.

End ListingSpec.

(** ** Vocabulary of the profiles *)

Module ProfileSpec.
Import Document.

Definition asText (v : option Value) : option string :=
  match v with
  | Some (VString s) => Some s
  | _ => None
  end.

Definition asNumber (v : option Value) : option float :=
  match v with
  | Some (VNumber x) => Some x
  | _ => None
  end.

(** The record is what the two screens read of the stored document. *)
Definition Reads (data : Data) (u : UserDoc.t) : Prop :=
  UserDoc.uid u = asText (data !! "uid")
  ∧ UserDoc.displayName u = asText (data !! "displayName")
  ∧ UserDoc.photoURL u = asText (data !! "photoURL")
  ∧ UserDoc.serviceType u = asText (data !! "serviceType")
  ∧ UserDoc.neighborhood u = asText (data !! "neighborhood")
  ∧ UserDoc.rating u = asNumber (data !! "rating")
  ∧ UserDoc.reviewCount u = asNumber (data !! "reviewCount")
  ∧ UserDoc.status u = asText (data !! "status")
  ∧ UserDoc.latitude u = asNumber (data !! "latitude")
  ∧ UserDoc.longitude u = asNumber (data !! "longitude").

End ProfileSpec.

(** * Scenarios *)

Module Scenarios.
Import Firestore.

(** The review listener fires twice for the review [r1], first with four
    stars and then with five, on a feed that already holds a message event
    marked as read. *)
Definition review_r1_first : Doc NotificationButton.ReviewData :=
  mkDoc "r1" (NotificationButton.mkReviewData "Ana" 4 "bom" 10).

Definition review_r1_second : Doc NotificationButton.ReviewData :=
  mkDoc "r1" (NotificationButton.mkReviewData "Ana" 5 "muito bom" 20).

Definition chat_c1 : Doc ChatData :=
  mkDoc "c1"
    (mkChatData ["u1"; "u2"] (<["u2" := "Bia"]> ∅)
                          (Some "oi") (Some 5%Z) 1).

(** The store answers three requests and draws the id [c1] for the new
    conversation between [u1] and [u2]. *)
Definition world_empty : World :=
  mkWorld [] ∅ 100
          [mkReply true 3 "q1"; mkReply true 4 "c1"; mkReply true 5 "q2"].

(** The conversation [c1] exists; the first write of [sendMessage] is
    answered, the second one is rejected. *)
Definition world_c1_failing : World :=
  mkWorld [mkDoc "c1" (mkChatData ["u1"; "u2"] ∅ (Some "") (Some 90%Z) 90)]
          ∅ 100
          [mkReply true 3 "m1"; mkReply false 4 ""].

(** [u1] sends [a] when the clock of their device reads 1000; the two writes
    take 40 and 35 milliseconds.  Then [u2], whose device is 75 milliseconds
    behind, sends [b].  The store draws the ids [m2] and [m1]. *)
Definition world_c1 : World :=
  mkWorld [mkDoc "c1" (mkChatData ["u1"; "u2"] ∅ (Some "") (Some 90%Z) 90)]
          ∅ 1000
          [mkReply true 40 "m2"; mkReply true 35 "";
           mkReply true 40 "m1"; mkReply true 35 ""].

(** Rio de Janeiro, the position of the specification's example. *)
Definition rio : Location.t := Location.mk (-22.9068) (-43.1729).

(** A record with the required texts and no coordinate, and the provider
    that the list screen builds from it while the location of the user is
    not yet known, as in the call made when the screen mounts. *)
Definition user_no_coordinate : Doc UserDoc.t :=
  mkDoc "p1"
    (UserDoc.mk (Some "p1") (Some "Carlos") None (Some "Encanador")
                (Some "Centro") None None None None None).

Definition provider_no_coordinate : Provider.t :=
  Provider.mk (Some "p1") "Carlos" None "Encanador" "Centro" 0 0 "disponivel"
              (-22.9068) (-43.1729) None.

(** A record in São Paulo, some 360 km from Rio de Janeiro, and the provider
    built from it in the same way. *)
Definition user_sao_paulo : Doc UserDoc.t :=
  mkDoc "p3"
    (UserDoc.mk (Some "p3") (Some "Edu") None (Some "Pintor")
                (Some "Pinheiros") None None None (Some (-23.5505)%float)
                (Some (-46.6333)%float)).

Definition provider_sao_paulo : Provider.t :=
  Provider.mk (Some "p3") "Edu" None "Pintor" "Pinheiros" 0 0 "disponivel"
              (-23.5505) (-46.6333) None.

(** A record with a latitude and no longitude. *)
Definition user_latitude_only : Doc UserDoc.t :=
  mkDoc "p4"
    (UserDoc.mk (Some "p4") (Some "Davi") None (Some "Pedreiro")
                (Some "Lapa") None None None (Some 10%float) None).

(** A provider 3.7 km away and a stand-in for the distance service that
    answers 3.7 km for every pair of positions. *)
Definition provider_near : Provider.t :=
  Provider.mk (Some "p2") "Dora" None "Eletricista" "Tijuca" 0 0 "disponivel"
              (-22.9035) (-43.2096) (Some 3.7%float).

Definition distance_example : float → float → float → float → float :=
  λ _ _ _ _, 3.7%float.

(** Another stand-in for the distance service: the distance on a flat map,
    at 111 km to the degree. *)
Definition distance_flat : float → float → float → float → float :=
  λ lat1 lon1 lat2 lon2,
    (111 * PrimFloat.sqrt ((lat2 - lat1) * (lat2 - lat1)
                           + (lon2 - lon1) * (lon2 - lon1)))%float.

(** The store answers four requests: the query and the creation of
    [createOrGetChat], then the two writes of [sendMessage]. *)
Definition world_four_answers : World :=
  mkWorld [] ∅ 100
          [mkReply true 3 "q1"; mkReply true 4 "c1";
           mkReply true 5 "m1"; mkReply true 6 ""].

End Scenarios.

(** * Properties *)

(** ** The stable sort *)

Section SortFacts.
Context {A : Type} (before : A → A → bool).

Lemma place_Permutation (x : A) (l : list A) :
  Js.place before x l ≡ₚ x :: l.
Proof.
  induction l as [|y ys IH]; simpl; [done|].
  destruct (before y x); [|done].
  rewrite IH. apply Permutation_swap.
Qed.

Lemma sort_Permutation (l : list A) : Js.sort before l ≡ₚ l.
Proof.
  induction l as [|x l IH]; [done|].
  change (Js.sort before (x :: l)) with (Js.place before x (Js.sort before l)).
  by rewrite place_Permutation, IH.
Qed.

Lemma elem_of_sort (x : A) (l : list A) : x ∈ Js.sort before l ↔ x ∈ l.
Proof. by rewrite sort_Permutation. Qed.

Lemma length_sort (l : list A) : length (Js.sort before l) = length l.
Proof. by rewrite sort_Permutation. Qed.

(** Placing an element keeps a list sorted for every transitive relation
    that agrees with the comparator on the element and the list. *)
Lemma place_StronglySorted (R : relation A) `{!Transitive R} x l :
  StronglySorted R l →
  (∀ y, y ∈ l → before y x = true → R y x) →
  (∀ y, y ∈ l → before y x = false → R x y) →
  StronglySorted R (Js.place before x l).
Proof.
  induction 1 as [|y ys Hys IH Hy]; simpl; intros Hlt Hge.
  - by repeat constructor.
  - destruct (before y x) eqn:Hyx.
    + constructor.
      * apply IH; intros z Hz; [apply Hlt|apply Hge]; by right.
      * rewrite place_Permutation.
        constructor; [|done]. apply Hlt; [by left|done].
    + assert (R x y) as Hxy by (apply Hge; [by left|done]).
      constructor; [by constructor|].
      constructor; [done|].
      eapply Forall_impl; [exact Hy|]. intros z Hz. by trans y.
Qed.

Lemma sort_StronglySorted (R : relation A) `{!Transitive R} (l : list A) :
  (∀ x y, before y x = true → R y x) →
  (∀ x y, before y x = false → R x y) →
  StronglySorted R (Js.sort before l).
Proof.
  intros Hlt Hge. induction l as [|x l IH]; [constructor|].
  apply place_StronglySorted; auto.
Qed.

(** Stability: elements that the comparator never puts one before the
    other keep their relative order. *)
Lemma filter_place (P : A → Prop) `{!∀ x, Decision (P x)} x l :
  (∀ y z, before y z = true → P y → P z → False) →
  filter P (Js.place before x l) = filter P (x :: l).
Proof.
  intros Hsep. induction l as [|y ys IH]; simpl; [done|].
  destruct (before y x) eqn:Hyx; [|done].
  destruct (decide (P x)) as [Hx|Hx].
  - assert (¬ P y) as Hy by (intros Hy; by eapply Hsep).
    rewrite (filter_cons_False _ y), IH by done.
    by rewrite !(filter_cons_True _ x), (filter_cons_False _ y).
  - rewrite (filter_cons_False _ x) by done.
    destruct (decide (P y)) as [Hy|Hy].
    + by rewrite !(filter_cons_True _ y), IH, (filter_cons_False _ x).
    + by rewrite !(filter_cons_False _ y), IH, (filter_cons_False _ x).
Qed.

Lemma filter_sort (P : A → Prop) `{!∀ x, Decision (P x)} l :
  (∀ y z, before y z = true → P y → P z → False) →
  filter P (Js.sort before l) = filter P l.
Proof.
  intros Hsep. induction l as [|x l IH]; [done|].
  change (Js.sort before (x :: l)) with (Js.place before x (Js.sort before l)).
  rewrite filter_place by done.
  destruct (decide (P x)).
  - by rewrite !(filter_cons_True _ x), IH.
  - by rewrite !(filter_cons_False _ x), IH.
Qed.

(** In a sorted list an element that is not above another one comes
    before it. *)
Lemma StronglySorted_before (R : relation A) (l : list A) (a b : A) :
  StronglySorted R l → a ∈ l → b ∈ l → ¬ R b a → R a a ∨ a ≠ b →
  ∃ l1 l2 l3, l = l1 ++ a :: l2 ++ b :: l3.
Proof.
  intros Hl (l1 & l' & ->)%list_elem_of_split Hb Hba Hab.
  apply elem_of_app in Hb as [Hb|Hb].
  - exfalso. apply Hba.
    eapply (StronglySorted_app_1_elem_of R l1 (a :: l')); [done..|].
    apply elem_of_cons. by left.
  - apply elem_of_cons in Hb as [->|Hb].
    + destruct Hab; done.
    + apply list_elem_of_split in Hb as (l2 & l3 & ->). eauto.
Qed.

End SortFacts.

(** ** Filters *)

Section FilterFacts.
Context {A : Type} (P : A → Prop) `{!∀ x, Decision (P x)}.

Lemma filter_all (l : list A) : Forall P l → filter P l = l.
Proof.
  induction 1 as [|x l Hx _ IH]; [done|].
  by rewrite filter_cons_True, IH.
Qed.

Lemma filter_none (l : list A) : Forall (λ x, ¬ P x) l → filter P l = [].
Proof.
  induction 1 as [|x l Hx _ IH]; [done|].
  by rewrite filter_cons_False.
Qed.

End FilterFacts.

(** ** Loops that push onto an array *)

Lemma foldl_push_omap {A B : Type} (f : A → option B)
    (step : list B → A → list B) :
  (∀ acc x, step acc x = match f x with
                         | Some y => acc ++ [y]
                         | None => acc
                         end) →
  ∀ l acc, foldl step acc l = acc ++ omap f l.
Proof.
  intros Hstep l. induction l as [|x l IH]; intros acc; simpl.
  - by rewrite app_nil_r.
  - rewrite IH, Hstep. destruct (f x); [|done].
    by rewrite <- app_assoc.
Qed.

Lemma foldl_push_fmap {A B : Type} (f : A → B) (l : list A) (acc : list B) :
  foldl (λ acc x, acc ++ [f x]) acc l = acc ++ (f <$> l).
Proof.
  revert acc. induction l as [|x l IH]; intros acc; simpl.
  - by rewrite app_nil_r.
  - by rewrite IH, <- app_assoc.
Qed.

(** ** The notification feed *)

Section NotificationFacts.
Import NotificationButton NotificationSpec Scenarios.

Lemma messageNotifications_omap uid snapshot :
  messageNotifications uid snapshot = omap (ofChat uid) snapshot.
Proof.
  unfold messageNotifications.
  rewrite (foldl_push_omap (ofChat uid)); [done|].
  intros acc doc. unfold ofChat.
  by destruct (_ && _).
Qed.

Lemma reviewNotifications_fmap snapshot :
  reviewNotifications snapshot = ofReview <$> snapshot.
Proof. unfold reviewNotifications. by rewrite foldl_push_fmap. Qed.

Lemma unreadCount_setNotifications update st :
  unreadCount (setNotifications update st)
  = countUnread (notifications (setNotifications update st)).
Proof.
  unfold setNotifications, countUnread; simpl. f_equal.
  apply list_filter_iff. intros n. by destruct (read n).
Qed.

Lemma apply_setNotifications uid a st :
  ∃ update, apply uid a st = setNotifications update st.
Proof. destruct a; simpl; eauto. Qed.

(** C8: [markAllAsRead] leaves a state whose [unreadCount] is 0 and in which
    every event is read; after every change of the feed (a snapshot of either
    source, [markAsRead], [markAllAsRead]) [unreadCount] is the number of
    events with [read = false]. *)
Theorem markAllAsRead_unreadCount_zero :
  ∀ (uid : string) (st : State),
    unreadCount (markAllAsRead st) = 0
    ∧ Forall (λ n, read n = true) (notifications (markAllAsRead st))
    ∧ ∀ a, unreadCount (apply uid a st)
           = countUnread (notifications (apply uid a st)).
Proof.
  intros uid st.
  assert (Forall (λ n, read n = true) (notifications (markAllAsRead st)))
    as Hread.
  { simpl. apply Forall_fmap, Forall_true. done. }
  split_and!; [|done|].
  - unfold markAllAsRead in *. rewrite unreadCount_setNotifications.
    unfold countUnread. rewrite filter_none; [done|].
    eapply Forall_impl; [exact Hread|]. intros n ->. done.
  - intros a. destruct (apply_setNotifications uid a st) as [update ->].
    apply unreadCount_setNotifications.
Qed.

(** C10: [markAsRead id] keeps the length and the order of the feed; at
    every position the event keeps its id, type, title, message, timestamp
    and data; its [read] flag becomes [true] when its id is the argument and
    is kept otherwise, so every other event is unchanged; when no event has
    that id the whole feed is unchanged. *)
Theorem markAsRead_frame :
  ∀ (notificationId : string) (st : State),
    length (notifications (markAsRead notificationId st))
    = length (notifications st)
    ∧ (∀ i n,
         notifications st !! i = Some n →
         ∃ n',
           notifications (markAsRead notificationId st) !! i = Some n'
           ∧ id n' = id n ∧ type n' = type n ∧ title n' = title n
           ∧ message n' = message n ∧ timestamp n' = timestamp n
           ∧ data n' = data n
           ∧ read n' = (if decide (id n = notificationId)
                        then true else read n)
           ∧ (id n ≠ notificationId → n' = n))
    ∧ ((∀ n, n ∈ notifications st → id n ≠ notificationId) →
       notifications (markAsRead notificationId st) = notifications st)
    ∧ showModal (markAsRead notificationId st) = showModal st.
Proof.
  intros nid st. simpl. split_and!; [| | |done].
  - by rewrite length_fmap.
  - intros i n Hi. rewrite list_lookup_fmap, Hi. simpl.
    eexists; split; [done|].
    destruct (String.eqb_spec (id n) nid) as [Heq|Hne].
    + rewrite decide_True by done. by destruct n.
    + rewrite decide_False by done. done.
  - intros Hnone. rewrite <- (list_fmap_id (notifications st)) at 2.
    apply list_fmap_ext. intros i n Hi.
    destruct (String.eqb_spec (id n) nid) as [Heq|Hne]; [|done].
    exfalso. eapply Hnone; [|done]. by eapply list_elem_of_lookup_2.
Qed.

(** *** Wholesale replacement *)

Lemma notifications_onReviewsSnapshot snapshot st :
  notifications (onReviewsSnapshot snapshot st)
  ≡ₚ (ofReview <$> snapshot)
     ++ filter (λ n, type n ≠ Review) (notifications st).
Proof. simpl. by rewrite sort_Permutation, reviewNotifications_fmap. Qed.

Lemma notifications_onChatsSnapshot uid snapshot st :
  notifications (onChatsSnapshot uid snapshot st)
  ≡ₚ omap (ofChat uid) snapshot
     ++ filter (λ n, type n ≠ Message) (notifications st).
Proof. simpl. by rewrite sort_Permutation, messageNotifications_omap. Qed.

Lemma type_ofChat uid doc n : ofChat uid doc = Some n → type n = Message.
Proof. unfold ofChat. destruct (_ && _); [|done]. by intros [= <-]. Qed.

Lemma key_ofChat uid doc n :
  ofChat uid doc = Some n → key n = (Message, Some (ChatId (Firestore.id doc))).
Proof. unfold ofChat. destruct (_ && _); [|done]. by intros [= <-]. Qed.

Lemma Forall_type_ofChat uid snapshot :
  Forall (λ n, type n = Message) (omap (ofChat uid) snapshot).
Proof.
  apply Forall_forall. intros n (doc & _ & Hn)%list_elem_of_omap.
  by eapply type_ofChat.
Qed.

Lemma Forall_type_ofReview snapshot :
  Forall (λ n, type n = Review) (ofReview <$> snapshot).
Proof. apply Forall_fmap, Forall_true. done. Qed.

(** A handler replaces the events of its kind by the fresh ones and keeps
    the events of every other kind. *)
Lemma eventsOf_replaced kind fresh prev feed :
  feed ≡ₚ fresh ++ filter (λ n, type n ≠ kind) prev →
  Forall (λ n, type n = kind) fresh →
  eventsOf kind feed ≡ₚ fresh
  ∧ ∀ kind', kind' ≠ kind → eventsOf kind' feed ≡ₚ eventsOf kind' prev.
Proof.
  intros Hfeed Hfresh. unfold eventsOf. split.
  - rewrite Hfeed, filter_app, (filter_all _ fresh) by done.
    rewrite filter_none; [by rewrite app_nil_r|].
    apply Forall_forall. by intros n [? _]%list_elem_of_filter.
  - intros kind' Hne.
    rewrite Hfeed, filter_app, (filter_none _ fresh).
    + simpl. rewrite list_filter_filter_l; [done|]. by intros n ->.
    + eapply Forall_impl; [exact Hfresh|]. simpl. by intros n -> ?.
Qed.

(** *** One event for each source *)

Lemma filter_key_unique {A B : Type} `{!EqDecision B} (f : A → B) (y : B)
    (l : list A) :
  NoDup (f <$> l) → length (filter (λ x, f x = y) l) ≤ 1.
Proof.
  induction l as [|x l IH]; simpl; [lia|].
  intros [Hx Hl]%NoDup_cons. destruct (decide (f x = y)) as [<-|Hne].
  - rewrite filter_cons_True by done. rewrite filter_none; [simpl; lia|].
    apply Forall_forall. intros x' Hx' Heq. apply Hx.
    rewrite <- Heq. by apply list_elem_of_fmap_2.
  - rewrite filter_cons_False by done. auto.
Qed.

Lemma filter_id_unique {D : Type} (doc : Firestore.Doc D)
    (snapshot : list (Firestore.Doc D)) :
  NoDup (Firestore.id <$> snapshot) → doc ∈ snapshot →
  filter (λ d, Firestore.id d = Firestore.id doc) snapshot = [doc].
Proof.
  induction snapshot as [|x l IH]; simpl; [by intros _ ?%elem_of_nil|].
  intros [Hx Hl]%NoDup_cons [->|Hin]%elem_of_cons.
  - rewrite filter_cons_True by done. rewrite filter_none; [done|].
    apply Forall_forall. intros x' Hx' Heq. apply Hx.
    rewrite <- Heq. by apply list_elem_of_fmap_2.
  - rewrite filter_cons_False; [auto|].
    intros Heq. apply Hx. rewrite Heq. by apply list_elem_of_fmap_2.
Qed.

Lemma OnePerSource_NoDup feed : NoDup (key <$> feed) → OnePerSource feed.
Proof.
  intros Hnd kind source. unfold eventsFor.
  rewrite (list_filter_iff _ (λ n, key n = (kind, Some source))).
  - by apply filter_key_unique.
  - intros n. unfold key. split; [by intros [-> ->]|by intros [= -> ->]].
Qed.

Lemma NoDup_key_filter (P : Notification → Prop) `{!∀ n, Decision (P n)}
    feed :
  NoDup (key <$> feed) → NoDup (key <$> filter P feed).
Proof.
  intros Hnd. eapply sublist_NoDup; [exact Hnd|].
  apply fmap_sublist, sublist_filter.
Qed.

Lemma NoDup_key_ofReview snapshot :
  NoDup (Firestore.id <$> snapshot) → NoDup (key <$> (ofReview <$> snapshot)).
Proof.
  intros Hnd. rewrite <- list_fmap_compose.
  change (key ∘ ofReview)
    with ((λ i, (Review, Some (ReviewId i))) ∘ @Firestore.id ReviewData).
  rewrite list_fmap_compose. apply NoDup_fmap_2; [|done].
  by intros i j [= ->].
Qed.

Lemma NoDup_key_ofChat uid snapshot :
  NoDup (Firestore.id <$> snapshot) →
  NoDup (key <$> omap (ofChat uid) snapshot).
Proof.
  induction snapshot as [|doc l IH]; simpl; [constructor|].
  intros [Hdoc Hl]%NoDup_cons.
  destruct (ofChat uid doc) as [n|] eqn:Hn; [|auto].
  simpl. apply NoDup_cons. split; [|auto].
  rewrite (key_ofChat _ _ _ Hn).
  intros (n' & Hkey & (doc' & Hin & Hn')%list_elem_of_omap)%list_elem_of_fmap.
  rewrite (key_ofChat _ _ _ Hn') in Hkey. injection Hkey as Heq.
  apply Hdoc. rewrite Heq. by apply list_elem_of_fmap_2.
Qed.

Lemma NoDup_key_replaced kind fresh prev feed :
  feed ≡ₚ fresh ++ filter (λ n, type n ≠ kind) prev →
  Forall (λ n, type n = kind) fresh →
  NoDup (key <$> fresh) → NoDup (key <$> prev) → NoDup (key <$> feed).
Proof.
  intros -> Hfresh Hnd Hprev. rewrite fmap_app. apply NoDup_app.
  split_and!; [done| |by apply NoDup_key_filter].
  intros k (n & -> & Hn)%list_elem_of_fmap
           (n' & Hk & [Hty _]%list_elem_of_filter)%list_elem_of_fmap.
  rewrite Forall_forall in Hfresh. apply Hty.
  rewrite <- (Hfresh n Hn). by injection Hk as <- _.
Qed.

Lemma NoDup_key_apply uid a st :
  wellFormed a → NoDup (key <$> notifications st) →
  NoDup (key <$> notifications (apply uid a st)).
Proof.
  intros Hwf Hst. destruct a as [snapshot|snapshot|nid|].
  - eapply NoDup_key_replaced;
      [apply notifications_onChatsSnapshot|apply Forall_type_ofChat
      |by apply NoDup_key_ofChat|done].
  - eapply NoDup_key_replaced;
      [apply notifications_onReviewsSnapshot|apply Forall_type_ofReview
      |by apply NoDup_key_ofReview|done].
  - simpl. rewrite <- list_fmap_compose.
    erewrite list_fmap_ext; [exact Hst|].
    intros i n _. simpl. by destruct (String.eqb _ _).
  - simpl. by rewrite <- list_fmap_compose.
Qed.

Lemma NoDup_key_run uid actions st :
  Forall wellFormed actions → NoDup (key <$> notifications st) →
  NoDup (key <$> notifications (run uid actions st)).
Proof.
  intros Hwf. revert st. unfold run.
  induction Hwf as [|a actions Ha _ IH]; intros st Hst; simpl; [done|].
  by apply IH, NoDup_key_apply.
Qed.

Lemma eventsFor_ofReview rid snapshot :
  eventsFor Review (ReviewId rid) (ofReview <$> snapshot)
  = ofReview <$> filter (λ d, Firestore.id d = rid) snapshot.
Proof.
  unfold eventsFor. induction snapshot as [|d l IH]; [done|].
  rewrite fmap_cons. destruct (decide (Firestore.id d = rid)) as [Heq|Hne].
  - rewrite !filter_cons_True; [by rewrite fmap_cons, IH|done|].
    simpl. by rewrite Heq.
  - rewrite !filter_cons_False; [done|done|].
    simpl. by intros [_ [= ?]].
Qed.

Lemma eventsFor_onReviewsSnapshot rid snapshot st :
  eventsFor Review (ReviewId rid)
            (notifications (onReviewsSnapshot snapshot st))
  ≡ₚ ofReview <$> filter (λ d, Firestore.id d = rid) snapshot.
Proof.
  rewrite <- eventsFor_ofReview. unfold eventsFor at 1.
  rewrite notifications_onReviewsSnapshot, filter_app.
  rewrite (filter_none _ (filter _ _)); [by rewrite app_nil_r|].
  apply Forall_forall. by intros n [? _]%list_elem_of_filter [? _].
Qed.

(** C2: in every feed reached from the empty one through snapshots with
    pairwise different document ids, [markAsRead] and [markAllAsRead], no
    (kind, source) has more than one event.  A reviews snapshot replaces all
    the Review events by one event for each review of the snapshot, built
    from that review, and keeps the events of the other kinds; likewise a
    chats snapshot for the Message events.  So after two successive reviews
    snapshots the feed holds, for a review of the second snapshot, exactly
    one event: the unread one with the name, the stars, the comment and the
    date that the second snapshot gives for it; and it holds no event for a
    review id that the second snapshot does not list. *)
Theorem feed_one_event_per_source :
  ∀ (uid : string) (actions : list Action)
    (reviews1 reviews2 : list (Firestore.Doc ReviewData)),
    Forall wellFormed actions →
    NoDup (Firestore.id <$> reviews1) →
    NoDup (Firestore.id <$> reviews2) →
    let st := run uid actions initialState in
    let st2 := onReviewsSnapshot reviews2 (onReviewsSnapshot reviews1 st) in
    OnePerSource (notifications st)
    ∧ OnePerSource (notifications st2)
    ∧ eventsOf Review (notifications st2) ≡ₚ ofReview <$> reviews2
    ∧ (∀ kind, kind ≠ Review →
         eventsOf kind (notifications st2) ≡ₚ eventsOf kind (notifications st))
    ∧ (∀ doc, doc ∈ reviews2 →
         eventsFor Review (ReviewId (Firestore.id doc)) (notifications st2)
         = [mkNotification
              ("review-" +:+ Firestore.id doc) Review
              ("Nova avaliação de " +:+ clientName (Firestore.data doc))
              (pretty (rating (Firestore.data doc)) +:+ " estrelas: " +:+
                 comment (Firestore.data doc))
              (createdAt (Firestore.data doc))
              false (Some (ReviewId (Firestore.id doc)))])
    ∧ (∀ reviewId, reviewId ∉ Firestore.id <$> reviews2 →
         eventsFor Review (ReviewId reviewId) (notifications st2) = [])
    ∧ (∀ chatsSnapshot,
         eventsOf Message
                  (notifications (onChatsSnapshot uid chatsSnapshot st))
         ≡ₚ omap (ofChat uid) chatsSnapshot
         ∧ ∀ kind, kind ≠ Message →
             eventsOf kind
                      (notifications (onChatsSnapshot uid chatsSnapshot st))
             ≡ₚ eventsOf kind (notifications st)).
Proof.
  intros uid actions reviews1 reviews2 Hwf Hnd1 Hnd2 st st2.
  assert (NoDup (key <$> notifications st)) as Hst.
  { apply NoDup_key_run; [done|]. simpl. constructor. }
  assert (NoDup (key <$> notifications st2)) as Hst2.
  { apply (NoDup_key_run uid [ReviewsSnapshot reviews1;
                                ReviewsSnapshot reviews2] st); [|done].
    by repeat constructor. }
  subst st2. split_and!.
  - by apply OnePerSource_NoDup.
  - by apply OnePerSource_NoDup.
  - eapply eventsOf_replaced;
      [apply notifications_onReviewsSnapshot|apply Forall_type_ofReview].
  - intros kind Hkind. etrans.
    + eapply eventsOf_replaced;
        [apply notifications_onReviewsSnapshot|apply Forall_type_ofReview
        |done].
    + eapply eventsOf_replaced;
        [apply notifications_onReviewsSnapshot|apply Forall_type_ofReview
        |done].
  - intros doc Hdoc. apply Permutation_singleton_r.
    rewrite eventsFor_onReviewsSnapshot.
    by rewrite filter_id_unique.
  - intros rid Hrid. apply Permutation_nil_r.
    rewrite eventsFor_onReviewsSnapshot, filter_none; [done|].
    apply Forall_forall. intros d Hd <-. apply Hrid.
    by apply list_elem_of_fmap_2.
  - intros chatsSnapshot.
    eapply eventsOf_replaced;
      [apply notifications_onChatsSnapshot|apply Forall_type_ofChat].
Qed.

Lemma feed_one_event_per_source_witness :
  eventsFor Review (ReviewId "r1")
    (notifications
       (onReviewsSnapshot [review_r1_second]
          (onReviewsSnapshot [review_r1_first]
             (run "u1" [ChatsSnapshot [chat_c1]; MarkAllAsRead]
                  initialState))))
  = [mkNotification "review-r1" Review "Nova avaliação de Ana"
                    "5 estrelas: muito bom" 20 false (Some (ReviewId "r1"))].
Proof.
  refine (proj1 (proj2 (proj2 (proj2 (proj2
            (feed_one_event_per_source "u1"
               [ChatsSnapshot [chat_c1]; MarkAllAsRead]
               [review_r1_first] [review_r1_second] _ _ _)))))
            review_r1_second _).
  - constructor; [apply NoDup_singleton|].
    constructor; [exact I|constructor].
  - apply NoDup_singleton.
  - apply NoDup_singleton.
  - apply list_elem_of_singleton. reflexivity.
Defined.

Example feed_after_two_reviews :
  notifications
    (onReviewsSnapshot [review_r1_second]
       (onReviewsSnapshot [review_r1_first]
          (run "u1" [ChatsSnapshot [chat_c1]; MarkAllAsRead] initialState)))
  = [mkNotification "review-r1" Review "Nova avaliação de Ana"
                    "5 estrelas: muito bom" 20 false (Some (ReviewId "r1"));
     mkNotification "message-c1" Message "Nova mensagem de Bia" "oi" 5 true
                    (Some (ChatId "c1"))].
Proof. vm_compute. reflexivity. Qed.

Example feed_marked :
  let st :=
    onReviewsSnapshot [review_r1_second]
      (run "u1" [ChatsSnapshot [chat_c1]] initialState) in
  unreadCount st = 2
  ∧ read <$> notifications (markAsRead "message-c1" st) = [false; true]
  ∧ unreadCount (markAsRead "message-c1" st) = 1
  ∧ notifications (markAsRead "message-c9" st) = notifications st
  ∧ unreadCount (markAllAsRead st) = 0.
Proof. vm_compute. done. Qed.

End NotificationFacts.

(** ** Conversations *)

Section ChatFacts.
Import Firestore ChatService ChatSpec Scenarios.

Lemma scanExisting_last other snapshot :
  scanExisting other snapshot
  = id <$> last (filter (λ d, other ∈ participants (data d)) snapshot).
Proof.
  unfold scanExisting.
  induction snapshot as [|doc l IH] using rev_ind; [done|].
  rewrite foldl_snoc, filter_app, IH.
  destruct (decide (other ∈ participants (data doc))) as [Hin|Hout].
  - rewrite bool_decide_eq_true_2, filter_cons_True by done.
    by rewrite filter_nil, last_snoc.
  - rewrite bool_decide_eq_false_2, filter_cons_False by done.
    by rewrite filter_nil, app_nil_r.
Qed.

Lemma existing_last A B collection :
  existing A B collection
  = id <$> last (filter (λ d, A ∈ participants (data d)
                              ∧ B ∈ participants (data d)) collection).
Proof.
  unfold existing. rewrite scanExisting_last, list_filter_filter.
  do 2 f_equal. apply list_filter_iff. tauto.
Qed.

Lemma existing_sym A B collection :
  existing A B collection = existing B A collection.
Proof.
  rewrite !existing_last. do 2 f_equal. apply list_filter_iff. tauto.
Qed.

Lemma elem_of_insertDoc_new {D : Type} (d : Doc D) (l : list (Doc D)) :
  d ∈ insertDoc d l.
Proof.
  induction l as [|x l IH]; simpl; [set_solver|].
  destruct (String.compare (id d) (id x)); set_solver.
Qed.

Lemma filter_insertDoc_new {D : Type} (P : Doc D → Prop)
    `{!∀ d, Decision (P d)} (d : Doc D) (l : list (Doc D)) :
  P d → filter P l = [] → filter P (insertDoc d l) = [d].
Proof.
  intros Hd. induction l as [|x l IH]; simpl; intros Hl.
  - by rewrite filter_cons_True.
  - destruct (decide (P x)) as [Hx|Hx].
    { by rewrite filter_cons_True in Hl. }
    rewrite filter_cons_False in Hl by done.
    destruct (String.compare (id d) (id x)).
    + by rewrite filter_cons_True, Hl.
    + by rewrite filter_cons_True, filter_cons_False, Hl.
    + rewrite filter_cons_False by done. auto.
Qed.

Lemma truthy_existing A B collection :
  Forall (λ d, id d ≠ "") collection →
  Js.truthy Js.truthyString (existing A B collection) = false →
  filter (λ d, A ∈ participants (data d) ∧ B ∈ participants (data d))
         collection = [].
Proof.
  intros Hids. rewrite existing_last.
  destruct (last (filter _ collection)) as [doc|] eqn:Hlast; simpl.
  - apply last_Some_elem_of, list_elem_of_filter in Hlast as [_ Hin].
    rewrite Forall_forall in Hids. specialize (Hids _ Hin).
    by destruct (id doc).
  - intros _. by apply last_None.
Qed.

(** The two ways in which [createOrGetChat] returns. *)
Lemma createOrGetChat_Ok A B nameA nameB w chatId w' :
  createOrGetChat A B nameA nameB w = (Ok chatId, w') →
  (existing A B (chats w) = Some chatId ∧ chatId ≠ "" ∧ chats w' = chats w)
  ∨ (Js.truthy Js.truthyString (existing A B (chats w)) = false
     ∧ (∃ r, r ∈ replies w ∧ autoId r = chatId)
     ∧ ∃ names t1 t2,
         chats w'
         = insertDoc (mkDoc chatId (mkChatData [A; B] names (Some "")
                                               (Some t1) t2))
                     (chats w)).
Proof.
  unfold createOrGetChat, getDocsChats, addDocChats, timestampNow, bind,
    request, ret.
  destruct (replies w) as [|r rs] eqn:Hr; [done|].
  destruct (ok r); [|done]. simpl. fold (existing A B (chats w)).
  destruct (Js.truthy Js.truthyString (existing A B (chats w))) eqn:Hex.
  - intros [= <- <-]. left.
    destruct (existing A B (chats w)) as [i|]; [|done].
    simpl in *. split_and!; [done| |done]. by destruct i.
  - destruct rs as [|r2 rs]; [done|]. simpl.
    destruct (ok r2); [|done]. simpl. intros [= <- <-]. right.
    split_and!; [done| |by eexists _, _, _].
    exists r2. split; [|done]. set_solver.
Qed.

Lemma createOrGetChat_found A B nameA nameB w r rest chatId :
  replies w = r :: rest → ok r = true →
  existing A B (chats w) = Some chatId → chatId ≠ "" →
  createOrGetChat A B nameA nameB w
  = (Ok chatId,
     mkWorld (chats w) (messages w) (clock w + Z.of_N (elapsed r)) rest).
Proof.
  intros Hr Hok Hex Hid.
  unfold createOrGetChat, getDocsChats, bind, request, ret.
  rewrite Hr, Hok. simpl. fold (existing A B (chats w)). rewrite Hex.
  simpl. by destruct chatId.
Qed.

Lemma createOrGetChat_new A B nameA nameB w r1 r2 rest :
  replies w = r1 :: r2 :: rest → ok r1 = true → ok r2 = true →
  Js.truthy Js.truthyString (existing A B (chats w)) = false →
  ∃ w', createOrGetChat A B nameA nameB w = (Ok (autoId r2), w')
        ∧ replies w' = rest.
Proof.
  intros Hr Hok1 Hok2 Hex.
  unfold createOrGetChat, getDocsChats, addDocChats, timestampNow, bind,
    request, ret.
  rewrite Hr, Hok1. simpl. fold (existing A B (chats w)). rewrite Hex.
  simpl. rewrite Hok2. simpl. eauto.
Qed.

(** Once [createOrGetChat A B] has returned, the collection holds a
    conversation of the pair and the lookup settles on the returned id. *)
Lemma createOrGetChat_settles A B nameA nameB w chatId w' :
  Forall (λ d, id d ≠ "") (chats w) →
  Forall (λ r, autoId r ≠ "") (replies w) →
  createOrGetChat A B nameA nameB w = (Ok chatId, w') →
  existing A B (chats w') = Some chatId ∧ chatId ≠ "".
Proof.
  intros Hids Hauto
    [(Hex & Hne & ->)|(Hex & (r & Hr & <-) & names & t1 & t2 & ->)]
    %createOrGetChat_Ok; [done|].
  rewrite Forall_forall in Hauto. split; [|by apply Hauto].
  rewrite existing_last, filter_insertDoc_new; [done|set_solver|].
  by apply truthy_existing.
Qed.

Lemma createOrGetChat_again A B nameA nameB w chatId chatId' w' :
  existing A B (chats w) = Some chatId → chatId ≠ "" →
  createOrGetChat A B nameA nameB w = (Ok chatId', w') →
  chatId' = chatId ∧ chats w' = chats w.
Proof.
  intros Hex Hne [(Hex' & _ & ->)|(Hex' & _)]%createOrGetChat_Ok.
  - split; [congruence|done].
  - rewrite Hex in Hex'. by destruct chatId.
Qed.

Lemma createOrGetChat_created A B nameA nameB w chatId w' :
  Js.truthy Js.truthyString (existing A B (Firestore.chats w)) = false →
  createOrGetChat A B nameA nameB w = (Firestore.Ok chatId, w') →
  ∃ t1 t2,
    Firestore.chats w'
    = Firestore.insertDoc
        (Firestore.mkDoc chatId
           (Firestore.mkChatData [A; B]
              (<[B := nameB]> (<[A := nameA]> ∅))
              (Some "") (Some t1) t2))
        (Firestore.chats w).
Proof.
  intros Hnone.
  unfold createOrGetChat, Firestore.getDocsChats, Firestore.addDocChats,
    Firestore.timestampNow, Firestore.bind, Firestore.request, Firestore.ret.
  destruct (Firestore.replies w) as [|r1 rs]; [done|].
  destruct (Firestore.ok r1); [|done]. simpl.
  fold (existing A B (Firestore.chats w)). rewrite Hnone. simpl.
  destruct rs as [|r2 rs]; [done|].
  destruct (Firestore.ok r2); [|done].
  intros [= <- <-]. by eexists _, _.
Qed.

(** The conversation that [createOrGetChat A B] returns is in the store:
    one that was there, naming both users, or the one the call has added. *)
Lemma createOrGetChat_stored A B nameA nameB w chatId w' :
  Forall (λ d, id d ≠ "") (chats w) →
  createOrGetChat A B nameA nameB w = (Ok chatId, w') →
  ∃ d,
    d ∈ chats w' ∧ id d = chatId
    ∧ A ∈ participants (data d) ∧ B ∈ participants (data d)
    ∧ (d ∈ chats w ∧ chats w' = chats w
       ∨ (∀ d', d' ∈ chats w →
                ¬ (A ∈ participants (data d') ∧ B ∈ participants (data d')))
         ∧ participants (data d) = [A; B]
         ∧ participantNames (data d) = <[B := nameB]> (<[A := nameA]> ∅)
         ∧ lastMessage (data d) = Some ""
         ∧ chats w' = insertDoc d (chats w)).
Proof.
  intros Hids Hcall.
  destruct (Js.truthy Js.truthyString (existing A B (chats w))) eqn:Hex.
  - apply createOrGetChat_Ok in Hcall
      as [(Hfound & _ & ->)|(Hnone & _)]; [|congruence].
    rewrite existing_last in Hfound.
    destruct (last _) as [d|] eqn:Hlast; [|done].
    apply last_Some_elem_of, list_elem_of_filter in Hlast as [[? ?] ?].
    injection Hfound as <-. exists d. split_and!; try done. by left.
  - apply createOrGetChat_created in Hcall as (t1 & t2 & ->); [|done].
    eexists. split; [apply elem_of_insertDoc_new|]. simpl.
    split_and!; [done|by left|by right; left|].
    right. split_and!; try done.
    intros d' Hd' Hboth.
    pose proof (truthy_existing A B (chats w) Hids Hex) as Hempty.
    assert (d' ∈ filter (λ d, A ∈ participants (data d)
                              ∧ B ∈ participants (data d)) (chats w)) as Hin
      by by apply list_elem_of_filter.
    rewrite Hempty in Hin. by apply elem_of_nil in Hin.
Qed.

(** C1: on a store whose document ids, present and generated, are not
    empty, once [createOrGetChat A B] has returned an id, that id names a
    conversation in the store with [A] and [B] among its participants:
    either one that was there before the call, which then changed nothing,
    or, when the store held no conversation of the two, the one conversation
    the call has added, with the participants [A] and [B], their names and
    the empty last message.  A following call for the same pair, in either
    argument order and under any names, finds this conversation: it returns
    the same id and leaves the [chats] collection as it is.  And when the
    store answers the three requests the two calls can make, both calls do
    return.  [A] and [B] need not differ. *)
Theorem createOrGetChat_idempotent :
  ∀ (A B nameA nameB nameA' nameB' : string) (w : World),
    Forall (λ d, id d ≠ "") (chats w) →
    Forall (λ r, autoId r ≠ "") (replies w) →
    (∀ id1 w1,
       createOrGetChat A B nameA nameB w = (Ok id1, w1) →
       (∃ d,
          d ∈ chats w1 ∧ id d = id1
          ∧ A ∈ participants (data d) ∧ B ∈ participants (data d)
          ∧ (d ∈ chats w ∧ chats w1 = chats w
             ∨ (∀ d', d' ∈ chats w →
                      ¬ (A ∈ participants (data d')
                         ∧ B ∈ participants (data d')))
               ∧ participants (data d) = [A; B]
               ∧ participantNames (data d)
                 = <[B := nameB]> (<[A := nameA]> ∅)
               ∧ lastMessage (data d) = Some ""
               ∧ chats w1 = insertDoc d (chats w)))
       ∧ (∀ id2 w2,
            createOrGetChat A B nameA' nameB' w1 = (Ok id2, w2) →
            id2 = id1 ∧ chats w2 = chats w1)
       ∧ (∀ id2 w2,
            createOrGetChat B A nameB' nameA' w1 = (Ok id2, w2) →
            id2 = id1 ∧ chats w2 = chats w1))
    ∧ (∀ r1 r2 r3 rest,
         replies w = r1 :: r2 :: r3 :: rest →
         ok r1 = true → ok r2 = true → ok r3 = true →
         ∃ id1 w1 w2 w2' d,
           createOrGetChat A B nameA nameB w = (Ok id1, w1)
           ∧ createOrGetChat A B nameA' nameB' w1 = (Ok id1, w2)
           ∧ createOrGetChat B A nameB' nameA' w1 = (Ok id1, w2')
           ∧ chats w2 = chats w1 ∧ chats w2' = chats w1
           ∧ d ∈ chats w1 ∧ id d = id1
           ∧ A ∈ participants (data d) ∧ B ∈ participants (data d)).
Proof.
  intros A B nameA nameB nameA' nameB' w Hids Hauto. split.
  - intros id1 w1 H1.
    destruct (createOrGetChat_settles _ _ _ _ _ _ _ Hids Hauto H1)
      as [Hex Hne].
    split_and!.
    + by eapply createOrGetChat_stored.
    + intros id2 w2 H2. by eapply createOrGetChat_again.
    + intros id2 w2 H2.
      eapply createOrGetChat_again; [|done..]. by rewrite existing_sym.
  - intros r1 r2 r3 rest Hr Hok1 Hok2 Hok3.
    assert (∃ id1 w1 r rest',
              createOrGetChat A B nameA nameB w = (Ok id1, w1)
              ∧ replies w1 = r :: rest' ∧ ok r = true)
      as (id1 & w1 & r & rest' & H1 & Hr1 & Hok).
    { destruct (Js.truthy Js.truthyString (existing A B (chats w)))
        eqn:Hex.
      - destruct (existing A B (chats w)) as [i|] eqn:Hi; [|done].
        eexists i, _, r2, (r3 :: rest).
        split_and!;
          [eapply createOrGetChat_found;
             [exact Hr|exact Hok1|exact Hi|by destruct i]
          |reflexivity|exact Hok2].
      - destruct (createOrGetChat_new A B nameA nameB w r1 r2 (r3 :: rest))
          as (w1 & H1 & Hr1); [done..|].
        by eexists _, _, r3, _. }
    destruct (createOrGetChat_settles _ _ _ _ _ _ _ Hids Hauto H1)
      as [Hex Hne].
    destruct (createOrGetChat_stored _ _ _ _ _ _ _ Hids H1)
      as (d & Hd & Hid & HA & HB & _).
    pose proof (createOrGetChat_found A B nameA' nameB' w1 r rest' id1
                  Hr1 Hok Hex Hne) as H2.
    assert (existing B A (chats w1) = Some id1) as Hex'
      by by rewrite existing_sym.
    pose proof (createOrGetChat_found B A nameB' nameA' w1 r rest' id1
                  Hr1 Hok Hex' Hne) as H3.
    eexists id1, w1, _, _, d.
    split_and!; [exact H1|exact H2|exact H3|done..].
Qed.

Lemma createOrGetChat_idempotent_witness :
  ∃ w1 w2 w2',
    createOrGetChat "u1" "u2" "Ana" "Bia" world_empty = (Ok "c1", w1)
    ∧ createOrGetChat "u1" "u2" "Ana" "Bia" w1 = (Ok "c1", w2)
    ∧ createOrGetChat "u2" "u1" "Bia" "Ana" w1 = (Ok "c1", w2')
    ∧ chats w2 = chats w1 ∧ chats w2' = chats w1
    ∧ chats w1
      = [mkDoc "c1" (mkChatData ["u1"; "u2"]
                       (<["u2" := "Bia"]> (<["u1" := "Ana"]> ∅))
                       (Some "") (Some 103%Z) 103)].
Proof.
  assert (Forall (λ d : Doc ChatData, id d ≠ "") (chats world_empty))
    as Hids by constructor.
  assert (Forall (λ r, autoId r ≠ "") (replies world_empty)) as Hauto
    by (repeat (constructor; [discriminate|]); constructor).
  destruct (proj2 (createOrGetChat_idempotent
                     "u1" "u2" "Ana" "Bia" "Ana" "Bia" world_empty
                     Hids Hauto)
                  (mkReply true 3 "q1") (mkReply true 4 "c1")
                  (mkReply true 5 "q2") [] eq_refl eq_refl eq_refl eq_refl)
    as (id1 & w1 & w2 & w2' & d & H1 & H2 & H3 & Hc2 & Hc3 & _).
  assert (id1 = "c1" ∧ chats w1
          = [mkDoc "c1" (mkChatData ["u1"; "u2"]
                           (<["u2" := "Bia"]> (<["u1" := "Ana"]> ∅))
                           (Some "") (Some 103%Z) 103)]) as [-> Hw1].
  { revert H1. vm_compute. intros [= <- <-]. split; reflexivity. }
  by exists w1, w2, w2'.
Defined.

Example createOrGetChat_twice :
  ∃ w1 w2,
    createOrGetChat "u1" "u2" "Ana" "Bia" world_empty = (Ok "c1", w1)
    ∧ createOrGetChat "u2" "u1" "Bia" "Ana" w1 = (Ok "c1", w2)
    ∧ id <$> chats w2 = ["c1"].
Proof. eexists _, _. vm_compute. done. Qed.

(** *** Sending *)

Lemma sendMessage_cases chatId sender name text w :
  sendMessage chatId sender name text w =
  match replies w with
  | [] => (Throw, w)
  | r1 :: rest =>
      let t1 := (clock w + Z.of_N (elapsed r1))%Z in
      let doc := mkDoc (autoId r1) (mkMessageData sender name text (clock w)) in
      if ok r1 then
        match rest with
        | [] => (Throw, mkWorld (chats w) (appended chatId doc w) t1 [])
        | r2 :: rest' =>
            let t2 := (t1 + Z.of_N (elapsed r2))%Z in
            if ok r2 && bool_decide (chatId ∈ id <$> chats w) then
              (Ok tt, mkWorld (updated chatId text t1 (chats w))
                              (appended chatId doc w) t2 rest')
            else
              (Throw, mkWorld (chats w) (appended chatId doc w) t2 rest')
        end
      else (Throw, mkWorld (chats w) (messages w) t1 rest)
  end.
Proof.
  unfold sendMessage, addDocMessages, updateDocChats, timestampNow, bind,
    request.
  destruct (replies w) as [|r1 rest]; [done|]. simpl.
  destruct (ok r1); [|done]. simpl.
  destruct rest as [|r2 rest']; [done|]. simpl.
  destruct (ok r2); [|done]. simpl.
  by destruct (bool_decide _).
Qed.

Lemma elem_of_updated chatId text time collection d :
  d ∈ updated chatId text time collection →
  (id d = chatId → lastMessage (data d) = Some text
                   ∧ lastMessageTime (data d) = Some time)
  ∧ (id d ≠ chatId → d ∈ collection).
Proof.
  intros (d0 & -> & Hd0)%list_elem_of_fmap.
  destruct (String.eqb_spec (id d0) chatId) as [Heq|Hne]; simpl; [|done].
  split; [done|]. by intros [].
Qed.

Lemma id_updated chatId text time collection :
  id <$> updated chatId text time collection = id <$> collection.
Proof.
  unfold updated. rewrite <- list_fmap_compose. apply list_fmap_ext.
  intros i d _. simpl. by destruct (String.eqb _ _).
Qed.

Lemma sendMessage_total chatId sender name text w r1 r2 rest :
  replies w = r1 :: r2 :: rest → ok r1 = true → ok r2 = true →
  chatId ∈ id <$> chats w →
  ∃ w', sendMessage chatId sender name text w = (Ok tt, w').
Proof.
  intros Hr Hok1 Hok2 Hin. rewrite sendMessage_cases, Hr. simpl.
  rewrite Hok1, Hok2, bool_decide_eq_true_2 by done. eauto.
Qed.

Local Ltac thrown :=
  intros [= <-]; simpl; split; [done|];
  first [by left | right; by eexists _, _].

(** C4, as the code has it: [sendMessage] makes two writes, one after the
    other.  When it returns, the message is in the subcollection with the
    clock reading taken before the first write, and the parent conversation
    carries the text and the clock reading taken after that write.  When it
    throws, the parent conversation is untouched and the message is either
    absent or already appended; the latter happens whenever the first write
    succeeds and the second one fails.  With two successful answers and an
    existing parent, [sendMessage] returns. *)
Theorem sendMessage_two_writes :
  ∀ (chatId sender name text : string) (w : World),
    (∀ w',
       sendMessage chatId sender name text w = (Ok tt, w') →
       ∃ r1 r2 rest,
         replies w = r1 :: r2 :: rest
         ∧ messages w'
           = appended chatId
               (mkDoc (autoId r1) (mkMessageData sender name text (clock w)))
               w
         ∧ chatId ∈ id <$> chats w'
         ∧ id <$> chats w' = id <$> chats w
         ∧ ∀ d, d ∈ chats w' →
             (id d = chatId →
              lastMessage (data d) = Some text
              ∧ lastMessageTime (data d)
                = Some (clock w + Z.of_N (elapsed r1))%Z)
             ∧ (id d ≠ chatId → d ∈ chats w))
    ∧ (∀ w',
         sendMessage chatId sender name text w = (Throw, w') →
         chats w' = chats w
         ∧ (messages w' = messages w
            ∨ ∃ r1 rest,
                replies w = r1 :: rest
                ∧ messages w'
                  = appended chatId
                      (mkDoc (autoId r1)
                             (mkMessageData sender name text (clock w)))
                      w))
    ∧ (∀ r1 r2 rest,
         replies w = r1 :: r2 :: rest → ok r1 = true → ok r2 = false →
         ∃ w',
           sendMessage chatId sender name text w = (Throw, w')
           ∧ chats w' = chats w
           ∧ messages w'
             = appended chatId
                 (mkDoc (autoId r1) (mkMessageData sender name text (clock w)))
                 w)
    ∧ (∀ r1 r2 rest,
         replies w = r1 :: r2 :: rest → ok r1 = true → ok r2 = true →
         chatId ∈ id <$> chats w →
         ∃ w', sendMessage chatId sender name text w = (Ok tt, w')).
Proof.
  intros chatId sender name text w. rewrite sendMessage_cases.
  split_and!.
  - intros w'. destruct (replies w) as [|r1 [|r2 rest]]; simpl; [done|..].
    { by destruct (ok r1). }
    destruct (ok r1); [|done].
    destruct (ok r2 && _) eqn:Hok; [|done].
    apply andb_true_iff in Hok as [_ Hin%bool_decide_eq_true_1].
    intros [= <-]. simpl. eexists r1, r2, rest.
    split_and!; [done|done|by rewrite id_updated|by apply id_updated|].
    intros d. apply elem_of_updated.
  - intros w'. destruct (replies w) as [|r1 [|r2 rest]]; simpl.
    + thrown.
    + destruct (ok r1); thrown.
    + destruct (ok r1); [|thrown].
      destruct (ok r2 && _); [done|]. thrown.
  - intros r1 r2 rest -> -> ->. simpl. eauto.
  - rewrite <- sendMessage_cases. apply sendMessage_total.
Qed.

Lemma sendMessage_not_atomic :
  ∃ w',
    sendMessage "c1" "u1" "Ana" "oi" world_c1_failing = (Throw, w')
    ∧ messages w' !!! "c1"
      = [mkDoc "m1" (mkMessageData "u1" "Ana" "oi" 100)]
    ∧ chats w'
      = [mkDoc "c1" (mkChatData ["u1"; "u2"] ∅ (Some "") (Some 90%Z) 90)].
Proof.
  eexists. split; [reflexivity|]. split; vm_compute; reflexivity.
Qed.

Example sendMessage_both_writes :
  ∃ w',
    sendMessage "c1" "u1" "Ana" "a" world_c1 = (Ok tt, w')
    ∧ messages w' !!! "c1"
      = [mkDoc "m2" (mkMessageData "u1" "Ana" "a" 1000)]
    ∧ chats w'
      = [mkDoc "c1" (mkChatData ["u1"; "u2"] ∅ (Some "a") (Some 1040%Z) 90)].
Proof.
  eexists. split; [reflexivity|]. split; vm_compute; reflexivity.
Qed.

(** *** Listening *)

Lemma getChatMessages_fmap chatId w :
  getChatMessages chatId w = toChatMessage chatId <$> queryMessages chatId w.
Proof. unfold getChatMessages. by rewrite foldl_push_fmap. Qed.

Lemma filter_toChatMessage chatId t (l : list (Doc MessageData)) :
  filter (λ m, ChatMessage.timestamp m = t) (toChatMessage chatId <$> l)
  = toChatMessage chatId <$> filter (λ d, timestamp (data d) = t) l.
Proof.
  induction l as [|d l IH]; [done|]. rewrite fmap_cons.
  destruct (decide (timestamp (data d) = t)).
  - by rewrite !filter_cons_True, fmap_cons, IH.
  - by rewrite !filter_cons_False, IH.
Qed.

Lemma queryMessages_sorted chatId w :
  StronglySorted (λ a b, (timestamp (data a) ≤ timestamp (data b))%Z)
                 (queryMessages chatId w).
Proof.
  apply sort_StronglySorted.
  - intros a b c ??. lia.
  - intros x y ?%Z.ltb_lt. lia.
  - intros x y ?%Z.ltb_ge. lia.
Qed.

Lemma getChatMessages_before chatId w (da db : Doc MessageData) :
  da ∈ messages w !!! chatId → db ∈ messages w !!! chatId →
  (timestamp (data da) < timestamp (data db))%Z →
  ∃ l1 l2 l3,
    getChatMessages chatId w
    = l1 ++ toChatMessage chatId da :: l2 ++ toChatMessage chatId db :: l3.
Proof.
  intros Ha Hb Hlt.
  eapply (StronglySorted_before notAfter).
  - rewrite getChatMessages_fmap.
    eapply StronglySorted_fmap; [|apply queryMessages_sorted]. done.
  - rewrite getChatMessages_fmap. apply list_elem_of_fmap_2.
    unfold queryMessages. by rewrite elem_of_sort.
  - rewrite getChatMessages_fmap. apply list_elem_of_fmap_2.
    unfold queryMessages. by rewrite elem_of_sort.
  - unfold notAfter. simpl. lia.
  - left. unfold notAfter. lia.
Qed.

Lemma elem_of_insertDoc_old {D : Type} (d x : Doc D) (l : list (Doc D)) :
  x ∈ l → id x ≠ id d → x ∈ insertDoc d l.
Proof.
  intros Hx Hne. induction l as [|y l IH]; simpl;
    [by apply elem_of_nil in Hx|].
  destruct (String.compare (id d) (id y)) eqn:Hc.
  - apply String.compare_eq_iff in Hc.
    apply elem_of_cons in Hx as [->|Hx]; [congruence|].
    by apply elem_of_cons; right.
  - by apply elem_of_cons; right.
  - apply elem_of_cons in Hx as [->|Hx]; apply elem_of_cons; auto.
Qed.

Lemma messages_sendMessage chatId sender name text w w' :
  sendMessage chatId sender name text w = (Ok tt, w') →
  ∃ r1 r2 rest,
    replies w = r1 :: r2 :: rest
    ∧ messages w' !!! chatId
      = insertDoc (mkDoc (autoId r1)
                         (mkMessageData sender name text (clock w)))
                  (messages w !!! chatId)
    ∧ clock w' = (clock w + Z.of_N (elapsed r1) + Z.of_N (elapsed r2))%Z
    ∧ replies w' = rest
    ∧ id <$> chats w' = id <$> chats w.
Proof.
  rewrite sendMessage_cases.
  destruct (replies w) as [|r1 [|r2 rest]]; simpl; [done|..].
  { by destruct (ok r1). }
  destruct (ok r1); [|done]. destruct (ok r2 && _); [|done].
  intros [= <-]. simpl. eexists r1, r2, rest.
  split_and!; [done| |done|done|apply id_updated].
  unfold appended. by rewrite lookup_total_insert_eq.
Qed.

(** *** The order of the documents *)

Lemma ascii_compare_refl (a : Ascii.ascii) : Ascii.compare a a = Eq.
Proof. apply N.compare_refl. Qed.

Lemma compare_Lt_trans (a b c : string) :
  String.compare a b = Lt → String.compare b c = Lt →
  String.compare a c = Lt.
Proof.
  revert b c. induction a as [|x a IH]; intros [|y b] [|z c]; simpl;
    try done.
  destruct (Ascii.compare x y) eqn:Hxy; [| |done];
    destruct (Ascii.compare y z) eqn:Hyz; try done.
  - apply Ascii.compare_eq_iff in Hxy as ->.
    apply Ascii.compare_eq_iff in Hyz as ->.
    rewrite ascii_compare_refl. apply IH.
  - apply Ascii.compare_eq_iff in Hxy as ->. by rewrite Hyz.
  - apply Ascii.compare_eq_iff in Hyz as <-. by rewrite Hxy.
  - assert (Ascii.compare x z = Lt) as ->; [|done].
    unfold Ascii.compare in *. rewrite N.compare_lt_iff in *. lia.
Qed.

#[local] Instance idBefore_trans {D : Type} : Transitive (@idBefore D).
Proof. intros a b c. apply compare_Lt_trans. Qed.

#[local] Instance deliveredBefore_trans : Transitive deliveredBefore.
Proof.
  intros a b c [Hab|[Hab Hab']] [Hbc|[Hbc Hbc']]; unfold deliveredBefore.
  - left. lia.
  - left. lia.
  - left. lia.
  - right. split; [lia|]. by eapply compare_Lt_trans.
Qed.

Lemma elem_of_insertDoc {D : Type} (d y : Doc D) (l : list (Doc D)) :
  y ∈ insertDoc d l → y = d ∨ y ∈ l.
Proof.
  induction l as [|x l IH]; simpl.
  - intros ->%list_elem_of_singleton. by left.
  - destruct (String.compare (id d) (id x));
      rewrite !elem_of_cons; intuition auto.
Qed.

Lemma insertDoc_inDocumentOrder {D : Type} (d : Doc D) (l : list (Doc D)) :
  inDocumentOrder l → inDocumentOrder (insertDoc d l).
Proof.
  unfold inDocumentOrder.
  induction 1 as [|x xs Hxs IH Hx]; simpl; [by repeat constructor|].
  destruct (String.compare (id d) (id x)) eqn:Hc.
  - apply String.compare_eq_iff in Hc. constructor; [done|].
    eapply Forall_impl; [exact Hx|]. unfold idBefore. by rewrite Hc.
  - constructor; [by constructor|]. constructor; [done|].
    eapply Forall_impl; [exact Hx|]. intros z Hz. by trans x.
  - constructor; [done|]. apply Forall_forall.
    intros y [->|Hy]%elem_of_insertDoc.
    + unfold idBefore. by rewrite String.compare_antisym, Hc.
    + rewrite Forall_forall in Hx. by apply Hx.
Qed.

Lemma getChatMessages_deliveredBefore chatId w :
  inDocumentOrder (messages w !!! chatId) →
  StronglySorted deliveredBefore (getChatMessages chatId w).
Proof.
  intros Hl. rewrite getChatMessages_fmap. unfold queryMessages.
  eapply (StronglySorted_fmap _
            (λ a b, deliveredBefore (toChatMessage chatId a)
                                    (toChatMessage chatId b))); [done|].
  induction Hl as [|x l Hl IH Hx]; [constructor|].
  apply place_StronglySorted; [|done|..].
  - intros a b c. apply deliveredBefore_trans.
  - intros y _ Hlt%Z.ltb_lt. by left.
  - intros y Hy%elem_of_sort Hge%Z.ltb_ge.
    rewrite Forall_forall in Hx. specialize (Hx y Hy).
    unfold deliveredBefore. simpl.
    destruct (decide (timestamp (data x) = timestamp (data y))); [by right|].
    left. lia.
Qed.

(** C5, as the code has it: every list handed to the callback holds the
    whole subcollection, ascending by timestamp, and messages of one and the
    same timestamp in the order in which the collection lists them; as
    [sendMessage] keeps a subcollection in the order of the document ids,
    that is the order of their ids.  When [sendMessage] returns for a text [a]
    and then for a text [b], under different document ids and with the clock
    reading of the second call after that of the first, the callback gets
    the message [a] before the message [b]. *)
Theorem getChatMessages_ascending :
  ∀ (chatId : string) (w : World),
    getChatMessages chatId w
    ≡ₚ toChatMessage chatId <$> (messages w !!! chatId)
    ∧ StronglySorted notAfter (getChatMessages chatId w)
    ∧ (∀ t,
         filter (λ m, ChatMessage.timestamp m = t) (getChatMessages chatId w)
         = toChatMessage chatId
             <$> filter (λ d, timestamp (data d) = t) (messages w !!! chatId))
    ∧ (inDocumentOrder (messages w !!! chatId) →
       StronglySorted deliveredBefore (getChatMessages chatId w))
    ∧ (∀ sender name text w',
         sendMessage chatId sender name text w = (Ok tt, w') →
         inDocumentOrder (messages w !!! chatId) →
         inDocumentOrder (messages w' !!! chatId))
    ∧ (∀ da db,
         da ∈ messages w !!! chatId → db ∈ messages w !!! chatId →
         (timestamp (data da) < timestamp (data db))%Z →
         ∃ l1 l2 l3,
           getChatMessages chatId w
           = l1 ++ toChatMessage chatId da
                :: l2 ++ toChatMessage chatId db :: l3)
    ∧ (∀ senderA nameA a senderB nameB b r1 r2 r3 r4 rest,
         replies w = r1 :: r2 :: r3 :: r4 :: rest →
         ok r1 = true → ok r2 = true → ok r3 = true → ok r4 = true →
         chatId ∈ id <$> chats w →
         autoId r1 ≠ autoId r3 →
         (0 < elapsed r1 + elapsed r2)%N →
         ∃ w1 w2 l1 l2 l3,
           sendMessage chatId senderA nameA a w = (Ok tt, w1)
           ∧ sendMessage chatId senderB nameB b w1 = (Ok tt, w2)
           ∧ getChatMessages chatId w2
             = l1 ++ ChatMessage.mk (autoId r1) chatId senderA nameA a
                                   (clock w)
                  :: l2 ++ ChatMessage.mk (autoId r3) chatId senderB nameB b
                                         (clock w1)
                  :: l3).
Proof.
  intros chatId w. split_and!.
  - rewrite getChatMessages_fmap. unfold queryMessages.
    by rewrite sort_Permutation.
  - rewrite getChatMessages_fmap.
    eapply StronglySorted_fmap; [|apply queryMessages_sorted]. done.
  - intros t. rewrite getChatMessages_fmap, filter_toChatMessage.
    unfold queryMessages. rewrite filter_sort; [done|].
    intros y z ?%Z.ltb_lt. lia.
  - apply getChatMessages_deliveredBefore.
  - intros sender name text w'
      (r1 & _ & _ & _ & -> & _)%messages_sendMessage.
    apply insertDoc_inDocumentOrder.
  - apply getChatMessages_before.
  - intros senderA nameA a senderB nameB b r1 r2 r3 r4 rest
      Hr Hok1 Hok2 Hok3 Hok4 Hin Hids Hlater.
    destruct (sendMessage_total chatId senderA nameA a w r1 r2 _
                Hr Hok1 Hok2 Hin) as [w1 H1].
    destruct (messages_sendMessage _ _ _ _ _ _ H1)
      as (? & ? & ? & Hr' & Hm1 & Hc1 & Hr1 & Hi1).
    rewrite Hr in Hr'. injection Hr' as <- <- <-.
    destruct (sendMessage_total chatId senderB nameB b w1 r3 r4 rest
                Hr1 Hok3 Hok4) as [w2 H2]; [by rewrite Hi1|].
    destruct (messages_sendMessage _ _ _ _ _ _ H2)
      as (? & ? & ? & Hr' & Hm2 & _).
    rewrite Hr1 in Hr'. injection Hr' as <- <- <-.
    exists w1, w2.
    set (ma := ChatMessage.mk (autoId r1) chatId senderA nameA a (clock w)).
    set (mb := ChatMessage.mk (autoId r3) chatId senderB nameB b (clock w1)).
    assert (∃ l1 l2 l3, getChatMessages chatId w2 = l1 ++ ma :: l2 ++ mb :: l3)
      as (l1 & l2 & l3 & Hsplit); [|by eexists _, _, _].
    apply (getChatMessages_before chatId w2
             (mkDoc (autoId r1) (mkMessageData senderA nameA a (clock w)))
             (mkDoc (autoId r3) (mkMessageData senderB nameB b (clock w1)))).
    + rewrite Hm2. apply elem_of_insertDoc_old; [|done].
      rewrite Hm1. apply elem_of_insertDoc_new.
    + rewrite Hm2. apply elem_of_insertDoc_new.
    + simpl. rewrite Hc1. lia.
Qed.

Lemma getChatMessages_tie_by_document_id :
  ∃ w1 w2,
    sendMessage "c1" "u1" "Ana" "a" world_c1 = (Ok tt, w1)
    ∧ sendMessage "c1" "u2" "Bia" "b" (atClock 1000 w1) = (Ok tt, w2)
    ∧ getChatMessages "c1" w2
      = [ChatMessage.mk "m1" "c1" "u2" "Bia" "b" 1000;
         ChatMessage.mk "m2" "c1" "u1" "Ana" "a" 1000].
Proof.
  eexists _, _. split; [reflexivity|]. split; vm_compute; reflexivity.
Qed.

(** On one device, whose clock moves on while the writes are awaited, the
    same two calls are delivered in the order of the calls. *)
Example getChatMessages_a_then_b :
  ∃ w1 w2,
    sendMessage "c1" "u1" "Ana" "a" world_c1 = (Ok tt, w1)
    ∧ sendMessage "c1" "u1" "Ana" "b" w1 = (Ok tt, w2)
    ∧ getChatMessages "c1" w2
      = [ChatMessage.mk "m2" "c1" "u1" "Ana" "a" 1000;
         ChatMessage.mk "m1" "c1" "u1" "Ana" "b" 1075].
Proof.
  eexists _, _. split; [reflexivity|]. split; vm_compute; reflexivity.
Qed.

(** *** A conversation without a message *)

(** C9: the chats listener builds an event for a conversation of its
    snapshot exactly when [lastMessage] is a non-empty text and
    [lastMessageTime] is present; a conversation that lacks either one can be
    taken out of the snapshot without changing the events, and after the
    update the feed has no Message event for a conversation whose text is
    empty.  The conversation that [createOrGetChat] creates has the empty
    text and so yields no event. *)
Theorem empty_lastMessage_no_event :
  ∀ (uid : string),
    (∀ snapshot n,
       n ∈ NotificationButton.messageNotifications uid snapshot →
       ∃ doc text time,
         doc ∈ snapshot
         ∧ lastMessage (data doc) = Some text ∧ text ≠ ""
         ∧ lastMessageTime (data doc) = Some time
         ∧ NotificationButton.type n = NotificationButton.Message
         ∧ NotificationButton.data n
           = Some (NotificationButton.ChatId (id doc))
         ∧ NotificationButton.message n = text
         ∧ NotificationButton.timestamp n = time)
    ∧ (∀ snapshot doc text time,
         doc ∈ snapshot →
         lastMessage (data doc) = Some text → text ≠ "" →
         lastMessageTime (data doc) = Some time →
         ∃ n,
           n ∈ NotificationButton.messageNotifications uid snapshot
           ∧ NotificationButton.data n
             = Some (NotificationButton.ChatId (id doc))
           ∧ NotificationButton.message n = text
           ∧ NotificationButton.timestamp n = time)
    ∧ (∀ before doc after,
         lastMessage (data doc) = Some ""
         ∨ lastMessage (data doc) = None
         ∨ lastMessageTime (data doc) = None →
         NotificationButton.messageNotifications uid (before ++ doc :: after)
         = NotificationButton.messageNotifications uid (before ++ after))
    ∧ (∀ st snapshot chatId,
         (∀ doc, doc ∈ snapshot → id doc = chatId →
                 lastMessage (data doc) = Some "") →
         NotificationSpec.eventsFor
           NotificationButton.Message (NotificationButton.ChatId chatId)
           (NotificationButton.notifications
              (NotificationButton.onChatsSnapshot uid snapshot st))
         = [])
    ∧ (∀ A B nameA nameB w chatId w',
         (∀ doc, doc ∈ chats w →
                 ¬ (A ∈ participants (data doc)
                    ∧ B ∈ participants (data doc))) →
         createOrGetChat A B nameA nameB w = (Ok chatId, w') →
         ∃ doc,
           doc ∈ chats w' ∧ id doc = chatId
           ∧ participants (data doc) = [A; B]
           ∧ lastMessage (data doc) = Some ""
           ∧ NotificationButton.messageNotifications uid [doc] = []).
Proof.
  intros uid. split_and!.
  - intros snapshot n.
    rewrite messageNotifications_omap.
    intros (doc & Hdoc & Hn)%list_elem_of_omap.
    unfold NotificationSpec.ofChat in Hn.
    destruct (lastMessage (data doc)) as [text|] eqn:Htext; [|done].
    destruct (lastMessageTime (data doc)) as [time|] eqn:Htime;
      [|by rewrite andb_false_r in Hn].
    simpl in Hn. rewrite andb_true_r in Hn.
    destruct (Js.truthyString text) eqn:Htruthy; [|done].
    injection Hn as <-. exists doc, text, time.
    split_and!; try done. by intros ->.
  - intros snapshot doc text time Hdoc Htext Hne Htime.
    rewrite messageNotifications_omap. eexists. split.
    + apply list_elem_of_omap. exists doc. split; [done|].
      unfold NotificationSpec.ofChat. rewrite Htext, Htime. simpl.
      destruct text; [done|]. reflexivity.
    + done.
  - intros before doc after Hdoc.
    rewrite !messageNotifications_omap, !omap_app. simpl.
    assert (NotificationSpec.ofChat uid doc = None) as ->; [|done].
    unfold NotificationSpec.ofChat.
    destruct Hdoc as [->|[->| ->]]; [done|done|by rewrite andb_false_r].
  - intros st snapshot chatId Hempty. unfold NotificationSpec.eventsFor.
    apply filter_none, Forall_forall. intros n Hn [Hty Hdata].
    apply (elem_of_Permutation_proper _ _ _
             (notifications_onChatsSnapshot uid snapshot st)) in Hn.
    apply elem_of_app in Hn as [Hn|Hn].
    + apply list_elem_of_omap in Hn as (doc & Hdoc & Hn).
      pose proof (key_ofChat _ _ _ Hn) as Hkey.
      unfold NotificationSpec.key in Hkey.
      injection Hkey as _ Hkey. rewrite Hkey in Hdata.
      injection Hdata as Hid.
      unfold NotificationSpec.ofChat in Hn.
      by rewrite (Hempty doc Hdoc Hid) in Hn.
    + by apply list_elem_of_filter in Hn as [? _].
  - intros A B nameA nameB w chatId w' Hnone
      [(Hex & _)|(_ & _ & names & t1 & t2 & ->)]%createOrGetChat_Ok.
    + rewrite existing_last in Hex.
      destruct (last _) as [doc|] eqn:Hlast; [|done].
      apply last_Some_elem_of, list_elem_of_filter in Hlast as [? ?].
      by destruct (Hnone doc).
    + eexists. split; [apply elem_of_insertDoc_new|]. done.
Qed.

Example fresh_conversation_is_silent :
  ∃ w',
    createOrGetChat "u1" "u2" "Ana" "Bia" world_empty = (Ok "c1", w')
    ∧ NotificationButton.messageNotifications "u2" (chats w') = []
    ∧ ∃ w'',
        sendMessage "c1" "u1" "Ana" "oi"
                    (mkWorld (chats w') (messages w') (clock w')
                             [mkReply true 2 "m1"; mkReply true 2 ""])
        = (Ok tt, w'')
        ∧ NotificationButton.message
            <$> NotificationButton.messageNotifications "u2" (chats w'')
          = ["oi"].
Proof.
  eexists. split; [vm_compute; reflexivity|].
  split; [vm_compute; reflexivity|].
  eexists. split; [vm_compute; reflexivity|]. vm_compute. reflexivity.
Qed.

End ChatFacts.

(** ** Strings *)

Section StringFacts.
Import CaseSpec.

Lemma append_nil (s : string) : "" +:+ s = s.
Proof. reflexivity. Qed.

Lemma append_cons (c : Ascii.ascii) (s t : string) :
  String c s +:+ t = String c (s +:+ t).
Proof. reflexivity. Qed.

Lemma startsWith_spec (s search : string) :
  Js.startsWith s search = true ↔ ∃ post, s = search +:+ post.
Proof.
  revert s. induction search as [|a search IH]; intros s.
  - destruct s; simpl; split; eauto.
  - destruct s as [|b s]; simpl.
    + split; [done|]. by intros [post [=]].
    + rewrite andb_true_iff, Ascii.eqb_eq, IH. split.
      * intros [-> [post ->]]. by exists post.
      * intros [post [= -> ->]]. eauto.
Qed.

Lemma includes_spec (s search : string) :
  Js.includes s search = true ↔ ∃ pre post, s = pre +:+ search +:+ post.
Proof.
  induction s as [|c s IH]; cbn [Js.includes].
  - rewrite orb_false_r, startsWith_spec. split.
    + intros [post ->]. by exists "", post.
    + intros [[|? pre] [post Heq]]; [by exists post|done].
  - rewrite orb_true_iff, startsWith_spec, IH. split.
    + intros [[post ->]|(pre & post & ->)].
      * by exists "", post.
      * by exists (String c pre), post.
    + intros [[|c' pre] [post Heq]].
      * left. by exists post.
      * right. injection Heq as -> ->. eauto.
Qed.

Lemma lowerAscii_app (s t : string) :
  lowerAscii (s +:+ t) = lowerAscii s +:+ lowerAscii t.
Proof.
  induction s as [|c s IH]; [done|].
  rewrite append_cons. simpl. by rewrite IH.
Qed.

Lemma lowerAscii_split (s x y : string) :
  lowerAscii s = x +:+ y →
  ∃ s1 s2, s = s1 +:+ s2 ∧ lowerAscii s1 = x ∧ lowerAscii s2 = y.
Proof.
  revert s. induction x as [|a x IH]; intros s Hs.
  - by exists "", s.
  - destruct s as [|c s]; [done|].
    rewrite append_cons in Hs. simpl in Hs. injection Hs as Hc Hs.
    destruct (IH _ Hs) as (s1 & s2 & -> & <- & <-).
    exists (String c s1), s2. simpl. by rewrite Hc.
Qed.

(** On a text of ASCII the lower case of Latin-1 folds the letters A to Z
    and nothing else. *)
Lemma lowerLatin1_ascii (s : string) :
  ascii s = true → latin1 s = true ∧ lowerLatin1 s = lowerAscii s.
Proof.
  induction s as [|a s IH]; [done|]. cbn [ascii latin1 lowerLatin1 lowerAscii].
  intros [Ha Hs]%andb_prop. rewrite Ha.
  destruct (IH Hs) as [-> ->]. split; [done|].
  apply Nat.ltb_lt in Ha.
  destruct (Nat.eqb_spec (Ascii.nat_of_ascii a) 195) as [Heq|_]; [lia|done].
Qed.

End StringFacts.

(** ** Provider discovery *)

Section DiscoveryFacts.
Import CaseSpec DiscoverySpec.
Variable calculateDistance : float → float → float → float → float.
Variable toLowerCase : string → string.

Lemma includes_toLowerCase (haystack needle : string) :
  Js.includes (toLowerCase haystack) (toLowerCase needle) = true
  ↔ substringCI toLowerCase needle haystack.
Proof. apply includes_spec. Qed.

(** On texts of ASCII the match is one in the plain sense: some part of the
    haystack equals the needle up to the case of the letters. *)
Lemma substringCI_ascii (needle haystack : string) :
  onLatin1 toLowerCase →
  ascii needle = true → ascii haystack = true →
  substringCI toLowerCase needle haystack
  ↔ ∃ pre part post,
      haystack = pre +:+ part +:+ post ∧ equalIgnoringCase part needle.
Proof.
  intros Hlatin1 Hneedle Hhaystack. unfold substringCI, equalIgnoringCase.
  destruct (lowerLatin1_ascii _ Hneedle) as [Hn1 Hn2].
  destruct (lowerLatin1_ascii _ Hhaystack) as [Hh1 Hh2].
  rewrite !Hlatin1, Hn2, Hh2 by done. split.
  - intros (pre & post & (s1 & s23 & -> & <- & H23)%lowerAscii_split).
    apply lowerAscii_split in H23 as (s2 & s3 & -> & Hpart & <-).
    by exists s1, s2, s3.
  - intros (pre & part & post & -> & <-).
    exists (lowerAscii pre), (lowerAscii post).
    by rewrite !lowerAscii_app.
Qed.

Lemma loadProviders_home userLocation querySnapshot :
  HomeScreen.loadProviders calculateDistance userLocation querySnapshot
  = Js.sort Provider.byDistance
            (omap (ofUserHome calculateDistance userLocation) querySnapshot).
Proof.
  unfold HomeScreen.loadProviders.
  rewrite (foldl_push_omap (ofUserHome calculateDistance userLocation));
    [done|].
  intros acc doc. unfold ofUserHome. by destruct (_ || _).
Qed.

Lemma loadProviders_map userLocation searchRadius querySnapshot :
  MapScreen.loadProviders calculateDistance userLocation searchRadius
                          querySnapshot
  = Js.sort Provider.byDistance
            (omap (ofUserMap calculateDistance userLocation searchRadius)
                  querySnapshot).
Proof.
  unfold MapScreen.loadProviders.
  rewrite (foldl_push_omap
             (ofUserMap calculateDistance userLocation searchRadius));
    [done|].
  intros acc doc. unfold ofUserMap. destruct (_ || _); [done|].
  destruct userLocation; [|done]. by destruct (_ <=? _)%float.
Qed.

Lemma elem_of_loadProviders_home userLocation querySnapshot p :
  p ∈ HomeScreen.loadProviders calculateDistance userLocation querySnapshot
  ↔ ∃ doc, doc ∈ querySnapshot
           ∧ ofUserHome calculateDistance userLocation doc = Some p.
Proof. by rewrite loadProviders_home, elem_of_sort, list_elem_of_omap. Qed.

Lemma elem_of_loadProviders_map userLocation searchRadius querySnapshot p :
  p ∈ MapScreen.loadProviders calculateDistance userLocation searchRadius
                              querySnapshot
  ↔ ∃ doc, doc ∈ querySnapshot
           ∧ ofUserMap calculateDistance userLocation searchRadius doc
             = Some p.
Proof. by rewrite loadProviders_map, elem_of_sort, list_elem_of_omap. Qed.

Lemma truthyString_empty (s : string) : Js.truthyString s = false ↔ s = "".
Proof. by destruct s. Qed.

Lemma elem_of_filtered (st : HomeScreen.State) (p : Provider.t) :
  p ∈ HomeScreen.filtered toLowerCase st
  ↔ p ∈ HomeScreen.providers st
    ∧ matchesService toLowerCase (HomeScreen.selectedService st) p
    ∧ matchesNeighborhood (HomeScreen.selectedNeighborhood st) p
    ∧ matchesFreeText toLowerCase (HomeScreen.searchText st) p
    ∧ withinRadius (HomeScreen.userLocation st) (HomeScreen.searchRadius st) p.
Proof.
  unfold HomeScreen.filtered, matchesService, matchesNeighborhood,
    matchesFreeText, withinRadius.
  rewrite <- !includes_toLowerCase.
  destruct (HomeScreen.userLocation st) as [loc|];
    destruct (HomeScreen.selectedService st) as [|c1 s1];
    destruct (HomeScreen.selectedNeighborhood st) as [|c2 s2];
    destruct (HomeScreen.searchText st) as [|c3 s3];
    cbn [Js.truthyString];
    rewrite ?list_elem_of_filter, ?orb_True, ?Is_true_true;
    intuition (first [discriminate | auto]).
Qed.

(** C7: the list screen keeps the providers of [providers], in their order,
    that pass every filter: the service filter, a case-insensitive substring
    match on the service type; the neighbourhood filter, an exact match; the
    free text, a case-insensitive substring match on the display name or on
    the service type; and, when the location of the user is known, the radius
    filter.  An empty filter passes every provider.  The match is the one of
    the language: the filter, in lower case, occurs in the text, in lower
    case, whatever the mapping to lower case is; with the mapping of the
    standard, on texts of ASCII it holds exactly when some part of the text
    equals the filter up to the case of the letters.  With the service
    filter [encanador] alone, of a provider of type [Encanador] and one of
    type [Eletricista] only the first is kept; and the filter [mecânico]
    keeps a provider of type [MECÂNICO]. *)
Theorem filterProviders_filters :
  ∀ (st : HomeScreen.State),
    onLatin1 toLowerCase →
    let listed :=
      HomeScreen.filteredProviders
        (HomeScreen.filterProviders toLowerCase st) in
    listed `sublist_of` HomeScreen.providers st
    ∧ (∀ p,
         p ∈ listed
         ↔ p ∈ HomeScreen.providers st
           ∧ matchesService toLowerCase (HomeScreen.selectedService st) p
           ∧ matchesNeighborhood (HomeScreen.selectedNeighborhood st) p
           ∧ matchesFreeText toLowerCase (HomeScreen.searchText st) p
           ∧ withinRadius (HomeScreen.userLocation st)
                          (HomeScreen.searchRadius st) p)
    ∧ (∀ needle haystack,
         ascii needle = true → ascii haystack = true →
         substringCI toLowerCase needle haystack
         ↔ ∃ pre part post,
             haystack = pre +:+ part +:+ post
             ∧ equalIgnoringCase part needle)
    ∧ (∀ p1 p2,
         Provider.serviceType p1 = "Encanador" →
         Provider.serviceType p2 = "Eletricista" →
         HomeScreen.providers st = [p1; p2] →
         HomeScreen.selectedService st = "encanador" →
         HomeScreen.selectedNeighborhood st = "" →
         HomeScreen.searchText st = "" →
         HomeScreen.userLocation st = None →
         listed = [p1])
    ∧ (∀ p1 p2,
         Provider.serviceType p1 = "MECÂNICO" →
         Provider.serviceType p2 = "Eletricista" →
         HomeScreen.providers st = [p1; p2] →
         HomeScreen.selectedService st = "mecânico" →
         HomeScreen.selectedNeighborhood st = "" →
         HomeScreen.searchText st = "" →
         HomeScreen.userLocation st = None →
         listed = [p1]).
Proof.
  intros st Hlatin1 listed. subst listed. split_and!.
  - simpl. unfold HomeScreen.filtered.
    repeat match goal with
           | |- context [if ?b then _ else _] => destruct b
           | |- context [match ?o with Some _ => _ | None => _ end] =>
               destruct o
           end;
      repeat (etrans; [apply sublist_filter|]).
    all: done.
  - intros p. apply elem_of_filtered.
  - intros needle haystack. by apply substringCI_ascii.
  - intros p1 p2 H1 H2 Hst Hservice Hhood Htext Hloc. simpl.
    unfold HomeScreen.filtered.
    rewrite Hst, Hservice, Hhood, Htext, Hloc. cbn [Js.truthyString].
    rewrite filter_cons_True
      by (rewrite H1, !Hlatin1 by reflexivity; by vm_compute).
    rewrite filter_cons_False
      by (rewrite H2, !Hlatin1 by reflexivity; by vm_compute).
    done.
  - intros p1 p2 H1 H2 Hst Hservice Hhood Htext Hloc. simpl.
    unfold HomeScreen.filtered.
    rewrite Hst, Hservice, Hhood, Htext, Hloc. cbn [Js.truthyString].
    rewrite filter_cons_True
      by (rewrite H1, !Hlatin1 by reflexivity; by vm_compute).
    rewrite filter_cons_False
      by (rewrite H2, !Hlatin1 by reflexivity; by vm_compute).
    done.
Qed.

Lemma distance_ofUserHome userLocation doc p :
  ofUserHome calculateDistance userLocation doc = Some p →
  Provider.uid p = UserDoc.uid (Firestore.data doc)
  ∧ Provider.latitude p
    = Js.orElse Js.truthyNumber (UserDoc.latitude (Firestore.data doc))
                (-22.9068)%float
  ∧ Provider.longitude p
    = Js.orElse Js.truthyNumber (UserDoc.longitude (Firestore.data doc))
                (-43.1729)%float
  ∧ Provider.distance p
    = (λ loc, calculateDistance
                (Location.latitude loc) (Location.longitude loc)
                (Provider.latitude p) (Provider.longitude p))
        <$> userLocation.
Proof.
  unfold ofUserHome. destruct (_ || _); [done|].
  intros [= <-]. by destruct userLocation.
Qed.

Lemma distance_ofUserMap origin searchRadius doc p :
  ofUserMap calculateDistance (Some origin) searchRadius doc = Some p →
  ∃ d,
    Provider.distance p = Some d
    ∧ (d <=? searchRadius)%float = true
    ∧ d = calculateDistance
            (Location.latitude origin) (Location.longitude origin)
            (Provider.latitude p) (Provider.longitude p).
Proof.
  unfold ofUserMap. destruct (_ || _); [done|].
  destruct (_ <=? _)%float eqn:Hle; [|done].
  intros [= <-]. eexists. by split_and!.
Qed.

Lemma loadProviders_without_location :
  HomeScreen.loadProviders calculateDistance None [Scenarios.user_no_coordinate]
  = [Scenarios.provider_no_coordinate]
  ∧ HomeScreen.loadProviders calculateDistance None [Scenarios.user_sao_paulo]
    = [Scenarios.provider_sao_paulo].
Proof. split; reflexivity. Qed.

(** C3: the list screen from the moment it mounts, for a user in Rio de
    Janeiro, the radius of 5 km and a record in São Paulo.  The call of
    [loadProviders] made on mounting holds no location, so the provider it
    builds carries no distance; once the location of the user is known,
    whether it arrives before the providers or after them, the list shows
    this provider: [filterProviders] tests [(undefined || 0) <= 5], or was
    run without a location and is not run again.  Elsewhere the code keeps
    to the radius: a call of [loadProviders] that holds the location
    computes the distance of every provider, [filterProviders] keeps a
    provider only when [(distance || 0) <= searchRadius], and every provider
    that the map screen loads has a computed distance that is at most the
    radius. *)
Theorem list_screen_lists_beyond_radius :
  let mounted :=
    HomeScreen.loadProviders calculateDistance None
                             [Scenarios.user_sao_paulo] in
  let locationFirst :=
    HomeScreen.filterProviders toLowerCase
      (HomeScreen.setProviders mounted
         (HomeScreen.setUserLocation (Some Scenarios.rio)
                                     HomeScreen.initialState)) in
  let providersFirst :=
    HomeScreen.setUserLocation (Some Scenarios.rio)
      (HomeScreen.filterProviders toLowerCase
         (HomeScreen.setProviders mounted HomeScreen.initialState)) in
  (HomeScreen.userLocation locationFirst = Some Scenarios.rio
   ∧ HomeScreen.searchRadius locationFirst = 5%float
   ∧ HomeScreen.filteredProviders locationFirst
     = [Scenarios.provider_sao_paulo])
  ∧ (HomeScreen.userLocation providersFirst = Some Scenarios.rio
     ∧ HomeScreen.searchRadius providersFirst = 5%float
     ∧ HomeScreen.filteredProviders providersFirst
       = [Scenarios.provider_sao_paulo])
  ∧ (Provider.distance Scenarios.provider_sao_paulo = None
     ∧ Provider.latitude Scenarios.provider_sao_paulo = (-23.5505)%float
     ∧ Provider.longitude Scenarios.provider_sao_paulo = (-46.6333)%float)
  ∧ (∀ origin querySnapshot p,
       p ∈ HomeScreen.loadProviders calculateDistance (Some origin)
                                    querySnapshot →
       Provider.distance p
       = Some (calculateDistance
                 (Location.latitude origin) (Location.longitude origin)
                 (Provider.latitude p) (Provider.longitude p)))
  ∧ (∀ st origin p,
       HomeScreen.userLocation st = Some origin →
       p ∈ HomeScreen.filteredProviders
             (HomeScreen.filterProviders toLowerCase st) →
       (Js.orElse Js.truthyNumber (Provider.distance p) 0
        <=? HomeScreen.searchRadius st)%float = true)
  ∧ (∀ origin searchRadius querySnapshot p,
       p ∈ MapScreen.loadProviders calculateDistance (Some origin)
                                   searchRadius querySnapshot →
       ∃ d,
         Provider.distance p = Some d
         ∧ (d <=? searchRadius)%float = true
         ∧ d = calculateDistance
                 (Location.latitude origin) (Location.longitude origin)
                 (Provider.latitude p) (Provider.longitude p)).
Proof.
  intros mounted locationFirst providersFirst.
  subst mounted locationFirst providersFirst.
  rewrite (proj2 loadProviders_without_location).
  split_and!; try reflexivity.
  - intros origin querySnapshot p (doc & _ & Hp)%elem_of_loadProviders_home.
    by apply distance_ofUserHome in Hp as (_ & _ & _ & ->).
  - intros st origin p Hloc (_ & _ & _ & _ & [Hnone|Hle])%elem_of_filtered;
      [|done].
    by rewrite Hloc in Hnone.
  - intros origin searchRadius querySnapshot p
      (doc & _ & Hp)%elem_of_loadProviders_map.
    by eapply distance_ofUserMap.
Qed.

Lemma ofUserMap_located userLocation searchRadius doc :
  ListingSpec.located doc = false →
  ofUserMap calculateDistance userLocation searchRadius doc = None.
Proof.
  unfold ListingSpec.located, ofUserMap. intros [->| ->]%andb_false_iff;
    by rewrite ?orb_true_r.
Qed.

(** C6, as the code has it, for a record that lacks a latitude or a
    longitude: the field is missing, or it holds zero or [NaN].  The map
    screen skips the record, whether or not the location of the user is
    known.  The list screen keeps it when it has the three required texts: a
    coordinate that is lacking becomes its default, -22.9068 for the
    latitude and -43.1729 for the longitude, the other one is kept; the
    distance is the one from the location of the user to that position when
    the location is known while loading, and absent otherwise; and the
    filters list the provider exactly when it passes the filters on the
    texts and, with a known location, [(distance || 0) <= searchRadius]. *)
Theorem missing_coordinate :
  ∀ (doc : Firestore.Doc UserDoc.t),
    ListingSpec.located doc = false →
    (∀ userLocation searchRadius before after,
       MapScreen.loadProviders calculateDistance userLocation searchRadius
                               (before ++ doc :: after)
       = MapScreen.loadProviders calculateDistance userLocation searchRadius
                                 (before ++ after))
    ∧ (∀ userLocation querySnapshot,
         ListingSpec.required doc = true →
         doc ∈ querySnapshot →
         ∃ p,
           p ∈ HomeScreen.loadProviders calculateDistance userLocation
                                        querySnapshot
           ∧ Provider.uid p = UserDoc.uid (Firestore.data doc)
           ∧ (Js.truthy Js.truthyNumber (UserDoc.latitude (Firestore.data doc))
              = false →
              Provider.latitude p = (-22.9068)%float)
           ∧ (∀ x, UserDoc.latitude (Firestore.data doc) = Some x →
                   Js.truthyNumber x = true → Provider.latitude p = x)
           ∧ (Js.truthy Js.truthyNumber
                        (UserDoc.longitude (Firestore.data doc)) = false →
              Provider.longitude p = (-43.1729)%float)
           ∧ (∀ y, UserDoc.longitude (Firestore.data doc) = Some y →
                   Js.truthyNumber y = true → Provider.longitude p = y)
           ∧ Provider.distance p
             = (λ loc, calculateDistance
                         (Location.latitude loc) (Location.longitude loc)
                         (Provider.latitude p) (Provider.longitude p))
                 <$> userLocation
           ∧ ∀ st,
               HomeScreen.providers st
               = HomeScreen.loadProviders calculateDistance userLocation
                                          querySnapshot →
               p ∈ HomeScreen.filteredProviders
                     (HomeScreen.filterProviders toLowerCase st)
               ↔ matchesService toLowerCase (HomeScreen.selectedService st) p
                 ∧ matchesNeighborhood (HomeScreen.selectedNeighborhood st) p
                 ∧ matchesFreeText toLowerCase (HomeScreen.searchText st) p
                 ∧ withinRadius (HomeScreen.userLocation st)
                                (HomeScreen.searchRadius st) p).
Proof.
  intros doc Hlocated. split.
  - intros userLocation searchRadius before after.
    rewrite !loadProviders_map, !omap_app. simpl.
    by rewrite ofUserMap_located.
  - intros userLocation querySnapshot Hrequired Hdoc.
    destruct (ofUserHome calculateDistance userLocation doc) as [p|] eqn:Hp.
    2:{ unfold ofUserHome in Hp. unfold ListingSpec.required in Hrequired.
        apply andb_prop in Hrequired as [[H1 H2]%andb_prop H3].
        by rewrite H1, H2, H3 in Hp. }
    exists p.
    destruct (distance_ofUserHome _ _ _ Hp) as (Huid & Hplat & Hplon & Hdist).
    assert (p ∈ HomeScreen.loadProviders calculateDistance userLocation
                                          querySnapshot) as Hin.
    { apply elem_of_loadProviders_home. eauto. }
    split_and!; [done|done|..|done|].
    + rewrite Hplat.
      destruct (UserDoc.latitude (Firestore.data doc)) as [x|]; [|done].
      simpl. by intros ->.
    + intros x Hx Htruthy. rewrite Hplat, Hx. simpl. by rewrite Htruthy.
    + rewrite Hplon.
      destruct (UserDoc.longitude (Firestore.data doc)) as [y|]; [|done].
      simpl. by intros ->.
    + intros y Hy Htruthy. rewrite Hplon, Hy. simpl. by rewrite Htruthy.
    + intros st Hst. simpl. rewrite elem_of_filtered, Hst. tauto.
Qed.

End DiscoveryFacts.

(** *** The radius filter on concrete screens *)

Section DiscoveryExamples.
Import CaseSpec DiscoverySpec Scenarios.

(** The record without a coordinate is listed.  In the course of events of
    the list screen from its mounting on, whatever the distance service
    computes; and also when the location of the user, here the default
    position itself, is known while loading, with a distance service under
    which a position is at distance 0 from itself. *)
Lemma no_coordinate_still_listed :
  (¬ ∃ calculateDistance toLowerCase,
       ∀ p,
         p ∈ HomeScreen.filteredProviders
               (HomeScreen.filterProviders toLowerCase
                  (HomeScreen.setProviders
                     (HomeScreen.loadProviders calculateDistance None
                                               [user_no_coordinate])
                     (HomeScreen.setUserLocation (Some rio)
                                                 HomeScreen.initialState))) →
         Provider.uid p ≠ UserDoc.uid (Firestore.data user_no_coordinate))
  ∧ (∀ calculateDistance toLowerCase,
       calculateDistance (-22.9068)%float (-43.1729)%float
                         (-22.9068)%float (-43.1729)%float = 0%float →
       Provider.setDistance 0 provider_no_coordinate
       ∈ HomeScreen.filteredProviders
           (HomeScreen.filterProviders toLowerCase
              (HomeScreen.setProviders
                 (HomeScreen.loadProviders calculateDistance (Some rio)
                                           [user_no_coordinate])
                 (HomeScreen.setUserLocation (Some rio)
                                             HomeScreen.initialState)))).
Proof.
  split.
  - intros (calculateDistance & toLowerCase & Hexcluded).
    apply (Hexcluded provider_no_coordinate); [|done].
    rewrite (proj1 (loadProviders_without_location calculateDistance)).
    apply list_elem_of_singleton. reflexivity.
  - intros calculateDistance toLowerCase Hzero. simpl.
    unfold HomeScreen.filtered. simpl.
    unfold HomeScreen.loadProviders. simpl. rewrite Hzero.
    apply list_elem_of_singleton. reflexivity.
Qed.

(** A record with a latitude and no longitude keeps its latitude on the
    list screen and takes the default longitude; the map screen skips it. *)
Example latitude_only_listed calculateDistance :
  HomeScreen.loadProviders calculateDistance None [user_latitude_only]
  = [Provider.mk (Some "p4") "Davi" None "Pedreiro" "Lapa" 0 0 "disponivel"
                 10 (-43.1729) None]
  ∧ MapScreen.loadProviders calculateDistance None 5 [user_latitude_only]
    = [].
Proof. split; reflexivity. Qed.

Lemma missing_coordinate_witness :
  MapScreen.loadProviders distance_example (Some rio) 5 [user_latitude_only]
  = MapScreen.loadProviders distance_example (Some rio) 5 [].
Proof.
  exact (proj1 (missing_coordinate distance_example lowerLatin1
                  user_latitude_only eq_refl)
               (Some rio) 5%float [] []).
Defined.

Lemma filterProviders_filters_witness :
  HomeScreen.filteredProviders
    (HomeScreen.filterProviders lowerLatin1
       (HomeScreen.mkState [provider_no_coordinate; provider_near] []
                           "encanador" "" "" None 5))
  = [provider_no_coordinate].
Proof.
  exact (proj1 (proj2 (proj2 (proj2
           (filterProviders_filters lowerLatin1
              (HomeScreen.mkState [provider_no_coordinate; provider_near] []
                                  "encanador" "" "" None 5)
              (λ s _, eq_refl)))))
           provider_no_coordinate provider_near
           eq_refl eq_refl eq_refl eq_refl eq_refl eq_refl eq_refl).
Defined.

End DiscoveryExamples.

(** * Further properties *)

(** ** The notification feed: order, size, read flags *)

Section FeedFacts.
Import NotificationButton NotificationSpec Scenarios.

#[local] Instance newestFirst_trans : Transitive newestFirst.
Proof. intros a b c. unfold newestFirst. lia. Qed.

Lemma sort_newestFirst feed :
  StronglySorted newestFirst (Js.sort byTimestampDesc feed).
Proof.
  apply sort_StronglySorted; [apply _|..];
    unfold byTimestampDesc, newestFirst; intros x y.
  - intros ?%Z.ltb_lt. lia.
  - intros ?%Z.ltb_ge. lia.
Qed.

(** X1: whatever the listeners deliver and whatever is marked, the feed is
    ordered by timestamp, most recent first. *)
Theorem feed_newest_first :
  ∀ (uid : string) (actions : list Action),
    StronglySorted newestFirst (notifications (run uid actions initialState)).
Proof.
  intros uid actions. unfold run.
  assert (StronglySorted newestFirst (notifications initialState)) as Hst
    by constructor.
  revert Hst. generalize initialState.
  induction actions as [|a actions IH]; intros st Hst; simpl; [done|].
  apply IH. destruct a; simpl.
  - apply sort_newestFirst.
  - apply sort_newestFirst.
  - eapply StronglySorted_fmap; [|exact Hst].
    intros x y. unfold newestFirst. by destruct (String.eqb _ _), (String.eqb _ _).
  - eapply StronglySorted_fmap; [|exact Hst]. done.
Qed.

(** *** Read flags after a snapshot *)

Lemma read_onChatsSnapshot uid snapshot st n :
  n ∈ notifications (onChatsSnapshot uid snapshot st) →
  (type n = Message ∧ read n = false)
  ∨ (type n ≠ Message ∧ n ∈ notifications st).
Proof.
  intros Hn.
  apply (elem_of_Permutation_proper _ _ _
           (notifications_onChatsSnapshot uid snapshot st)) in Hn.
  apply elem_of_app in Hn as [Hn|Hn].
  - left. apply list_elem_of_omap in Hn as (doc & _ & Hn).
    unfold ofChat in Hn. destruct (_ && _); [|done].
    by injection Hn as <-.
  - right. by apply list_elem_of_filter in Hn.
Qed.

Lemma read_onReviewsSnapshot snapshot st n :
  n ∈ notifications (onReviewsSnapshot snapshot st) →
  (type n = Review ∧ read n = false)
  ∨ (type n ≠ Review ∧ n ∈ notifications st).
Proof.
  intros Hn.
  apply (elem_of_Permutation_proper _ _ _
           (notifications_onReviewsSnapshot snapshot st)) in Hn.
  apply elem_of_app in Hn as [Hn|Hn].
  - left. by apply list_elem_of_fmap in Hn as (doc & -> & _).
  - right. by apply list_elem_of_filter in Hn.
Qed.

Lemma countUnread_Permutation feed feed' :
  feed ≡ₚ feed' → countUnread feed = countUnread feed'.
Proof. intros Hp. unfold countUnread. by rewrite Hp. Qed.

Lemma countUnread_app feed feed' :
  countUnread (feed ++ feed') = countUnread feed + countUnread feed'.
Proof. unfold countUnread. by rewrite filter_app, length_app. Qed.

Lemma countUnread_all_unread feed :
  Forall (λ n, read n = false) feed → countUnread feed = length feed.
Proof. intros Hall. unfold countUnread. by rewrite filter_all. Qed.

Lemma countUnread_all_read feed :
  Forall (λ n, read n = true) feed → countUnread feed = 0.
Proof.
  intros Hall. unfold countUnread. rewrite filter_none; [done|].
  eapply Forall_impl; [exact Hall|]. by intros n ->.
Qed.

(** X2: a snapshot brings its events in unread, whatever was marked before:
    after a chats snapshot every Message event of the feed is unread, after
    a reviews snapshot every Review event is; the events of the other kinds
    are those the feed had, read flags included.  So a snapshot that follows
    [markAllAsRead] takes the unread count from 0 to the number of events it
    brings. *)
Theorem snapshot_resets_read :
  ∀ (uid : string) (st : State)
    (chatsSnapshot : list (Firestore.Doc Firestore.ChatData))
    (reviewsSnapshot : list (Firestore.Doc ReviewData)),
    (∀ n, n ∈ notifications (onChatsSnapshot uid chatsSnapshot st) →
          (type n = Message ∧ read n = false)
          ∨ (type n ≠ Message ∧ n ∈ notifications st))
    ∧ (∀ n, n ∈ notifications (onReviewsSnapshot reviewsSnapshot st) →
            (type n = Review ∧ read n = false)
            ∨ (type n ≠ Review ∧ n ∈ notifications st))
    ∧ unreadCount (onChatsSnapshot uid chatsSnapshot (markAllAsRead st))
      = length (messageNotifications uid chatsSnapshot)
    ∧ unreadCount (onReviewsSnapshot reviewsSnapshot (markAllAsRead st))
      = length reviewsSnapshot.
Proof.
  intros uid st chatsSnapshot reviewsSnapshot.
  assert (∀ P : Notification → Prop, ∀ `{!∀ n, Decision (P n)},
            countUnread (filter P (notifications (markAllAsRead st))) = 0)
    as Hread.
  { intros P ?. apply countUnread_all_read, Forall_forall.
    intros n [_ Hn]%list_elem_of_filter. simpl in Hn.
    by apply list_elem_of_fmap in Hn as (n' & -> & _). }
  split_and!.
  - apply read_onChatsSnapshot.
  - apply read_onReviewsSnapshot.
  - unfold onChatsSnapshot. rewrite unreadCount_setNotifications.
    fold (onChatsSnapshot uid chatsSnapshot (markAllAsRead st)).
    rewrite (countUnread_Permutation _ _
               (notifications_onChatsSnapshot uid chatsSnapshot _)).
    rewrite countUnread_app, Hread, Nat.add_0_r, messageNotifications_omap.
    apply countUnread_all_unread, Forall_forall.
    intros n (doc & _ & Hn)%list_elem_of_omap.
    unfold ofChat in Hn. destruct (_ && _); [|done]. by injection Hn as <-.
  - unfold onReviewsSnapshot. rewrite unreadCount_setNotifications.
    fold (onReviewsSnapshot reviewsSnapshot (markAllAsRead st)).
    rewrite (countUnread_Permutation _ _
               (notifications_onReviewsSnapshot reviewsSnapshot _)).
    rewrite countUnread_app, Hread, Nat.add_0_r.
    rewrite countUnread_all_unread, length_fmap; [done|].
    apply Forall_fmap, Forall_true. done.
Qed.

(** *** The size of the feed *)

Lemma length_by_kind feed :
  length feed
  = length (eventsOf Message feed) + length (eventsOf Review feed)
    + length (eventsOf Service feed).
Proof.
  unfold eventsOf. induction feed as [|n feed IH]; [done|].
  destruct (type n) eqn:Hn.
  - rewrite (filter_cons_True (λ n, type n = Message)) by done.
    rewrite !filter_cons_False by (rewrite Hn; done). simpl. lia.
  - rewrite (filter_cons_True (λ n, type n = Review)) by done.
    rewrite !filter_cons_False by (rewrite Hn; done). simpl. lia.
  - rewrite (filter_cons_True (λ n, type n = Service)) by done.
    rewrite !filter_cons_False by (rewrite Hn; done). simpl. lia.
Qed.

Lemma length_omap_le {A B : Type} (f : A → option B) (l : list A) :
  length (omap f l) ≤ length l.
Proof.
  induction l as [|x l IH]; [done|].
  change (omap f (x :: l))
    with (match f x with Some y => y :: omap f l | None => omap f l end).
  destruct (f x); simpl; lia.
Qed.

Lemma eventsOf_fmap_read kind (f : Notification → Notification) feed :
  (∀ n, type (f n) = type n) →
  length (eventsOf kind (f <$> feed)) = length (eventsOf kind feed).
Proof.
  intros Hf. unfold eventsOf. induction feed as [|n feed IH]; [done|].
  rewrite fmap_cons. destruct (decide (type n = kind)) as [Hn|Hn].
  - rewrite !filter_cons_True by (by rewrite ?Hf). simpl. by rewrite IH.
  - rewrite !filter_cons_False by (by rewrite ?Hf). done.
Qed.

Lemma Bounded_apply uid a st :
  withinLimits a → Bounded (notifications st) →
  Bounded (notifications (apply uid a st)).
Proof.
  intros Hlim (Hm & Hr & Hs). unfold Bounded.
  destruct a as [snapshot|snapshot|nid|].
  - destruct (eventsOf_replaced Message (omap (ofChat uid) snapshot)
                (notifications st)
                (notifications (onChatsSnapshot uid snapshot st))
                (notifications_onChatsSnapshot _ _ _)
                (Forall_type_ofChat _ _)) as [Hown Hother].
    simpl apply. rewrite Hown, !Hother by done. split_and!; [|done..].
    etrans; [apply length_omap_le|done].
  - destruct (eventsOf_replaced Review (ofReview <$> snapshot)
                (notifications st)
                (notifications (onReviewsSnapshot snapshot st))
                (notifications_onReviewsSnapshot _ _)
                (Forall_type_ofReview _)) as [Hown Hother].
    simpl apply. rewrite Hown, !Hother by done. split_and!; [done| |done].
    by rewrite length_fmap.
  - simpl. rewrite !eventsOf_fmap_read; [done|..];
      intros n; by destruct (String.eqb _ _).
  - simpl. by rewrite !eventsOf_fmap_read.
Qed.

Lemma run_snoc uid actions a st :
  run uid (actions ++ [a]) st = apply uid a (run uid actions st).
Proof. unfold run. by rewrite foldl_snoc. Qed.

Lemma unreadCount_run uid actions :
  unreadCount (run uid actions initialState)
  = countUnread (notifications (run uid actions initialState)).
Proof.
  destruct actions as [|a actions _] using rev_ind; [done|].
  rewrite run_snoc.
  destruct (apply_setNotifications uid a (run uid actions initialState))
    as [update ->].
  apply unreadCount_setNotifications.
Qed.

(** X3: as long as the snapshots keep to the limits of their queries, ten
    chats and five reviews, the feed holds at most fifteen events and none of
    the kind Service; the unread count is at most fifteen, and the badge
    never reads [99+]. *)
Theorem feed_at_most_fifteen :
  ∀ (uid : string) (actions : list Action),
    Forall withinLimits actions →
    let st := run uid actions initialState in
    Forall (λ n, type n ≠ Service) (notifications st)
    ∧ length (notifications st) ≤ 15
    ∧ unreadCount st ≤ 15
    ∧ badge st ≠ Some "99+".
Proof.
  intros uid actions Hlim st.
  assert (Bounded (notifications st)) as (Hm & Hr & Hs).
  { subst st. induction actions as [|a actions IH] using rev_ind.
    - unfold Bounded, eventsOf. simpl. lia.
    - apply Forall_app in Hlim as [Hlim Ha].
      rewrite Forall_singleton in Ha.
      rewrite run_snoc. apply Bounded_apply; [done|by apply IH]. }
  assert (length (notifications st) ≤ 15) as Hlen.
  { rewrite length_by_kind. lia. }
  assert (unreadCount st ≤ 15) as Hunread.
  { subst st. rewrite unreadCount_run. unfold countUnread.
    etrans; [apply length_filter|done]. }
  split_and!; [|done|done|].
  - apply Forall_forall. intros n Hn Hty.
    apply length_zero_iff_nil in Hs.
    eapply (filter_nil_not_elem_of (λ n, type n = Service)); done.
  - unfold badge. destruct (0 <? unreadCount st)%nat; [|done].
    destruct (99 <? unreadCount st)%nat eqn:Hbig; [|intros [= Heq]].
    + apply Nat.ltb_lt in Hbig. lia.
    + revert Heq. generalize (unreadCount st) Hunread. intros k Hk.
      do 16 (destruct k as [|k]; [by vm_compute|]). lia.
Qed.

(** *** Marking *)

Lemma setNotifications_compose f g st :
  setNotifications f (setNotifications g st) = setNotifications (f ∘ g) st.
Proof. done. Qed.

Lemma setNotifications_ext f g st :
  f (notifications st) = g (notifications st) →
  setNotifications f st = setNotifications g st.
Proof. unfold setNotifications. by intros ->. Qed.

Lemma withReadTrue_idemp n : withReadTrue (withReadTrue n) = withReadTrue n.
Proof. done. Qed.

(** X4: marking composes as expected: [markAsRead] is idempotent, two
    [markAsRead] commute, and [markAllAsRead] absorbs every marking made
    before or after it. *)
Theorem marking_composes :
  ∀ (a b : string) (st : State),
    markAsRead a (markAsRead a st) = markAsRead a st
    ∧ markAsRead a (markAsRead b st) = markAsRead b (markAsRead a st)
    ∧ markAllAsRead (markAsRead a st) = markAllAsRead st
    ∧ markAsRead a (markAllAsRead st) = markAllAsRead st
    ∧ markAllAsRead (markAllAsRead st) = markAllAsRead st.
Proof.
  intros a b st. unfold markAsRead, markAllAsRead.
  rewrite !setNotifications_compose.
  split_and!; apply setNotifications_ext; simpl;
    rewrite <- ?list_fmap_compose; apply list_fmap_ext; intros i n _; simpl.
  - destruct (String.eqb (id n) a) eqn:Ha; simpl; by rewrite Ha.
  - destruct (String.eqb (id n) a) eqn:Ha, (String.eqb (id n) b) eqn:Hb;
      simpl; by rewrite ?Ha, ?Hb.
  - by destruct (String.eqb (id n) a).
  - by destruct (String.eqb (id n) a).
  - done.
Qed.

Lemma WellNamed_key n n' :
  WellNamed n → WellNamed n' → id n = id n' → key n = key n'.
Proof.
  intros [(c & Hid & ->)|(r & Hid & ->)] [(c' & Hid' & ->)|(r' & Hid' & ->)];
    rewrite Hid, Hid'; intros Heq; try done.
  - by apply (inj (String.append "message-")) in Heq as ->.
  - by apply (inj (String.append "review-")) in Heq as ->.
Qed.

Lemma Forall_filter_keep {A : Type} (P Q : A → Prop)
    `{!∀ x, Decision (Q x)} (l : list A) :
  Forall P l → Forall P (filter Q l).
Proof.
  rewrite !Forall_forall. intros Hl x [_ Hx]%list_elem_of_filter. auto.
Qed.

Lemma WellNamed_apply uid a st :
  Forall WellNamed (notifications st) →
  Forall WellNamed (notifications (apply uid a st)).
Proof.
  intros Hst. destruct a as [snapshot|snapshot|nid|].
  - rewrite (notifications_onChatsSnapshot uid snapshot st).
    apply Forall_app. split; [|by apply Forall_filter_keep].
    apply Forall_forall. intros n (doc & _ & Hn)%list_elem_of_omap.
    left. exists (Firestore.id doc). split; [|by eapply key_ofChat].
    unfold ofChat in Hn. destruct (_ && _); [|done]. by injection Hn as <-.
  - rewrite (notifications_onReviewsSnapshot snapshot st).
    apply Forall_app. split; [|by apply Forall_filter_keep].
    apply Forall_fmap, Forall_true. intros doc. right. by eexists.
  - simpl. apply Forall_fmap. eapply Forall_impl; [exact Hst|].
    intros n Hn. simpl. by destruct (String.eqb _ _).
  - simpl. apply Forall_fmap. eapply Forall_impl; [exact Hst|]. done.
Qed.

Lemma NoDup_id_run uid actions :
  Forall wellFormed actions →
  NoDup (id <$> notifications (run uid actions initialState)).
Proof.
  intros Hwf.
  assert (Forall WellNamed (notifications (run uid actions initialState)))
    as Hnamed.
  { clear Hwf. induction actions as [|a actions IH] using rev_ind.
    - constructor.
    - rewrite run_snoc. by apply WellNamed_apply. }
  assert (NoDup (key <$> notifications (run uid actions initialState)))
    as Hkey.
  { apply NoDup_key_run; [done|]. simpl. constructor. }
  revert Hnamed Hkey.
  generalize (notifications (run uid actions initialState)).
  induction l as [|n l IH]; simpl; [constructor|].
  intros [Hn Hl]%Forall_cons [Hnew Hkey]%NoDup_cons.
  apply NoDup_cons. split; [|auto].
  intros (n' & Heq & Hn')%list_elem_of_fmap. apply Hnew.
  rewrite Forall_forall in Hl.
  rewrite (WellNamed_key n n' Hn (Hl _ Hn') Heq).
  by apply list_elem_of_fmap_2.
Qed.

Lemma countUnread_cons n feed :
  countUnread (n :: feed)
  = (if read n then 0 else 1) + countUnread feed.
Proof.
  unfold countUnread. destruct (read n) eqn:Hn.
  - by rewrite filter_cons_False by (by rewrite Hn).
  - by rewrite filter_cons_True.
Qed.

Lemma markAsRead_absent nid (feed : list Notification) :
  (∀ n, n ∈ feed → id n = nid → read n = true) →
  (λ n, if String.eqb (id n) nid then withReadTrue n else n) <$> feed = feed.
Proof.
  intros Hread. rewrite <- (list_fmap_id feed) at 2.
  apply list_fmap_ext. intros i n Hn%list_elem_of_lookup_2.
  destruct (String.eqb_spec (id n) nid) as [Heq|]; [|done].
  specialize (Hread n Hn Heq). destruct n; simpl in *. by subst.
Qed.

(** X5: in a feed reached through snapshots with pairwise different document
    ids, [markAsRead] on the id of an unread event takes the unread count
    down by exactly one; on the id of a read event, or on an id that no
    event has, it changes nothing at all. *)
Theorem markAsRead_counts_one :
  ∀ (uid : string) (actions : list Action) (notificationId : string),
    Forall wellFormed actions →
    let st := run uid actions initialState in
    (∀ n, n ∈ notifications st → id n = notificationId → read n = false →
          unreadCount st = S (unreadCount (markAsRead notificationId st)))
    ∧ ((∀ n, n ∈ notifications st → id n = notificationId →
             read n = true) →
       markAsRead notificationId st = st).
Proof.
  intros uid actions nid Hwf st.
  pose proof (NoDup_id_run uid actions Hwf) as Hnd.
  pose proof (unreadCount_run uid actions) as Hcount.
  fold st in Hnd, Hcount. clearbody st. split.
  - intros n Hn Hid Hread. unfold markAsRead.
    rewrite unreadCount_setNotifications, Hcount. simpl.
    clear Hcount. revert Hnd Hn.
    generalize (notifications st). clear st.
    induction l as [|m l IH]; [by intros _ ?%elem_of_nil|].
    rewrite !fmap_cons. intros [Hnew Hnd]%NoDup_cons [<-|Hn]%elem_of_cons.
    + rewrite Hid, String.eqb_refl, !countUnread_cons, Hread. simpl.
      rewrite markAsRead_absent; [done|].
      intros n' Hn' Heq. destruct Hnew. rewrite Hid, <- Heq.
      by apply list_elem_of_fmap_2.
    + rewrite !countUnread_cons.
      destruct (String.eqb_spec (id m) nid) as [Heq|Hne].
      * destruct Hnew. rewrite Heq, <- Hid. by apply list_elem_of_fmap_2.
      * rewrite (IH Hnd Hn). lia.
  - intros Hread. unfold markAsRead, setNotifications.
    rewrite (markAsRead_absent _ _ Hread).
    destruct st as [feed modal count]. simpl in *. rewrite Hcount.
    f_equal. unfold countUnread. f_equal.
    apply list_filter_iff. intros n. by destruct (read n).
Qed.

Lemma markAsRead_counts_one_witness :
  unreadCount
    (run "u1" [ChatsSnapshot [chat_c1]; ReviewsSnapshot [review_r1_first]]
         initialState)
  = S (unreadCount
         (markAsRead "message-c1"
            (run "u1"
                 [ChatsSnapshot [chat_c1]; ReviewsSnapshot [review_r1_first]]
                 initialState))).
Proof.
  refine (proj1 (markAsRead_counts_one "u1"
                   [ChatsSnapshot [chat_c1]; ReviewsSnapshot [review_r1_first]]
                   "message-c1" _)
                (mkNotification "message-c1" Message "Nova mensagem de Bia"
                                "oi" 5 false (Some (ChatId "c1")))
                _ eq_refl eq_refl).
  - constructor; [apply NoDup_singleton|].
    constructor; [apply NoDup_singleton|constructor].
  - vm_compute. apply elem_of_cons. right. apply elem_of_cons. by left.
Defined.

Lemma feed_at_most_fifteen_witness :
  badge (run "u1" [ChatsSnapshot [chat_c1]; ReviewsSnapshot [review_r1_first]]
             initialState)
  ≠ Some "99+".
Proof.
  refine (proj2 (proj2 (proj2 (feed_at_most_fifteen "u1"
            [ChatsSnapshot [chat_c1]; ReviewsSnapshot [review_r1_first]] _)))).
  constructor; [simpl; lia|]. constructor; [simpl; lia|constructor].
Defined.

(** *** Relative times *)

(** X6: [formatTime] reads [Agora] for every event less than a minute old,
    an event dated in the future included; from one minute on it gives the
    whole minutes, between 1 and 59; from one hour on the whole hours, between
    1 and 23; from one day on the whole days. *)
Theorem formatTime_thresholds :
  ∀ (now date : Z),
    ((now - date < 60000)%Z → formatTime now date = "Agora")
    ∧ ((60000 ≤ now - date < 3600000)%Z →
       formatTime now date = pretty ((now - date) / 60000)%Z +:+ "m"
       ∧ (1 ≤ (now - date) / 60000 ≤ 59)%Z)
    ∧ ((3600000 ≤ now - date < 86400000)%Z →
       formatTime now date = pretty ((now - date) / 3600000)%Z +:+ "h"
       ∧ (1 ≤ (now - date) / 3600000 ≤ 23)%Z)
    ∧ ((86400000 ≤ now - date)%Z →
       formatTime now date = pretty ((now - date) / 86400000)%Z +:+ "d"
       ∧ (1 ≤ (now - date) / 86400000)%Z).
Proof.
  intros now date. unfold formatTime.
  generalize (now - date)%Z. intros diff.
  split_and!; intros Hdiff.
  - assert ((diff / 60000 <? 1)%Z = true) as ->; [|done].
    apply Z.ltb_lt. Z.div_mod_to_equations. lia.
  - assert ((diff / 60000 <? 1)%Z = false) as ->
      by (apply Z.ltb_ge; Z.div_mod_to_equations; lia).
    assert ((diff / 60000 <? 60)%Z = true) as ->
      by (apply Z.ltb_lt; Z.div_mod_to_equations; lia).
    split; [done|]. Z.div_mod_to_equations. lia.
  - assert ((diff / 60000 <? 1)%Z = false) as ->
      by (apply Z.ltb_ge; Z.div_mod_to_equations; lia).
    assert ((diff / 60000 <? 60)%Z = false) as ->
      by (apply Z.ltb_ge; Z.div_mod_to_equations; lia).
    assert ((diff / 3600000 <? 24)%Z = true) as ->
      by (apply Z.ltb_lt; Z.div_mod_to_equations; lia).
    split; [done|]. Z.div_mod_to_equations. lia.
  - assert ((diff / 60000 <? 1)%Z = false) as ->
      by (apply Z.ltb_ge; Z.div_mod_to_equations; lia).
    assert ((diff / 60000 <? 60)%Z = false) as ->
      by (apply Z.ltb_ge; Z.div_mod_to_equations; lia).
    assert ((diff / 3600000 <? 24)%Z = false) as ->
      by (apply Z.ltb_ge; Z.div_mod_to_equations; lia).
    split; [done|]. Z.div_mod_to_equations. lia.
Qed.

Example formatTime_examples :
  formatTime 1000000 1000500 = "Agora"
  ∧ formatTime 1000000 940001 = "Agora"
  ∧ formatTime 1000000 940000 = "1m"
  ∧ formatTime 100000000 96400001 = "59m"
  ∧ formatTime 100000000 96400000 = "1h"
  ∧ formatTime 100000000 13600000 = "1d".
Proof. vm_compute. done. Qed.

End FeedFacts.

(** ** Trimming *)

Section TextFacts.
Import JsString TextSpec.

Lemma append_assoc (s t u : string) : (s +:+ t) +:+ u = s +:+ (t +:+ u).
Proof. induction s as [|c s IH]; [done|]. by rewrite !append_cons, IH. Qed.

Lemma append_empty_r (s : string) : s +:+ "" = s.
Proof. induction s as [|c s IH]; [done|]. by rewrite append_cons, IH. Qed.

Lemma length_append (s t : string) :
  String.length (s +:+ t) = String.length s + String.length t.
Proof.
  induction s as [|c s IH]; [done|]. rewrite append_cons. simpl. by rewrite IH.
Qed.

Lemma rev_cons a (s : string) :
  String.rev (String a s) = String.rev s +:+ String a "".
Proof.
  unfold String.rev. simpl. generalize (String a "").
  induction s as [|b s IH]; intros t; [done|].
  simpl. rewrite (IH (String b t)), (IH (String b "")), append_assoc. done.
Qed.

Lemma rev_append (s t : string) :
  String.rev (s +:+ t) = String.rev t +:+ String.rev s.
Proof.
  induction s as [|a s IH]; [by rewrite append_nil, append_empty_r|].
  by rewrite append_cons, !rev_cons, IH, append_assoc.
Qed.

Lemma rev_involutive (s : string) : String.rev (String.rev s) = s.
Proof.
  induction s as [|a s IH]; [done|]. by rewrite rev_cons, rev_append, IH.
Qed.

Lemma runOf_impl (P Q : string → Prop) (s : string) :
  (∀ w, P w → Q w) → runOf P s → runOf Q s.
Proof. intros HPQ. induction 1; constructor; auto. Qed.

Lemma runOf_one (P : string → Prop) (w : string) : P w → runOf P w.
Proof.
  intros Hw. rewrite <- (append_empty_r w). by repeat constructor.
Qed.

Lemma runOf_append (P : string → Prop) (s t : string) :
  runOf P s → runOf P t → runOf P (s +:+ t).
Proof.
  intros Hs Ht. induction Hs as [|w s Hw Hs IH]; [done|].
  rewrite append_assoc. by constructor.
Qed.

Lemma runOf_rev (P : string → Prop) (s : string) :
  runOf (λ w, P (String.rev w)) s → runOf P (String.rev s).
Proof.
  induction 1 as [|w s Hw Hs IH]; [constructor|].
  rewrite rev_append. apply runOf_append; [done|by apply runOf_one].
Qed.

(** What [strip] removes, and where it stops. *)
Lemma strip_split remove (s : string) :
  ∃ pre, s = pre +:+ strip remove s ∧ runOf (λ w, remove w = true) pre.
Proof.
  assert (∀ n (s : string), String.length s ≤ n →
            ∃ pre, s = pre +:+ strip remove s
                   ∧ runOf (λ w, remove w = true) pre) as Hall.
  { clear s. induction n as [|n IH]; intros s Hn.
    { destruct s; [|simpl in Hn; lia]. exists "". split; [done|constructor]. }
    destruct s as [|a s1]; [exists ""; split; [done|constructor]|].
    simpl in Hn. cbn [strip].
    destruct (remove (String a "")) eqn:H1.
    { destruct (IH s1) as (pre & Hs & Hpre); [lia|].
      exists (String a "" +:+ pre). split; [|by constructor].
      by rewrite append_assoc, <- Hs. }
    destruct s1 as [|b s2]; [exists ""; split; [done|constructor]|].
    simpl in Hn.
    destruct (remove (String a (String b ""))) eqn:H2.
    { destruct (IH s2) as (pre & Hs & Hpre); [lia|].
      exists (String a (String b "") +:+ pre). split; [|by constructor].
      by rewrite append_assoc, <- Hs. }
    destruct s2 as [|c s3]; [exists ""; split; [done|constructor]|].
    simpl in Hn.
    destruct (remove (String a (String b (String c "")))) eqn:H3.
    { destruct (IH s3) as (pre & Hs & Hpre); [lia|].
      exists (String a (String b (String c "")) +:+ pre).
      split; [|by constructor]. by rewrite append_assoc, <- Hs. }
    exists "". split; [done|constructor]. }
  by apply (Hall (String.length s)).
Qed.

Lemma strip_head remove (s w t : string) :
  strip remove s = w +:+ t → 1 ≤ String.length w ≤ 3 → remove w = false.
Proof.
  assert (∀ n (s : string), String.length s ≤ n →
            strip remove s = w +:+ t → 1 ≤ String.length w ≤ 3 →
            remove w = false) as Hall.
  { clear s. induction n as [|n IH]; intros s Hn.
    { destruct s; [|simpl in Hn; lia]. destruct w; simpl; [lia|done]. }
    destruct s as [|a s1]; [destruct w; simpl; [lia|done]|].
    simpl in Hn. cbn [strip].
    destruct (remove (String a "")) eqn:H1; [apply IH; lia|].
    destruct s1 as [|b s2].
    { destruct w as [|x [|y w]]; simpl; [lia| |done].
      by intros [= <- _]. }
    simpl in Hn.
    destruct (remove (String a (String b ""))) eqn:H2; [apply IH; lia|].
    destruct s2 as [|c s3].
    { destruct w as [|x [|y [|z w]]]; simpl; [lia| | |done].
      - by intros [= <- _].
      - by intros [= <- <- _]. }
    simpl in Hn.
    destruct (remove (String a (String b (String c "")))) eqn:H3;
      [apply IH; lia|].
    destruct w as [|x [|y [|z [|? w]]]]; simpl; [lia| | | |lia].
    - by intros [= <- _].
    - by intros [= <- <- _].
    - by intros [= <- <- <- _]. }
  by apply (Hall (String.length s)).
Qed.

(** The white space of the language: one to three bytes each, none of them
    the start of another. *)
Lemma whiteSpace_cases (w : string) :
  w ∈ whiteSpace →
  (∃ a, w = String a "")
  ∨ (∃ a b, w = String a (String b "")
            ∧ isWhiteSpace (String a "") = false)
  ∨ (∃ a b c, w = String a (String b (String c ""))
              ∧ isWhiteSpace (String a "") = false
              ∧ isWhiteSpace (String a (String b "")) = false).
Proof.
  intros Hw. vm_compute in Hw.
  repeat (apply elem_of_cons in Hw as [->|Hw];
          [first [ left; by eexists
                 | right; left; eexists _, _; by vm_compute
                 | right; right; eexists _, _, _; by vm_compute ]|]).
  by apply elem_of_nil in Hw.
Qed.

Lemma whiteSpace_length (w : string) :
  w ∈ whiteSpace → 1 ≤ String.length w ≤ 3.
Proof.
  intros [[a ->]|[(a & b & -> & _)|(a & b & c & -> & _)]]%whiteSpace_cases;
    simpl; lia.
Qed.

Lemma whiteSpace_rev (w : string) :
  w ∈ whiteSpace → 1 ≤ String.length (String.rev w) ≤ 3.
Proof.
  intros [[a ->]|[(a & b & -> & _)|(a & b & c & -> & _)]]%whiteSpace_cases;
    vm_compute; lia.
Qed.

Lemma isWhiteSpace_true (w : string) : isWhiteSpace w = true ↔ w ∈ whiteSpace.
Proof. apply bool_decide_eq_true. Qed.

Lemma blank_append (s t : string) : blank s → blank t → blank (s +:+ t).
Proof. apply runOf_append. Qed.

Lemma trimStart_split (s : string) :
  ∃ pre, s = pre +:+ trimStart s ∧ blank pre.
Proof.
  destruct (strip_split isWhiteSpace s) as (pre & Hs & Hpre).
  exists pre. split; [done|].
  eapply runOf_impl; [|exact Hpre]. intros w. apply isWhiteSpace_true.
Qed.

Lemma trimStart_head (s w t : string) :
  w ∈ whiteSpace → trimStart s ≠ w +:+ t.
Proof.
  intros Hw Heq. apply strip_head in Heq; [|by apply whiteSpace_length].
  apply isWhiteSpace_true in Hw. congruence.
Qed.

Lemma trimEnd_split (s : string) :
  ∃ post, s = trimEnd s +:+ post ∧ blank post.
Proof.
  unfold trimEnd.
  destruct (strip_split (λ w, isWhiteSpace (String.rev w)) (String.rev s))
    as (pre & Hs & Hpre).
  exists (String.rev pre). split.
  - by rewrite <- rev_append, <- Hs, rev_involutive.
  - apply runOf_rev. eapply runOf_impl; [|exact Hpre].
    intros w. apply isWhiteSpace_true.
Qed.

Lemma trimEnd_last (s w t : string) :
  w ∈ whiteSpace → trimEnd s ≠ t +:+ w.
Proof.
  intros Hw Heq. unfold trimEnd in Heq.
  apply (f_equal String.rev) in Heq.
  rewrite rev_involutive, rev_append in Heq.
  apply strip_head in Heq; [|by apply whiteSpace_rev].
  rewrite rev_involutive in Heq.
  apply isWhiteSpace_true in Hw. congruence.
Qed.

Lemma trimStart_blank (s : string) : blank s → trimStart s = "".
Proof.
  unfold trimStart. induction 1 as [|w s Hw Hs IH]; [done|].
  pose proof Hw as Htrue%isWhiteSpace_true.
  destruct (whiteSpace_cases w Hw)
    as [[a ->]|[(a & b & -> & H1)|(a & b & c & -> & H1 & H2)]];
    rewrite !append_cons, append_nil; cbn [strip].
  - by rewrite Htrue.
  - by rewrite H1, Htrue.
  - by rewrite H1, H2, Htrue.
Qed.

Lemma trim_blank (s : string) : trim s = "" ↔ blank s.
Proof.
  unfold trim. split.
  - intros Hempty.
    destruct (trimStart_split s) as (pre & Hs & Hpre).
    destruct (trimEnd_split (trimStart s)) as (post & Ht & Hpost).
    rewrite Hempty, append_nil in Ht. rewrite Hs, Ht.
    by apply blank_append.
  - by intros ->%trimStart_blank.
Qed.

(** [trim] removes white space from both ends and nothing else. *)
Lemma trim_spec (s : string) :
  (∃ pre post, s = pre +:+ trim s +:+ post ∧ blank pre ∧ blank post)
  ∧ trimmed (trim s).
Proof.
  unfold trim. split.
  - destruct (trimStart_split s) as (pre & Hs & Hpre).
    destruct (trimEnd_split (trimStart s)) as (post & Ht & Hpost).
    exists pre, post. by rewrite <- Ht.
  - intros w Hw. split; intros t' Heq.
    + destruct (trimEnd_split (trimStart s)) as (post & Ht & _).
      rewrite Heq, append_assoc in Ht.
      by eapply trimStart_head.
    + by eapply trimEnd_last.
Qed.

Example trim_examples :
  trim (ofBytes [32; 9; 111; 105; 32; 10]) = "oi"
  ∧ trim (ofBytes [227; 128; 128; 194; 160]) = ""
  ∧ trim "Vou à " = "Vou à"
  ∧ trim (ofBytes [226; 128; 131; 97; 32; 98; 239; 187; 191]) = "a b"
  ∧ utf16Length "abcd€" = 5 ∧ utf16Length "à" = 1
  ∧ utf16Length (ofBytes [240; 159; 152; 128]) = 2.
Proof. vm_compute. done. Qed.

End TextFacts.

(** ** The conversation screen *)

Section ChatScreenFacts.
Import ChatDetailScreen Firestore ChatService ChatSpec JsString TextSpec.

Lemma sendMessage_appends chatId sender name text w r w' :
  sendMessage chatId sender name text w = (r, w') →
  messages w' = messages w
  ∨ ∃ r1, messages w'
          = appended chatId
              (mkDoc (autoId r1) (mkMessageData sender name text (clock w)))
              w.
Proof.
  rewrite sendMessage_cases.
  destruct (replies w) as [|r1 [|r2 rest]]; simpl.
  - intros [= <- <-]. by left.
  - destruct (ok r1); intros [= <- <-]; [right; by eexists|by left].
  - destruct (ok r1); [|intros [= <- <-]; by left].
    destruct (_ && _); intros [= <- <-]; right; by eexists.
Qed.

Lemma elem_of_getChatMessages c w m :
  m ∈ getChatMessages c w
  ↔ ∃ d, d ∈ Firestore.messages w !!! c ∧ m = toChatMessage c d.
Proof.
  rewrite getChatMessages_fmap, list_elem_of_fmap. unfold queryMessages.
  split; intros (d & ? & ?); exists d; by rewrite ?elem_of_sort in *.
Qed.

Lemma blank_trim (s : string) :
  ¬ blank s → Js.truthyString (trim s) = true ∧ trim s ≠ "".
Proof.
  intros Hs. destruct (trim s) eqn:Ht; [|done].
  by apply trim_blank in Ht.
Qed.

Lemma blank_dec (s : string) : blank s ∨ ¬ blank s.
Proof.
  rewrite <- trim_blank. destruct (decide (trim s = "")); auto.
Qed.

(** X7: [handleSendMessage] never throws.  With a draft that is blank, or
    without a user, a profile or a conversation id, it makes no request and
    leaves the store and the screen as they are.  Otherwise it hands the
    draft to [sendMessage] with the white space at both ends removed, a text
    that is not empty; it clears the draft exactly when [sendMessage]
    returns and keeps it when [sendMessage] throws; every message that the
    listeners of any conversation are handed afterwards was there before or
    is this one, and when the draft is cleared this one is among those of
    the conversation. *)
Theorem handleSendMessage_sends_trimmed :
  ∀ (id : option string) (user : option User)
    (userProfile : option UserProfile) (st : State) (w : World),
    ∃ st' w',
      handleSendMessage id user userProfile st w = (Ok st', w')
      ∧ ChatDetailScreen.messages st' = ChatDetailScreen.messages st
      ∧ (blank (newMessage st) ∨ user = None ∨ userProfile = None
         ∨ id = None ∨ id = Some "" →
         st' = st ∧ w' = w)
      ∧ (∀ chatId u p,
           id = Some chatId → chatId ≠ "" →
           user = Some u → userProfile = Some p →
           ¬ blank (newMessage st) →
           let text := trim (newMessage st) in
           text ≠ "" ∧ trimmed text
           ∧ (∃ pre post, newMessage st = pre +:+ text +:+ post
                          ∧ blank pre ∧ blank post)
           ∧ loading st' = false
           ∧ (sendMessage chatId (uid u) (displayName p) text w = (Ok tt, w')
              ∧ newMessage st' = ""
              ∨ sendMessage chatId (uid u) (displayName p) text w
                = (Throw, w')
                ∧ newMessage st' = newMessage st)
           ∧ (∀ c m,
                m ∈ getChatMessages c w' →
                m ∈ getChatMessages c w
                ∨ c = chatId ∧ ChatMessage.text m = text
                  ∧ ChatMessage.senderId m = uid u
                  ∧ ChatMessage.senderName m = displayName p)
           ∧ (newMessage st' = "" →
              ∃ m, m ∈ getChatMessages chatId w'
                   ∧ ChatMessage.text m = text
                   ∧ ChatMessage.senderId m = uid u)).
Proof.
  intros id user userProfile st w. unfold handleSendMessage.
  destruct (blank_dec (newMessage st)) as [Hblank|Hblank].
  { pose proof Hblank as Hempty%trim_blank. rewrite Hempty. simpl.
    exists st, w. split_and!; done. }
  destruct (blank_trim _ Hblank) as [Htruthy Hne]. rewrite Htruthy. simpl.
  destruct user as [u|]; simpl.
  2:{ exists st, w. split_and!; try done. }
  destruct userProfile as [p|]; simpl.
  2:{ exists st, w. split_and!; try done. }
  destruct id as [chatId|]; simpl.
  2:{ exists st, w. split_and!; try done. }
  destruct (Js.truthyString chatId) eqn:Hid; simpl.
  2:{ exists st, w. split_and!; try done. intros ? ? ? [= <-] Hne'.
      by destruct chatId. }
  unfold bind, tryCatch, ret. simpl.
  destruct (sendMessage chatId (uid u) (displayName p)
              (trim (newMessage st)) w) as [[[]|] w'] eqn:Hsend.
  - exists (mkState (ChatDetailScreen.messages st) "" false), w'.
    split_and!; try done.
    { intros [?|[?|[?|[?|[= ->]]]]]; done. }
    intros ? ? ? [= <-] _ [= <-] [= <-] _. simpl.
    split_and!; try done.
    + apply trim_spec.
    + apply trim_spec.
    + by left.
    + intros c m (d & Hd & ->)%elem_of_getChatMessages.
      apply messages_sendMessage in Hsend as Hw'.
      destruct (sendMessage_appends _ _ _ _ _ _ _ Hsend) as [Heq|[r1 Heq]].
      { left. apply elem_of_getChatMessages. exists d. by rewrite <- Heq. }
      rewrite Heq in Hd. unfold appended in Hd.
      destruct (decide (c = chatId)) as [->|Hc].
      * rewrite lookup_total_insert_eq in Hd.
        apply elem_of_insertDoc in Hd as [->|Hd]; [by right|].
        left. apply elem_of_getChatMessages. by exists d.
      * rewrite lookup_total_insert_ne in Hd by done.
        left. apply elem_of_getChatMessages. by exists d.
    + intros _. apply messages_sendMessage in Hsend
        as (r1 & r2 & rest & _ & Hm & _).
      eexists. split.
      * apply elem_of_getChatMessages. eexists. split; [|done].
        rewrite Hm. apply elem_of_insertDoc_new.
      * done.
  - exists (mkState (ChatDetailScreen.messages st) (newMessage st) false), w'.
    split_and!; try done.
    { intros [?|[?|[?|[?|[= ->]]]]]; done. }
    intros ? ? ? [= <-] _ [= <-] [= <-] _. simpl.
    split_and!; try done.
    + apply trim_spec.
    + apply trim_spec.
    + by right.
    + intros c m (d & Hd & ->)%elem_of_getChatMessages.
      destruct (sendMessage_appends _ _ _ _ _ _ _ Hsend) as [Heq|[r1 Heq]].
      { left. apply elem_of_getChatMessages. exists d. by rewrite <- Heq. }
      rewrite Heq in Hd. unfold appended in Hd.
      destruct (decide (c = chatId)) as [->|Hc].
      * rewrite lookup_total_insert_eq in Hd.
        apply elem_of_insertDoc in Hd as [->|Hd]; [by right|].
        left. apply elem_of_getChatMessages. by exists d.
      * rewrite lookup_total_insert_ne in Hd by done.
        left. apply elem_of_getChatMessages. by exists d.
    + intros Hnm. simpl in Hnm. destruct Hblank. rewrite Hnm. constructor.
Qed.

End ChatScreenFacts.

(** ** From a sent message to the bell *)

Section SendToFeedFacts.
Import ChatService ChatSpec NotificationSpec.

Lemma sendMessage_updated chatId sender name text w w' :
  sendMessage chatId sender name text w = (Firestore.Ok tt, w') →
  ∃ r1 rest,
    Firestore.replies w = r1 :: rest
    ∧ Firestore.chats w'
      = updated chatId text
          (Firestore.clock w + Z.of_N (Firestore.elapsed r1))
          (Firestore.chats w)
    ∧ chatId ∈ Firestore.id <$> Firestore.chats w'.
Proof.
  rewrite sendMessage_cases.
  destruct (Firestore.replies w) as [|r1 [|r2 rest]]; simpl; [done|..].
  { by destruct (Firestore.ok r1). }
  destruct (Firestore.ok r1); [|done].
  destruct (Firestore.ok r2); simpl; [|done].
  destruct (bool_decide _) eqn:Hin; [|done].
  apply bool_decide_eq_true in Hin.
  intros [= <-]. eexists _, _. split_and!; try done. simpl.
  by rewrite id_updated.
Qed.

Lemma countUnread_pos feed n :
  n ∈ feed → NotificationButton.read n = false → 0 < countUnread feed.
Proof.
  intros Hn Hread. unfold countUnread.
  assert (n ∈ filter (λ n, NotificationButton.read n = false) feed) as Hin
    by by apply list_elem_of_filter.
  destruct (filter _ feed); [by apply elem_of_nil in Hin|]. simpl. lia.
Qed.

(** X8: once [sendMessage] has returned with a text that is not empty, the
    conversation is in the store with that text as its last message, dated
    by the clock reading taken after the first write; and a chats snapshot
    that holds the conversation gives the component of whoever listens, the
    sender included, an unread message event with that text, that date and
    the name kept for the first participant other than the listener, so the
    unread count is positive and the badge is drawn. *)
Theorem sent_message_reaches_feed :
  ∀ (chatId sender name text : string) (w w' : Firestore.World)
    (d : Firestore.Doc Firestore.ChatData) (uid : string)
    (snapshot : list (Firestore.Doc Firestore.ChatData))
    (st : NotificationButton.State),
    sendMessage chatId sender name text w = (Firestore.Ok tt, w') →
    text ≠ "" →
    d ∈ Firestore.chats w' → Firestore.id d = chatId → d ∈ snapshot →
    chatId ∈ Firestore.id <$> Firestore.chats w'
    ∧ ∃ r1 rest,
        Firestore.replies w = r1 :: rest
        ∧ NotificationButton.mkNotification
            ("message-" +:+ chatId)
            NotificationButton.Message
            ("Nova mensagem de " +:+
               Js.orElse Js.truthyString
                 (Firestore.participantNames (Firestore.data d)
                    !! NotificationButton.propertyKey
                         (Js.find (λ p, negb (String.eqb p uid))
                            (Firestore.participants (Firestore.data d))))
                 "Usuário")
            text
            (Firestore.clock w + Z.of_N (Firestore.elapsed r1))
            false
            (Some (NotificationButton.ChatId chatId))
          ∈ NotificationButton.notifications
              (NotificationButton.onChatsSnapshot uid snapshot st)
        ∧ 0 < NotificationButton.unreadCount
                (NotificationButton.onChatsSnapshot uid snapshot st)
        ∧ NotificationButton.badge
            (NotificationButton.onChatsSnapshot uid snapshot st) ≠ None.
Proof.
  intros chatId sender name text w w' d uid snapshot st
    (r1 & rest & Hr & Hchats & Hin)%sendMessage_updated Htext Hd Hid Hsnap.
  split; [done|]. exists r1, rest. split; [done|].
  rewrite Hchats in Hd. apply elem_of_updated in Hd as [Hd _].
  destruct (Hd Hid) as [Hlast Htime].
  set (n := NotificationButton.mkNotification _ _ _ _ _ _ _).
  assert (n ∈ NotificationButton.notifications
                (NotificationButton.onChatsSnapshot uid snapshot st)) as Hn.
  { apply (elem_of_Permutation_proper _ _ _
             (notifications_onChatsSnapshot uid snapshot st)).
    apply elem_of_app. left. apply list_elem_of_omap. exists d.
    split; [done|]. unfold ofChat. rewrite Hlast, Htime, Hid. simpl.
    destruct text; [done|]. done. }
  assert (0 < NotificationButton.unreadCount
                (NotificationButton.onChatsSnapshot uid snapshot st)) as Hpos.
  { unfold NotificationButton.onChatsSnapshot.
    rewrite unreadCount_setNotifications. by eapply countUnread_pos. }
  split_and!; [done|done|].
  unfold NotificationButton.badge.
  destruct (0 <? _)%nat eqn:Hlt; [done|].
  apply Nat.ltb_ge in Hlt. lia.
Qed.

Lemma sent_message_reaches_feed_witness :
  ∃ w' d,
    sendMessage "c1" "u1" "Ana" "a" Scenarios.world_c1 = (Firestore.Ok tt, w')
    ∧ d ∈ Firestore.chats w'
    ∧ NotificationButton.badge
        (NotificationButton.onChatsSnapshot "u2" [d]
           NotificationButton.initialState) ≠ None.
Proof.
  eexists _, (Firestore.mkDoc "c1"
                (Firestore.mkChatData ["u1"; "u2"] ∅ (Some "a")
                                      (Some 1040%Z) 90)).
  assert (sendMessage "c1" "u1" "Ana" "a" Scenarios.world_c1
          = (Firestore.Ok tt,
             Firestore.mkWorld
               [Firestore.mkDoc "c1"
                  (Firestore.mkChatData ["u1"; "u2"] ∅ (Some "a")
                                        (Some 1040%Z) 90)]
               (appended "c1"
                  (Firestore.mkDoc "m2"
                     (Firestore.mkMessageData "u1" "Ana" "a" 1000))
                  Scenarios.world_c1)
               1075
               [Firestore.mkReply true 40 "m1"; Firestore.mkReply true 35 ""]))
    as Hsend by reflexivity.
  split; [exact Hsend|]. split; [apply list_elem_of_singleton; reflexivity|].
  refine (let H := sent_message_reaches_feed "c1" "u1" "Ana" "a"
                     Scenarios.world_c1 _
                     (Firestore.mkDoc "c1"
                        (Firestore.mkChatData ["u1"; "u2"] ∅ (Some "a")
                                              (Some 1040%Z) 90))
                     "u2" [_]
                     NotificationButton.initialState Hsend _ _ eq_refl _ in
          match H with
          | conj _ (ex_intro _ _ (ex_intro _ _ (conj _ (conj _ (conj _ Hb)))))
            => Hb
          end).
  - discriminate.
  - apply list_elem_of_singleton; reflexivity.
  - apply list_elem_of_singleton; reflexivity.
Defined.

End SendToFeedFacts.

(** ** Formatting the CPF and the telephone number *)

Section FormatFacts.
Import JsString TextSpec ProfileSetupScreen.

Lemma removeNonDigits_app (s t : string) :
  removeNonDigits (s +:+ t) = removeNonDigits s +:+ removeNonDigits t.
Proof.
  induction s as [|c s IH]; [done|]. rewrite append_cons. simpl.
  destruct (isDigit c); by rewrite ?append_cons, IH.
Qed.

Lemma allDigits_removeNonDigits (s : string) :
  allDigits (removeNonDigits s) = true.
Proof.
  induction s as [|c s IH]; [done|]. simpl.
  destruct (isDigit c) eqn:Hc; [|done]. simpl. by rewrite Hc.
Qed.

Lemma removeNonDigits_fixed (s : string) :
  allDigits s = true → removeNonDigits s = s.
Proof.
  induction s as [|c s IH]; [done|]. simpl.
  intros [-> Hs]%andb_prop. by rewrite IH.
Qed.

Lemma allDigits_app (s t : string) :
  allDigits (s +:+ t) = allDigits s && allDigits t.
Proof.
  induction s as [|c s IH]; [done|]. rewrite append_cons. simpl.
  rewrite IH. by destruct (isDigit c).
Qed.

Lemma takeDigits_sound n (s : string) group rest :
  takeDigits n s = Some (group, rest) →
  s = group +:+ rest ∧ allDigits group = true ∧ String.length group = n.
Proof.
  revert s group. induction n as [|n IH]; intros s group; simpl.
  { by intros [= <- <-]. }
  destruct s as [|c s]; [done|]. destruct (isDigit c) eqn:Hc; [|done].
  destruct (takeDigits n s) as [[g r]|] eqn:Htake; [|done].
  intros [= <- <-]. destruct (IH _ _ Htake) as (-> & Hg & Hlen).
  rewrite append_cons. simpl. by rewrite Hc, Hg, Hlen.
Qed.

Lemma takeDigits_complete n (s : string) :
  allDigits s = true → n ≤ String.length s →
  ∃ group rest, takeDigits n s = Some (group, rest).
Proof.
  revert s. induction n as [|n IH]; intros s Hs Hlen; simpl; [by eauto|].
  destruct s as [|c s]; simpl in *; [lia|].
  apply andb_prop in Hs as [-> Hs].
  destruct (IH s Hs) as (g & r & ->); [lia|]. eauto.
Qed.

Lemma takeGroups_sound sizes (s : string) groups rest :
  takeGroups sizes s = Some (groups, rest) →
  s = foldr String.append rest groups ∧ groupsOf sizes groups.
Proof.
  revert s groups. induction sizes as [|n sizes IH]; intros s groups; simpl.
  { intros [= <- <-]. split; [done|constructor]. }
  destruct (takeDigits n s) as [[g r]|] eqn:Htake; [|done].
  destruct (takeGroups sizes r) as [[gs r']|] eqn:Hgroups; [|done].
  intros [= <- <-].
  destruct (takeDigits_sound _ _ _ _ Htake) as (-> & Hg & Hlen).
  destruct (IH _ _ Hgroups) as (-> & Hgs).
  split; [done|]. by constructor.
Qed.

Lemma length_groups sizes groups rest :
  groupsOf sizes groups →
  String.length (foldr String.append rest groups)
  = sum_list sizes + String.length rest.
Proof.
  induction 1 as [|n g sizes groups [_ Hlen] _ IH]; [done|]. simpl.
  rewrite length_append, IH, Hlen. lia.
Qed.

Lemma takeGroups_complete sizes (s : string) :
  allDigits s = true → sum_list sizes ≤ String.length s →
  ∃ groups rest, takeGroups sizes s = Some (groups, rest).
Proof.
  revert s. induction sizes as [|n sizes IH]; intros s Hs Hlen; simpl in *;
    [by eauto|].
  destruct (takeDigits_complete n s Hs) as (g & r & Htake); [lia|].
  rewrite Htake.
  destruct (takeDigits_sound _ _ _ _ Htake) as (-> & Hg & Hn).
  rewrite allDigits_app, Hg in Hs. rewrite length_append in Hlen.
  destruct (IH r) as (gs & r' & ->); [done|lia|]. eauto.
Qed.

Lemma replaceGroups_short sizes replacement (s : string) :
  String.length s < sum_list sizes →
  replaceGroups sizes replacement s = s.
Proof.
  induction s as [|c s IH]; intros Hlen.
  - simpl. destruct (takeGroups sizes "") as [[gs r]|] eqn:Htake; [|done].
    apply takeGroups_sound in Htake as [Heq Hgs].
    apply (f_equal String.length) in Heq.
    rewrite (length_groups _ _ _ Hgs) in Heq. simpl in *. lia.
  - simpl in *.
    destruct (takeGroups sizes (String c s)) as [[gs r]|] eqn:Htake.
    + apply takeGroups_sound in Htake as [Heq Hgs].
      apply (f_equal String.length) in Heq.
      rewrite (length_groups _ _ _ Hgs) in Heq. simpl in *. lia.
    + rewrite IH; [done|lia].
Qed.

Lemma removeNonDigits_groups sizes groups rest :
  groupsOf sizes groups →
  removeNonDigits (foldr String.append rest groups)
  = foldr String.append (removeNonDigits rest) groups.
Proof.
  induction 1 as [|n g sizes groups [Hg _] _ IH]; [done|]. simpl.
  by rewrite removeNonDigits_app, IH, removeNonDigits_fixed.
Qed.

Lemma replaceGroups_match sizes replacement (s : string) groups rest :
  takeGroups sizes s = Some (groups, rest) →
  replaceGroups sizes replacement s = replacement groups +:+ rest.
Proof. intros Htake. destruct s; cbn [replaceGroups]; by rewrite Htake. Qed.

Lemma removeNonDigits_match sizes replacement (s : string) groups rest :
  (∀ groups, groupsOf sizes groups →
             removeNonDigits (replacement groups)
             = foldr String.append "" groups) →
  takeGroups sizes s = Some (groups, rest) →
  removeNonDigits (replacement groups +:+ rest) = removeNonDigits s.
Proof.
  intros Hrep [-> Hgs]%takeGroups_sound.
  rewrite removeNonDigits_app, (Hrep _ Hgs).
  rewrite (removeNonDigits_groups _ _ _ Hgs).
  clear. induction groups as [|g gs IH]; [done|]. simpl.
  by rewrite append_assoc, IH.
Qed.

Lemma removeNonDigits_replaceGroups sizes replacement (s : string) :
  (∀ groups, groupsOf sizes groups →
             removeNonDigits (replacement groups)
             = foldr String.append "" groups) →
  removeNonDigits (replaceGroups sizes replacement s) = removeNonDigits s.
Proof.
  intros Hrep. induction s as [|c s IH].
  - destruct (takeGroups sizes "") as [[gs r]|] eqn:Htake.
    + rewrite (replaceGroups_match _ _ _ _ _ Htake).
      by eapply removeNonDigits_match.
    + simpl. by rewrite Htake.
  - destruct (takeGroups sizes (String c s)) as [[gs r]|] eqn:Htake.
    + rewrite (replaceGroups_match _ _ _ _ _ Htake).
      by eapply removeNonDigits_match.
    + cbn [replaceGroups]. rewrite Htake. simpl.
      destruct (isDigit c); by rewrite IH.
Qed.

Lemma formatCPF_digits value :
  removeNonDigits (formatCPF value) = removeNonDigits value.
Proof.
  unfold formatCPF. rewrite removeNonDigits_replaceGroups.
  { apply removeNonDigits_fixed, allDigits_removeNonDigits. }
  intros groups Hgs.
  apply Forall2_cons_inv_l in Hgs as (g1 & gs & [H1 _] & Hgs & ->).
  apply Forall2_cons_inv_l in Hgs as (g2 & gs' & [H2 _] & Hgs & ->).
  apply Forall2_cons_inv_l in Hgs as (g3 & gs & [H3 _] & Hgs & ->).
  apply Forall2_cons_inv_l in Hgs as (g4 & gs' & [H4 _] & Hgs & ->).
  apply Forall2_nil_inv_l in Hgs as ->.
  rewrite !removeNonDigits_app, (removeNonDigits_fixed g1),
    (removeNonDigits_fixed g2), (removeNonDigits_fixed g3),
    (removeNonDigits_fixed g4) by done.
  simpl. by rewrite !append_nil, !append_empty_r.
Qed.

Lemma formatPhone_digits value :
  removeNonDigits (formatPhone value) = removeNonDigits value.
Proof.
  unfold formatPhone. rewrite removeNonDigits_replaceGroups.
  { apply removeNonDigits_fixed, allDigits_removeNonDigits. }
  intros groups Hgs.
  apply Forall2_cons_inv_l in Hgs as (g1 & gs & [H1 _] & Hgs & ->).
  apply Forall2_cons_inv_l in Hgs as (g2 & gs' & [H2 _] & Hgs & ->).
  apply Forall2_cons_inv_l in Hgs as (g3 & gs & [H3 _] & Hgs & ->).
  apply Forall2_nil_inv_l in Hgs as ->.
  rewrite !removeNonDigits_app, (removeNonDigits_fixed g1),
    (removeNonDigits_fixed g2), (removeNonDigits_fixed g3) by done.
  simpl. by rewrite !append_nil, !append_empty_r.
Qed.

(** X9: [formatCPF] and [formatPhone] keep the digits of the input, in
    their order, and nothing else of it; formatting a formatted value
    changes nothing; with fewer than eleven digits the result is the digits
    alone; from eleven digits on the first eleven are grouped as
    [ddd.ddd.ddd-dd], respectively [(dd) ddddd-dddd], and the digits beyond
    follow, so that eleven digits fill the 14, respectively 15, characters
    that the inputs accept. *)
Theorem format_keeps_digits :
  ∀ (value : string),
    (removeNonDigits (formatCPF value) = removeNonDigits value
     ∧ formatCPF (formatCPF value) = formatCPF value
     ∧ (String.length (removeNonDigits value) < 11 →
        formatCPF value = removeNonDigits value)
     ∧ (11 ≤ String.length (removeNonDigits value) →
        ∃ g1 g2 g3 g4 rest,
          removeNonDigits value = g1 +:+ g2 +:+ g3 +:+ g4 +:+ rest
          ∧ String.length g1 = 3 ∧ String.length g2 = 3
          ∧ String.length g3 = 3 ∧ String.length g4 = 2
          ∧ formatCPF value
            = g1 +:+ "." +:+ g2 +:+ "." +:+ g3 +:+ "-" +:+ g4 +:+ rest
          ∧ String.length (formatCPF value)
            = String.length (removeNonDigits value) + 3))
    ∧ (removeNonDigits (formatPhone value) = removeNonDigits value
       ∧ formatPhone (formatPhone value) = formatPhone value
       ∧ (String.length (removeNonDigits value) < 11 →
          formatPhone value = removeNonDigits value)
       ∧ (11 ≤ String.length (removeNonDigits value) →
          ∃ g1 g2 g3 rest,
            removeNonDigits value = g1 +:+ g2 +:+ g3 +:+ rest
            ∧ String.length g1 = 2 ∧ String.length g2 = 5
            ∧ String.length g3 = 4
            ∧ formatPhone value
              = "(" +:+ g1 +:+ ") " +:+ g2 +:+ "-" +:+ g3 +:+ rest
            ∧ String.length (formatPhone value)
              = String.length (removeNonDigits value) + 4)).
Proof.
  intros value. split.
  - split_and!.
    + apply formatCPF_digits.
    + unfold formatCPF at 1. rewrite formatCPF_digits. done.
    + intros Hlen. by apply replaceGroups_short.
    + intros Hlen. unfold formatCPF.
      destruct (takeGroups_complete [3; 3; 3; 2] (removeNonDigits value))
        as (gs & rest & Htake);
        [apply allDigits_removeNonDigits|simpl; lia|].
      apply takeGroups_sound in Htake as Hsound.
      destruct Hsound as [Heq Hgs].
      apply Forall2_cons_inv_l in Hgs as (g1 & gs1 & [_ H1] & Hgs & ->).
      apply Forall2_cons_inv_l in Hgs as (g2 & gs2 & [_ H2] & Hgs & ->).
      apply Forall2_cons_inv_l in Hgs as (g3 & gs3 & [_ H3] & Hgs & ->).
      apply Forall2_cons_inv_l in Hgs as (g4 & gs4 & [_ H4] & Hgs & ->).
      apply Forall2_nil_inv_l in Hgs as ->. simpl in Heq.
      exists g1, g2, g3, g4, rest. split_and!; try done.
      * destruct (removeNonDigits value); cbn [replaceGroups];
          rewrite Htake; by rewrite !append_assoc.
      * assert (replaceGroups [3; 3; 3; 2]
                  (λ groups, match groups with
                             | [g1; g2; g3; g4] =>
                                 g1 +:+ "." +:+ g2 +:+ "." +:+ g3 +:+ "-"
                                 +:+ g4
                             | _ => ""
                             end) (removeNonDigits value)
                = g1 +:+ "." +:+ g2 +:+ "." +:+ g3 +:+ "-" +:+ g4 +:+ rest)
          as ->.
        { destruct (removeNonDigits value); cbn [replaceGroups];
            rewrite Htake; by rewrite !append_assoc. }
        rewrite Heq, !length_append. simpl. lia.
  - split_and!.
    + apply formatPhone_digits.
    + unfold formatPhone at 1. rewrite formatPhone_digits. done.
    + intros Hlen. by apply replaceGroups_short.
    + intros Hlen. unfold formatPhone.
      destruct (takeGroups_complete [2; 5; 4] (removeNonDigits value))
        as (gs & rest & Htake);
        [apply allDigits_removeNonDigits|simpl; lia|].
      apply takeGroups_sound in Htake as Hsound.
      destruct Hsound as [Heq Hgs].
      apply Forall2_cons_inv_l in Hgs as (g1 & gs1 & [_ H1] & Hgs & ->).
      apply Forall2_cons_inv_l in Hgs as (g2 & gs2 & [_ H2] & Hgs & ->).
      apply Forall2_cons_inv_l in Hgs as (g3 & gs3 & [_ H3] & Hgs & ->).
      apply Forall2_nil_inv_l in Hgs as ->. simpl in Heq.
      exists g1, g2, g3, rest. split_and!; try done.
      * destruct (removeNonDigits value); cbn [replaceGroups];
          rewrite Htake; by rewrite !append_assoc.
      * assert (replaceGroups [2; 5; 4]
                  (λ groups, match groups with
                             | [g1; g2; g3] =>
                                 "(" +:+ g1 +:+ ") " +:+ g2 +:+ "-" +:+ g3
                             | _ => ""
                             end) (removeNonDigits value)
                = "(" +:+ g1 +:+ ") " +:+ g2 +:+ "-" +:+ g3 +:+ rest)
          as ->.
        { destruct (removeNonDigits value); cbn [replaceGroups];
            rewrite Htake; by rewrite !append_assoc. }
        rewrite Heq, !length_append. simpl. lia.
Qed.

Example format_examples :
  formatCPF "12345678901" = "123.456.789-01"
  ∧ formatCPF "123.456.789-0" = "1234567890"
  ∧ formatCPF "123.456.789-012" = "123.456.789-012"
  ∧ formatPhone "21987654321" = "(21) 98765-4321"
  ∧ formatPhone "2133334444" = "2133334444".
Proof. vm_compute. done. Qed.

End FormatFacts.

(** ** The search radius, saved and read back *)

Section RadiusFacts.
Import JsString TextSpec SearchFilters SearchRadius.

Lemma parseInt_toString (r : Z) :
  (1 ≤ r ≤ 50)%Z →
  Js.truthyString (pretty r) = true ∧ parseInt (pretty r) = Int r.
Proof.
  intros Hr.
  assert (forallb (λ r, Js.truthyString (pretty r)
                        && bool_decide (parseInt (pretty r) = Int r))
                  (seqZ 1 50) = true) as Hall by (vm_compute; reflexivity).
  rewrite forallb_forall in Hall.
  assert (In r (seqZ 1 50)) as Hin
    by (apply list_elem_of_In, elem_of_seqZ; lia).
  apply Hall, andb_prop in Hin as [Htruthy Hparse].
  by apply bool_decide_eq_true in Hparse.
Qed.

Lemma between_Int lo hi x :
  between lo hi x = true ↔ ∃ r, x = Int r ∧ (lo ≤ r ≤ hi)%Z.
Proof.
  destruct x as [|n]; simpl.
  - split; [done|]. by intros (r & ? & _).
  - rewrite andb_true_iff, !Z.leb_le. split.
    + intros ?. by exists n.
    + by intros (r & [= ->] & ?).
Qed.

(** X10: [handleRadiusChange] either changes nothing, or saves a radius: a
    whole number from 1 to 50, the value of the text of the dialog, which it
    hands to [onRadiusChange], stores in decimal under [searchRadius] and
    which [loadSearchRadius] reads back as the same number on the next
    start, whatever the radius was before.  The text input of the dialog
    only ever takes the digits of what is typed, and only when they are
    empty or the decimal of a number from 1 to 50; after it has taken a text
    that is not empty, after any option of the dialog is pressed, and
    right after the dialog is opened on a radius from 1 to 50,
    [handleRadiusChange] saves that radius if the storage accepts it. *)
Theorem radius_saved_reads_back :
  ∀ (storage : Storage) (st : State),
    (∀ setItem,
       let out := handleRadiusChange setItem storage st in
       match radiusChanged out with
       | Some radius =>
           ∃ r, radius = Int r ∧ (1 ≤ r ≤ 50)%Z
                ∧ parseInt (tempRadius st) = Int r
                ∧ setItem = true
                ∧ SearchFilters.storage out
                  = <["searchRadius" := pretty r]> storage
                ∧ SearchFilters.state out = setShowRadiusModal false st
                ∧ ∀ searchRadius,
                    loadSearchRadius true (SearchFilters.storage out)
                                     searchRadius
                    = Int r
       | None =>
           SearchFilters.storage out = storage
           ∧ SearchFilters.state out = st
           ∧ (setItem = false
              ∨ between 1 50 (parseInt (tempRadius st)) = false)
       end)
    ∧ (∀ text,
         let st' := changeRadiusText text st in
         st' = st
         ∨ st' = setTempRadius (removeNonDigits text) st
           ∧ (removeNonDigits text = ""
              ∨ ∃ r, parseInt (removeNonDigits text) = Int r
                     ∧ (1 ≤ r ≤ 50)%Z
                     ∧ radiusChanged (handleRadiusChange true storage st')
                       = Some (Int r)))
    ∧ (∀ radius,
         radius ∈ radiusOptions →
         radiusChanged
           (handleRadiusChange true storage (pressRadiusOption radius st))
         = Some radius)
    ∧ (∀ r,
         (1 ≤ r ≤ 50)%Z →
         radiusChanged
           (handleRadiusChange true storage (openRadiusModal (Int r) st))
         = Some (Int r)).
Proof.
  intros storage st. split_and!.
  - intros setItem. unfold handleRadiusChange.
    destruct (between 1 50 (parseInt (tempRadius st))) eqn:Hin; simpl.
    2:{ split_and!; try done. by right. }
    destruct setItem; simpl.
    2:{ split_and!; try done. by left. }
    apply between_Int in Hin as (r & Hr & Hrange). rewrite Hr.
    cbn [radiusChanged SearchFilters.storage SearchFilters.state toString].
    exists r. split_and!; try done; try lia.
    intros searchRadius. unfold loadSearchRadius.
    rewrite lookup_insert_eq.
    destruct (parseInt_toString r Hrange) as [Htruthy Hparse].
    unfold Js.truthy. by rewrite Htruthy.
  - intros text. unfold changeRadiusText.
    destruct (String.eqb_spec (removeNonDigits text) "") as [Hempty|Hne];
      simpl.
    { right. split; [done|]. by left. }
    destruct (between 1 50 (parseInt (removeNonDigits text))) eqn:Hin;
      [|by left].
    right. split; [done|]. right.
    apply between_Int in Hin as Hr. destruct Hr as (r & Hr & Hrange).
    exists r. split_and!; try done; try lia.
    unfold handleRadiusChange. simpl. by rewrite Hin, Hr.
  - intros radius Hradius. unfold handleRadiusChange, pressRadiusOption.
    simpl.
    assert (between 1 50 (parseInt (toString radius)) = true
            ∧ parseInt (toString radius) = radius) as [-> ->]; [|done].
    unfold radiusOptions in Hradius.
    apply list_elem_of_fmap in Hradius as (r & -> & Hr).
    simpl.
    assert (1 ≤ r ≤ 50)%Z as Hrange.
    { repeat (apply elem_of_cons in Hr as [->|Hr]; [lia|]).
      by apply elem_of_nil in Hr. }
    destruct (parseInt_toString r Hrange) as [_ ->]. split; [|done].
    apply between_Int. by exists r.
  - intros r Hrange. unfold handleRadiusChange, openRadiusModal.
    cbn [tempRadius setShowRadiusModal setTempRadius toString].
    destruct (parseInt_toString r Hrange) as [_ ->].
    assert (between 1 50 (Int r) = true) as ->; [|done].
    apply between_Int. by exists r.
Qed.

Example radius_examples :
  parseInt "007" = Int 7
  ∧ parseInt "0x1F" = Int 31
  ∧ parseInt " 12km" = Int 12
  ∧ parseInt "km" = NaN
  ∧ tempRadius (changeRadiusText "51" (mkState "" false false true "5")) = "5"
  ∧ tempRadius (changeRadiusText "2a0" (mkState "" false false true "5"))
    = "20"
  ∧ radiusChanged (handleRadiusChange true ∅
                     (mkState "" false false true ""))
    = None.
Proof. vm_compute. done. Qed.

End RadiusFacts.

(** ** The review dialog *)

Section ReviewFacts.
Import JsString TextSpec ReviewModal ReviewSpec.

Lemma renderStars_rating index onPress st :
  renderStars !! index = Some onPress →
  (1 ≤ rating (onPress st) ≤ 5)%Z
  ∧ comment (onPress st) = comment st ∧ loading (onPress st) = loading st.
Proof.
  unfold renderStars. rewrite list_lookup_fmap.
  destruct (seq 1 5 !! index) as [i|] eqn:Hi; [|done].
  apply lookup_seq in Hi as [-> Hlt]. intros [= <-].
  cbn [rating comment loading setRating]. split; [lia|done].
Qed.

Lemma apply_invariant props a st calls st' :
  (0 ≤ rating st ≤ 5)%Z → loading st = false →
  apply props a st = (calls, st') →
  Forall (Submitted props) calls
  ∧ (0 ≤ rating st' ≤ 5)%Z ∧ loading st' = false.
Proof.
  intros Hrating Hloading. destruct a as [index|text|ok|]; simpl.
  - intros [= <- <-]. split; [constructor|].
    destruct (renderStars !! index) as [onPress|] eqn:Hstar; [|done].
    destruct (renderStars_rating _ _ st Hstar) as (? & _ & ->).
    split; [lia|done].
  - intros [= <- <-]. split; [constructor|done].
  - unfold handleSubmit.
    destruct (rating st =? 0)%Z eqn:Hzero.
    { intros [= <- <-]. split; [constructor|done]. }
    apply Z.eqb_neq in Hzero.
    destruct (Js.truthyString (trim (comment st))) eqn:Hcomment; simpl.
    2:{ intros [= <- <-]. split; [constructor|done]. }
    assert (Submitted props
              (mkAddReview (providerUid props) (clientId props)
                           (clientName props) (rating st)
                           (trim (comment st)))) as Hcall.
    { split_and!; simpl; try done; try lia.
      - intros Heq. by rewrite Heq in Hcomment.
      - apply trim_spec. }
    destruct ok; simpl; intros [= <- <-].
    + split; [by apply Forall_singleton|]. simpl. split; [lia|done].
    + split; [by apply Forall_singleton|]. done.
  - intros [= <- <-]. split; [constructor|]. simpl. split; [lia|done].
Qed.

Lemma review_run_snoc props actions a st :
  ReviewSpec.run props (actions ++ [a]) st
  = let '(calls, st1) := ReviewSpec.run props actions st in
    let '(calls', st2) := apply props a st1 in
    (calls ++ calls', st2).
Proof. unfold ReviewSpec.run. by rewrite foldl_snoc. Qed.

(** X11: whatever the user does with the review dialog, every review it
    hands to [addReview] has a rating from 1 to 5 and a comment that is not
    empty and has no white space at either end, and is made for the
    provider and in the name of the client the dialog was opened with.
    Submitting without a star, or with a blank comment, makes no call and
    changes nothing; after a submission that succeeded the dialog is empty
    again, so that submitting once more makes no call. *)
Theorem review_submissions :
  ∀ (props : Props),
    (∀ actions,
       Forall (Submitted props)
              (ReviewSpec.run props actions initialState).1
       ∧ (0 ≤ rating (ReviewSpec.run props actions initialState).2 ≤ 5)%Z)
    ∧ (∀ addReview st,
         rating st = 0%Z ∨ blank (comment st) →
         handleSubmit props addReview st = mkOutcome None false st)
    ∧ (∀ st,
         rating st ≠ 0%Z → ¬ blank (comment st) →
         ∃ c,
           handleSubmit props true st
           = mkOutcome (Some c) true initialState
           ∧ handleSubmit props false st
             = mkOutcome (Some c) false (setLoading false st)
           ∧ reviewRating c = rating st
           ∧ reviewComment c = trim (comment st)
           ∧ ∀ addReview,
               call (handleSubmit props addReview initialState) = None).
Proof.
  intros props. split_and!.
  - intros actions.
    assert (Forall (Submitted props)
                   (ReviewSpec.run props actions initialState).1
            ∧ (0 ≤ rating (ReviewSpec.run props actions initialState).2
               ≤ 5)%Z
            ∧ loading (ReviewSpec.run props actions initialState).2 = false)
      as (? & ? & _); [|done].
    induction actions as [|a actions IH] using rev_ind.
    { simpl. split; [constructor|]. split; [lia|done]. }
    rewrite review_run_snoc.
    destruct (ReviewSpec.run props actions initialState) as [calls st1].
    destruct IH as (Hcalls & Hrating & Hloading). simpl in *.
    destruct (apply props a st1) as [calls' st2] eqn:Hstep.
    destruct (apply_invariant _ _ _ _ _ Hrating Hloading Hstep)
      as (Hcalls' & Hrating' & Hloading').
    simpl. split; [by apply Forall_app|done].
  - intros addReview st [Hzero|Hblank]; unfold handleSubmit.
    + by rewrite Hzero.
    + apply trim_blank in Hblank. rewrite Hblank.
      by destruct (rating st =? 0)%Z.
  - intros st Hrating Hblank. unfold handleSubmit.
    apply Z.eqb_neq in Hrating. rewrite Hrating.
    destruct (trim (comment st)) as [|c t] eqn:Htrim.
    { by apply trim_blank in Htrim. }
    simpl. eexists. split_and!; try done.
Qed.

End ReviewFacts.

(** ** The access rules *)

Section RulesFacts.
Import Document Rules RulesSpec.

Lemma uidIn_Some request uid v :
  auth request = Some uid → uidIn request v = isIn uid v.
Proof. unfold uidIn. by intros ->. Qed.

Lemma signedIn_Some request uid :
  auth request = Some uid → signedIn request = true.
Proof. unfold signedIn. by intros ->. Qed.

Lemma uidEquals_Some request uid v :
  auth request = Some uid →
  uidEquals request v = true → v = Some (VString uid).
Proof.
  unfold uidEquals. intros ->. destruct v as [[]|]; try done.
  by intros ->%String.eqb_eq.
Qed.

Lemma equalsString_Some v s : equalsString v s = true → v = Some (VString s).
Proof.
  destruct v as [[]|]; try done. simpl. by intros ->%String.eqb_eq.
Qed.

Lemma equalsTrue_Some v : equalsTrue v = true → v = Some (VBool true).
Proof. destruct v as [[]|]; try done. simpl. by intros ->. Qed.

(** X12: what the rules refuse.  Without sign-in nothing is granted but
    reading the profile of a provider that is complete.  A message is never
    updated nor deleted, whoever asks, and is read or added only by a
    participant of its conversation, which has to exist.  A conversation is
    read and changed only by its participants, and created only by one of
    the participants it names.  A profile is written only by its owner.  A
    review is created only under the caller's own client id and changed or
    deleted only by the client it is stored under.  On any other document
    nothing is granted. *)
Theorem rules_refuse :
  ∀ (get : string → option Data) (request : Request),
    (auth request = None →
     ∀ path, allow get path request = true →
             ∃ userId data,
               path = UsersDoc userId
               ∧ read (method request) = true
               ∧ resource request = Some data
               ∧ providersQuery data)
    ∧ (∀ chatId messageId,
         method request = Update ∨ method request = Delete →
         allow get (MessagesDoc chatId messageId) request = false)
    ∧ (∀ chatId messageId uid,
         auth request = Some uid →
         isIn uid (field (get chatId) "participants") = false →
         allow get (MessagesDoc chatId messageId) request = false)
    ∧ (∀ chatId uid,
         auth request = Some uid →
         isIn uid (field (resource request) "participants") = false →
         allow get (ChatsDoc chatId) request = true →
         method request = Create
         ∧ isIn uid (field (requestResource request) "participants") = true)
    ∧ (∀ userId uid,
         auth request = Some uid → uid ≠ userId →
         write (method request) = true →
         allow get (UsersDoc userId) request = false)
    ∧ (∀ reviewId uid,
         auth request = Some uid →
         write (method request) = true →
         allow get (ReviewsDoc reviewId) request = true →
         (method request = Create
          ∧ field (requestResource request) "clientId" = Some (VString uid))
         ∨ (method request ≠ Create
            ∧ field (resource request) "clientId" = Some (VString uid)))
    ∧ (∀ segments, allow get (OtherDoc segments) request = false).
Proof.
  intros get request. split_and!.
  - intros Hauth [userId|reviewId|chatId|chatId messageId|segments]; simpl.
    + unfold users, signedIn, uidIs. rewrite Hauth.
      rewrite !andb_false_r. simpl.
      intros (Hread & Htype%equalsString_Some
                    & Hcomplete%equalsTrue_Some)%andb_prop%(and_iff_compat_l _
                                                   (andb_true_iff _ _)).
      destruct (resource request) as [data|] eqn:Hres; [|done].
      by exists userId, data.
    + unfold reviews, signedIn. rewrite Hauth.
      by rewrite !andb_false_r.
    + unfold chats, signedIn. rewrite Hauth. by rewrite !andb_false_r.
    + unfold messages, signedIn. rewrite Hauth. by rewrite !andb_false_r.
    + done.
  - intros chatId messageId [Hm|Hm]; simpl; unfold messages; by rewrite Hm.
  - intros chatId messageId uid Hauth Hout. simpl. unfold messages.
    rewrite (uidIn_Some _ _ _ Hauth), Hout. by rewrite !andb_false_r.
  - intros chatId uid Hauth Hout. simpl. unfold chats.
    rewrite !(uidIn_Some _ _ _ Hauth), Hout, (signedIn_Some _ _ Hauth).
    rewrite !andb_false_r. simpl.
    intros [Hcreate Hin]%andb_prop. split; [|done].
    by destruct (method request).
  - intros userId uid Hauth Hne Hwrite. simpl. unfold users, uidIs.
    rewrite Hauth. apply String.eqb_neq in Hne. rewrite Hne.
    rewrite !andb_false_r. by destruct (method request).
  - intros reviewId uid Hauth Hwrite. simpl. unfold reviews.
    rewrite (signedIn_Some _ _ Hauth).
    destruct (method request) eqn:Hm; try done; simpl.
    + rewrite orb_false_r. intros Heq.
      left. split; [done|]. by apply (uidEquals_Some request).
    + intros Heq. right. split; [done|]. by apply (uidEquals_Some request).
    + intros Heq. right. split; [done|]. by apply (uidEquals_Some request).
  - done.
Qed.

Lemma isIn_participants uid (ps : list string) :
  isIn uid (Some (VList (VString <$> ps))) = bool_decide (uid ∈ ps).
Proof.
  simpl. induction ps as [|p ps IH]; [done|]. rewrite fmap_cons. simpl.
  rewrite IH. destruct (String.eqb_spec p uid) as [->|Hne]; simpl.
  - symmetry. apply bool_decide_eq_true. by left.
  - apply bool_decide_ext. rewrite elem_of_cons. intuition congruence.
Qed.

Lemma participants_encodeChat c :
  encodeChat c !! "participants"
  = Some (VList (VString <$> Firestore.participants c)).
Proof.
  unfold encodeChat.
  destruct (Firestore.lastMessage c), (Firestore.lastMessageTime c);
    by rewrite ?lookup_insert_ne, lookup_insert_eq by done.
Qed.

Lemma isIn_encodeChat uid c :
  isIn uid (field (Some (encodeChat c)) "participants")
  = bool_decide (uid ∈ Firestore.participants c).
Proof.
  unfold field. by rewrite participants_encodeChat, isIn_participants.
Qed.

Lemma getChat_NoDup w d :
  NoDup (Firestore.id <$> Firestore.chats w) →
  d ∈ Firestore.chats w →
  getChat w (Firestore.id d) = Some (encodeChat (Firestore.data d)).
Proof.
  unfold getChat. induction (Firestore.chats w) as [|x l IH]; simpl.
  { by intros _ ?%elem_of_nil. }
  intros [Hx Hl]%NoDup_cons Hd.
  apply elem_of_cons in Hd as [->|Hd].
  - by rewrite String.eqb_refl.
  - destruct (String.eqb_spec (Firestore.id x) (Firestore.id d)) as [Heq|_];
      [|by apply IH].
    destruct Hx. rewrite Heq. by apply list_elem_of_fmap_2.
Qed.

(** X13: the requests the application makes pass the rules.  In a store
    whose conversations have pairwise different ids, a participant of a
    conversation is granted reading, updating and deleting it (the listing
    of [createOrGetChat] and of the bell, the update of [sendMessage]) and
    is granted reading and adding its messages, whatever the message holds,
    while somebody signed in who is not a participant is refused all of
    these; the conversation that [createOrGetChat] adds is one that its two
    users, and nobody else, may create; the documents that the query of
    providers asks for may be read without sign-in; and every request of a
    user on their own profile is granted. *)
Theorem app_requests_pass_rules :
  ∀ (w : Firestore.World) (d : Firestore.Doc Firestore.ChatData),
    NoDup (Firestore.id <$> Firestore.chats w) →
    d ∈ Firestore.chats w →
    (∀ uid m new,
       m ≠ Create →
       allow (getChat w) (ChatsDoc (Firestore.id d))
             (mkRequest (Some uid) m
                        (Some (encodeChat (Firestore.data d))) new)
       = bool_decide (uid ∈ Firestore.participants (Firestore.data d)))
    ∧ (∀ uid messageId m message new,
         m = Get ∨ m = List ∨ m = Create →
         allow (getChat w) (MessagesDoc (Firestore.id d) messageId)
               (mkRequest (Some uid) m message new)
         = bool_decide (uid ∈ Firestore.participants (Firestore.data d)))
    ∧ (∀ A B nameA nameB chatId w' new,
         ChatService.createOrGetChat A B nameA nameB w
         = (Firestore.Ok chatId, w') →
         new ∈ Firestore.chats w' → new ∉ Firestore.chats w →
         ∀ uid,
           allow (getChat w) (ChatsDoc (Firestore.id new))
                 (mkRequest (Some uid) Create None
                            (Some (encodeChat (Firestore.data new))))
           = bool_decide (uid = A ∨ uid = B))
    ∧ (∀ userId data m,
         providersQuery data → m = Get ∨ m = List →
         allow (getChat w) (UsersDoc userId)
               (mkRequest None m (Some data) None) = true)
    ∧ (∀ uid m stored new,
         allow (getChat w) (UsersDoc uid) (mkRequest (Some uid) m stored new)
         = true).
Proof.
  intros w d Hnodup Hd. split_and!.
  - intros uid m new Hm. unfold allow, chats, uidIn, signedIn.
    cbn [auth method resource requestResource].
    rewrite isIn_encodeChat.
    destruct (bool_decide _); by destruct m.
  - intros uid messageId m message new Hm.
    unfold allow, messages, uidIn, signedIn.
    cbn [auth method resource requestResource].
    rewrite (getChat_NoDup _ _ Hnodup Hd), isIn_encodeChat.
    by destruct Hm as [->|[->| ->]].
  - intros A B nameA nameB chatId w' new
      [(_ & _ & ->)|(_ & _ & names & t1 & t2 & ->)]%createOrGetChat_Ok
      Hnew Hold; [done|].
    apply elem_of_insertDoc in Hnew as [->|Hnew]; [|done].
    intros uid. unfold allow, chats, uidIn, signedIn.
    cbn [auth method resource requestResource read write create].
    rewrite isIn_encodeChat. cbn [field isIn orb andb Firestore.data
                                  Firestore.participants].
    apply bool_decide_ext. rewrite !elem_of_cons, elem_of_nil. tauto.
  - intros userId data m [Htype Hcomplete] Hm. unfold allow, users.
    cbn [auth method resource requestResource field].
    rewrite Htype, Hcomplete. simpl. by destruct Hm as [->| ->].
  - intros uid m stored new. unfold allow, users, signedIn, uidIs.
    cbn [auth method resource requestResource].
    rewrite String.eqb_refl. by destruct m.
Qed.

Lemma app_requests_pass_rules_witness :
  allow (getChat Scenarios.world_c1) (MessagesDoc "c1" "m1")
        (mkRequest (Some "u1") Create None None) = true
  ∧ allow (getChat Scenarios.world_c1) (MessagesDoc "c1" "m1")
          (mkRequest (Some "u3") Create None None) = false.
Proof.
  assert (NoDup (Firestore.id <$> Firestore.chats Scenarios.world_c1))
    as Hnodup by (apply NoDup_singleton).
  assert (Firestore.mkDoc "c1"
            (Firestore.mkChatData ["u1"; "u2"] ∅ (Some "") (Some 90%Z) 90)
          ∈ Firestore.chats Scenarios.world_c1) as Hd
    by (apply list_elem_of_singleton; reflexivity).
  pose proof (app_requests_pass_rules Scenarios.world_c1 _ Hnodup Hd)
    as (_ & Hmessages & _).
  split.
  - refine (eq_trans (Hmessages "u1" "m1" Create None None _) _);
      [auto|vm_compute; reflexivity].
  - refine (eq_trans (Hmessages "u3" "m1" Create None None _) _);
      [auto|vm_compute; reflexivity].
Defined.

End RulesFacts.

(** ** The listings *)

Section FloatFacts.

Lemma SFleb_trans a b c :
  SFleb a b = true → SFleb b c = true → SFleb a c = true.
Proof.
  unfold SFleb, SFcompare.
  destruct a as [[]|[]| |[] ma ea], b as [[]|[]| |[] mb eb],
           c as [[]|[]| |[] mc ec];
    try (intros; reflexivity); try (intros; discriminate).
  all: change (Pos.compare_cont Eq ma mb) with (Pos.compare ma mb);
    change (Pos.compare_cont Eq mb mc) with (Pos.compare mb mc);
    change (Pos.compare_cont Eq ma mc) with (Pos.compare ma mc).
  all: destruct (Z.compare_spec ea eb), (Z.compare_spec eb ec),
         (Z.compare_spec ea ec);
    try (intros; reflexivity); try (intros; discriminate); try lia.
  all: destruct (Pos.compare_spec ma mb), (Pos.compare_spec mb mc),
         (Pos.compare_spec ma mc); simpl;
    try (intros; reflexivity); try (intros; discriminate); try lia.
Qed.

Lemma leb_trans (a b c : float) :
  (a <=? b)%float = true → (b <=? c)%float = true → (a <=? c)%float = true.
Proof. rewrite !FloatAxioms.leb_spec. apply SFleb_trans. Qed.

(** A zero of either sign compares as the literal [0] does. *)
Lemma leb_zero (d r : float) :
  (d =? 0)%float = true → (0 <=? r)%float = (d <=? r)%float.
Proof.
  rewrite FloatAxioms.eqb_spec, !FloatAxioms.leb_spec.
  change (Prim2SF 0) with (S754_zero false).
  destruct (Prim2SF d) as [[]|[]| |[] m e]; simpl; try discriminate.
  - intros _. by destruct (Prim2SF r) as [[]|[]| |[] m' e'].
  - intros _. by destruct (Prim2SF r) as [[]|[]| |[] m' e'].
Qed.

Lemma orElse_leb (d r : float) :
  PrimFloat.is_nan d = false →
  (Js.orElse Js.truthyNumber (Some d) 0 <=? r)%float = (d <=? r)%float.
Proof.
  intros Hnan. unfold Js.orElse, Js.truthyNumber. rewrite Hnan, orb_false_r.
  destruct (d =? 0)%float eqn:Hzero; simpl; [|done]. by apply leb_zero.
Qed.

End FloatFacts.

Section ListingFacts.
Import DiscoverySpec ListingSpec HomeScreenState.
Variable calculateDistance : float → float → float → float → float.
Variable toLowerCase : string → string.

Lemma sort_unordered {A : Type} (before : A → A → bool) (l : list A) :
  (∀ x y, x ∈ l → y ∈ l → before x y = false) → Js.sort before l = l.
Proof.
  induction l as [|x l IH]; [done|]. intros Hl.
  change (Js.sort before (x :: l)) with (Js.place before x (Js.sort before l)).
  rewrite IH by (intros; apply Hl; by right).
  destruct l as [|y l]; [done|]. simpl.
  rewrite Hl; [done|by right; left|by left].
Qed.

Lemma ofUserHome_required userLocation doc :
  ofUserHome calculateDistance userLocation doc
  = if required doc
    then ofUserHome calculateDistance userLocation doc
    else None.
Proof.
  unfold ofUserHome, required.
  destruct (Js.truthy _ (UserDoc.displayName _)),
    (Js.truthy _ (UserDoc.serviceType _)),
    (Js.truthy _ (UserDoc.neighborhood _)); done.
Qed.

Lemma ofUserHome_Some userLocation doc p :
  ofUserHome calculateDistance userLocation doc = Some p →
  required doc = true
  ∧ Provider.uid p = UserDoc.uid (Firestore.data doc)
  ∧ Provider.displayName p ≠ "" ∧ Provider.serviceType p ≠ ""
  ∧ Provider.neighborhood p ≠ "" ∧ Provider.status p ≠ ""
  ∧ (Provider.distance p = None ↔ userLocation = None).
Proof.
  unfold ofUserHome, required.
  destruct (UserDoc.displayName (Firestore.data doc)) as [[|? name]|];
    try done.
  destruct (UserDoc.serviceType (Firestore.data doc)) as [[|? service]|];
    try done.
  destruct (UserDoc.neighborhood (Firestore.data doc)) as [[|? place]|];
    try done.
  simpl. intros [= <-].
  destruct userLocation; simpl; split_and!; try done;
    by destruct (UserDoc.status (Firestore.data doc)) as [[]|].
Qed.

Lemma uid_omap_ofUserHome userLocation
    (querySnapshot : list (Firestore.Doc UserDoc.t)) :
  Provider.uid <$> omap (ofUserHome calculateDistance userLocation)
                        querySnapshot
  = (λ doc, UserDoc.uid (Firestore.data doc))
      <$> filter (λ doc, required doc = true) querySnapshot.
Proof.
  induction querySnapshot as [|doc l IH]; [done|].
  change (omap (ofUserHome calculateDistance userLocation) (doc :: l))
    with (match ofUserHome calculateDistance userLocation doc with
          | Some p => p :: omap (ofUserHome calculateDistance userLocation) l
          | None => omap (ofUserHome calculateDistance userLocation) l
          end).
  destruct (ofUserHome calculateDistance userLocation doc) as [p|] eqn:Hp.
  - apply ofUserHome_Some in Hp as (Hreq & Huid & _).
    rewrite filter_cons_True by done. rewrite !fmap_cons, IH, Huid. done.
  - rewrite ofUserHome_required in Hp.
    destruct (required doc) eqn:Hreq.
    + exfalso. revert Hp. unfold ofUserHome, required in *.
      destruct (Js.truthy _ (UserDoc.displayName _)),
        (Js.truthy _ (UserDoc.serviceType _)),
        (Js.truthy _ (UserDoc.neighborhood _)); done.
    + rewrite filter_cons_False by (by rewrite Hreq). done.
Qed.

(** X14: the list screen lists the records that have a name, a service
    and a neighbourhood, each of them once and no other: the identifiers it
    lists are those of these records, at most as many as the query returned;
    every provider listed has a name, a service, a neighbourhood and a status
    that are not empty, and carries a distance exactly when the location of
    the user was known to the call; and when it was not, the providers are
    listed in the order in which the store returned the records. *)
Theorem loadProviders_lists_required :
  ∀ (userLocation : option Location.t)
    (querySnapshot : list (Firestore.Doc UserDoc.t)),
    let listed :=
      HomeScreen.loadProviders calculateDistance userLocation querySnapshot in
    let uids :=
      (λ doc, UserDoc.uid (Firestore.data doc))
        <$> filter (λ doc, required doc = true) querySnapshot in
    Provider.uid <$> listed ≡ₚ uids
    ∧ length listed ≤ length querySnapshot
    ∧ (∀ p, p ∈ listed →
            Provider.displayName p ≠ "" ∧ Provider.serviceType p ≠ ""
            ∧ Provider.neighborhood p ≠ "" ∧ Provider.status p ≠ ""
            ∧ (Provider.distance p = None ↔ userLocation = None))
    ∧ (userLocation = None → Provider.uid <$> listed = uids).
Proof.
  intros userLocation querySnapshot listed uids. subst listed uids.
  rewrite loadProviders_home. split_and!.
  - by rewrite sort_Permutation, uid_omap_ofUserHome.
  - rewrite length_sort. apply length_omap_le.
  - intros p (doc & _ & Hp)%elem_of_sort%list_elem_of_omap.
    apply ofUserHome_Some in Hp. tauto.
  - intros ->. rewrite sort_unordered; [apply uid_omap_ofUserHome|].
    intros x y (dx & _ & Hx)%list_elem_of_omap (dy & _ & Hy)%list_elem_of_omap.
    apply ofUserHome_Some in Hx as (_ & _ & _ & _ & _ & _ & Hx).
    apply ofUserHome_Some in Hy as (_ & _ & _ & _ & _ & _ & Hy).
    unfold Provider.byDistance.
    rewrite (proj2 Hx eq_refl), (proj2 Hy eq_refl). reflexivity.
Qed.

Lemma filter_when {A : Type} (b : bool) (P : A → Prop)
    `{!∀ x, Decision (P x)} (l : list A) :
  (if b then filter P l else l) = filter (λ x, b = true → P x) l.
Proof.
  destruct b.
  - apply list_filter_iff. tauto.
  - symmetry. apply filter_all, Forall_forall. done.
Qed.

Lemma filtered_shown (st : HomeScreen.State) :
  HomeScreen.filtered toLowerCase st
  = filter (λ p, shown toLowerCase st p = true) (HomeScreen.providers st).
Proof.
  unfold HomeScreen.filtered. cbv zeta.
  rewrite !filter_when, !list_filter_filter.
  destruct (HomeScreen.userLocation st) as [loc|] eqn:Hloc; cbv iota;
    apply list_filter_iff; intros p; unfold shown; rewrite Hloc;
    rewrite !andb_true_iff, !orb_true_iff, !negb_true_iff,
      bool_decide_eq_true, ?Is_true_true, ?orb_true_iff;
    destruct (Js.truthyString (HomeScreen.selectedService st)),
      (Js.truthyString (HomeScreen.selectedNeighborhood st)),
      (Js.truthyString (HomeScreen.searchText st));
    intuition (first [discriminate | auto]).
Qed.

Lemma sublist_filter_impl {A : Type} (P Q : A → Prop)
    `{!∀ x, Decision (P x)} `{!∀ x, Decision (Q x)} (l : list A) :
  (∀ x, P x → Q x) → filter P l `sublist_of` filter Q l.
Proof.
  intros Himpl. induction l as [|x l IH]; [done|].
  destruct (decide (P x)) as [Hp|Hp].
  - rewrite !filter_cons_True by auto. by constructor.
  - rewrite (filter_cons_False P) by done.
    destruct (decide (Q x)).
    + rewrite filter_cons_True by done. by constructor.
    + by rewrite filter_cons_False.
Qed.

Lemma sublist_omap_impl {A B : Type} (f g : A → option B) (l : list A) :
  (∀ x y, f x = Some y → g x = Some y) → omap f l `sublist_of` omap g l.
Proof.
  intros Himpl. induction l as [|x l IH]; [done|].
  change (omap f (x :: l))
    with (match f x with Some y => y :: omap f l | None => omap f l end).
  change (omap g (x :: l))
    with (match g x with Some y => y :: omap g l | None => omap g l end).
  destruct (f x) as [y|] eqn:Hf.
  - rewrite (Himpl _ _ Hf). by constructor.
  - destruct (g x); [by constructor|done].
Qed.

Lemma filtered_radius (st : HomeScreen.State) (radius radius' : float) :
  (radius <=? radius')%float = true →
  HomeScreen.filtered toLowerCase (setSearchRadius radius st)
    `sublist_of` HomeScreen.filtered toLowerCase (setSearchRadius radius' st).
Proof.
  intros Hradius. rewrite !filtered_shown.
  apply sublist_filter_impl. intros p. unfold shown. simpl.
  rewrite !andb_true_iff. intros [[[? ?] ?] Hwithin].
  split_and!; try done.
  destruct (HomeScreen.userLocation st); [|done].
  by eapply leb_trans.
Qed.

(** X15: on the list screen, clearing the service and neighbourhood
    filters, or the search text, never removes a provider from the list, and
    the providers keep their order.  The radius dialog sets the radius and
    loads the providers again: the list then holds the providers built from
    the records that the store answered, with the location of the user that
    the screen had, and, when that location is known, each of them carries
    the distance computed from it and passes [(distance || 0) <= radius];
    for the same answer of the store, a radius that is not smaller lists
    every provider that the smaller one lists.  On the map screen as well a
    radius that is not smaller never removes a provider. *)
Theorem clearing_and_radius_widen :
  ∀ (st : HomeScreen.State),
    HomeScreen.filtered toLowerCase st
      `sublist_of`
      HomeScreen.filtered toLowerCase
        (setSelectedNeighborhood "" (setSelectedService "" st))
    ∧ HomeScreen.filtered toLowerCase st
        `sublist_of` HomeScreen.filtered toLowerCase (setSearchText "" st)
    ∧ (∀ radius querySnapshot,
         let st' :=
           onRadiusChange calculateDistance toLowerCase radius
                          (Some querySnapshot) st in
         HomeScreen.searchRadius st' = radius
         ∧ HomeScreen.userLocation st' = HomeScreen.userLocation st
         ∧ HomeScreen.providers st'
           = HomeScreen.loadProviders calculateDistance
               (HomeScreen.userLocation st) querySnapshot
         ∧ HomeScreen.filteredProviders st'
           = HomeScreen.filtered toLowerCase st'
         ∧ ∀ origin p,
             HomeScreen.userLocation st = Some origin →
             p ∈ HomeScreen.filteredProviders st' →
             Provider.distance p
             = Some (calculateDistance
                       (Location.latitude origin) (Location.longitude origin)
                       (Provider.latitude p) (Provider.longitude p))
             ∧ (Js.orElse Js.truthyNumber (Provider.distance p) 0
                <=? radius)%float = true)
    ∧ (∀ radius radius' answer,
         (radius <=? radius')%float = true →
         HomeScreen.filteredProviders
           (onRadiusChange calculateDistance toLowerCase radius answer st)
           `sublist_of`
           HomeScreen.filteredProviders
             (onRadiusChange calculateDistance toLowerCase radius' answer st))
    ∧ (∀ userLocation radius radius' querySnapshot,
         (radius <=? radius')%float = true →
         MapScreen.loadProviders calculateDistance userLocation radius
                                 querySnapshot
           ⊆+ MapScreen.loadProviders calculateDistance userLocation radius'
                                      querySnapshot).
Proof.
  intros st. split_and!.
  - rewrite !filtered_shown. apply sublist_filter_impl.
    intros p. unfold shown. simpl.
    rewrite !andb_true_iff. intros [[[_ _] ?] ?]. by split_and!.
  - rewrite !filtered_shown. apply sublist_filter_impl.
    intros p. unfold shown. simpl.
    rewrite !andb_true_iff. intros [[[? ?] _] ?]. by split_and!.
  - intros radius querySnapshot st'. subst st'. split_and!; try done.
    intros origin p Hloc Hp. simpl in Hp. rewrite filtered_shown in Hp.
    apply list_elem_of_filter in Hp as [Hshown Hin]. simpl in Hin.
    rewrite Hloc in Hin.
    apply elem_of_loadProviders_home in Hin as (doc & _ & Hdoc).
    apply distance_ofUserHome in Hdoc as (_ & _ & _ & Hdist).
    split; [done|].
    unfold shown in Hshown. simpl in Hshown. rewrite Hloc in Hshown.
    by apply andb_prop in Hshown as [_ ?].
  - intros radius radius' answer Hradius.
    destruct answer as [querySnapshot|]; simpl.
    + by apply (filtered_radius
                  (HomeScreen.setProviders
                     (HomeScreen.loadProviders calculateDistance
                        (HomeScreen.userLocation st) querySnapshot) st)).
    + by apply filtered_radius.
  - intros userLocation radius radius' querySnapshot Hradius.
    rewrite !loadProviders_map, !sort_Permutation.
    apply sublist_submseteq, sublist_omap_impl.
    intros doc p. unfold ofUserMap.
    destruct (_ || _); [done|].
    destruct userLocation as [loc|]; [|done].
    destruct (_ <=? radius)%float eqn:Hwithin; [|done].
    intros [= <-]. by rewrite (leb_trans _ _ _ Hwithin Hradius).
Qed.

Lemma ofUserMap_ofUserHome loc radius doc :
  (required doc = true →
   located doc = true
   ∧ ∀ lat lon,
       UserDoc.latitude (Firestore.data doc) = Some lat →
       UserDoc.longitude (Firestore.data doc) = Some lon →
       PrimFloat.is_nan
         (calculateDistance (Location.latitude loc) (Location.longitude loc)
                            lat lon) = false) →
  ofUserMap calculateDistance (Some loc) radius doc
  = match ofUserHome calculateDistance (Some loc) doc with
    | Some p =>
        if (Js.orElse Js.truthyNumber (Provider.distance p) 0
            <=? radius)%float
        then Some p else None
    | None => None
    end.
Proof.
  intros Hlocated. unfold ofUserMap, ofUserHome.
  unfold required, located in Hlocated.
  destruct doc as [docId [uid name photo service place rating count status
                          lat lon]].
  cbn [Firestore.data UserDoc.uid UserDoc.displayName UserDoc.photoURL
       UserDoc.serviceType UserDoc.neighborhood UserDoc.rating
       UserDoc.reviewCount UserDoc.status UserDoc.latitude UserDoc.longitude]
    in *.
  destruct (Js.truthy Js.truthyString name); [|done].
  destruct (Js.truthy Js.truthyString service); [|done].
  destruct (Js.truthy Js.truthyString place); [|done].
  destruct (Hlocated eq_refl) as [[Hlat Hlon]%andb_prop Hnan].
  rewrite Hlat, Hlon.
  destruct lat as [lat|]; [|done]. destruct lon as [lon|]; [|done].
  cbn [Js.truthy] in Hlat, Hlon.
  cbn [negb orb Provider.latitude Provider.longitude Provider.distance
       Provider.setDistance Js.orElse default from_option id].
  rewrite Hlat, Hlon. unfold id.
  pose proof (orElse_leb
                (calculateDistance (Location.latitude loc)
                                   (Location.longitude loc) lat lon)
                radius (Hnan _ _ eq_refl eq_refl)) as Hleb.
  cbn [Js.orElse] in Hleb. rewrite Hleb. reflexivity.
Qed.

(** X16: the list screen asks the store for fifty records at most, the map
    screen for all of them.  When the list was loaded while the location of
    the user was known and no filter on the texts is set, and every record
    among the first fifty that has a name, a service and a neighbourhood
    also has a latitude and a longitude other than zero, at a distance from
    the user that is not [NaN], the list screen shows the providers that the
    map screen builds from these first fifty records, each as many times:
    all of them providers that the map screen shows, and exactly those when
    the store holds no more than fifty records. *)
Theorem list_and_map_agree :
  ∀ (loc : Location.t) (radius : float)
    (matching : list (Firestore.Doc UserDoc.t)),
    (∀ doc,
       doc ∈ take 50 matching → required doc = true →
       located doc = true
       ∧ ∀ lat lon,
           UserDoc.latitude (Firestore.data doc) = Some lat →
           UserDoc.longitude (Firestore.data doc) = Some lon →
           PrimFloat.is_nan
             (calculateDistance (Location.latitude loc)
                                (Location.longitude loc) lat lon) = false) →
    let listed :=
      HomeScreen.filtered toLowerCase
        (HomeScreen.mkState
           (HomeScreen.loadProviders calculateDistance (Some loc)
                                     (HomeScreen.getDocs matching))
           [] "" "" "" (Some loc) radius) in
    let mapped :=
      MapScreen.loadProviders calculateDistance (Some loc) radius
                              (MapScreen.getDocs matching) in
    listed ≡ₚ MapScreen.loadProviders calculateDistance (Some loc) radius
                                      (take 50 matching)
    ∧ listed ⊆+ mapped
    ∧ (length matching ≤ 50 → listed ≡ₚ mapped).
Proof.
  intros loc radius matching Hlocated listed mapped.
  assert (listed ≡ₚ MapScreen.loadProviders calculateDistance (Some loc)
                                            radius (take 50 matching))
    as Hfifty.
  { subst listed. unfold HomeScreen.getDocs.
    rewrite filtered_shown, loadProviders_home, loadProviders_map.
    cbn [HomeScreen.providers].
    rewrite (sort_Permutation _ (omap (ofUserHome _ _) _)).
    rewrite (sort_Permutation _ (omap (ofUserMap _ _ _) _)).
    rewrite (list_filter_iff _
               (λ p, (Js.orElse Js.truthyNumber (Provider.distance p) 0
                      <=? radius)%float = true))
      by (intros p; unfold shown; simpl; tauto).
    induction (take 50 matching) as [|doc l IH]; [done|].
    change (omap ?f (doc :: l))
      with (match f doc with Some y => y :: omap f l | None => omap f l end).
    rewrite ofUserMap_ofUserHome by (apply Hlocated; by left).
    assert (∀ d, d ∈ l → required d = true →
                 located d = true
                 ∧ ∀ lat lon,
                     UserDoc.latitude (Firestore.data d) = Some lat →
                     UserDoc.longitude (Firestore.data d) = Some lon →
                     PrimFloat.is_nan
                       (calculateDistance (Location.latitude loc)
                          (Location.longitude loc) lat lon) = false) as Hl
      by (intros d Hd; apply Hlocated; by right).
    destruct (ofUserHome calculateDistance (Some loc) doc) as [p|];
      [|by apply IH].
    destruct (_ <=? radius)%float eqn:Hwithin.
    - rewrite filter_cons_True by done. by apply Permutation_skip, IH.
    - rewrite filter_cons_False by (by rewrite Hwithin). by apply IH. }
  split_and!; [done| |].
  - rewrite Hfifty. subst mapped. unfold MapScreen.getDocs.
    rewrite !loadProviders_map, !sort_Permutation.
    rewrite <- (take_drop 50 matching) at 2. rewrite omap_app.
    by apply submseteq_inserts_r.
  - intros Hlength. rewrite Hfifty. subst mapped. unfold MapScreen.getDocs.
    by rewrite take_ge.
Qed.

End ListingFacts.

Section ListingExamples.
Import DiscoverySpec ListingSpec.

Lemma list_and_map_agree_witness :
  HomeScreen.filtered CaseSpec.lowerLatin1
    (HomeScreen.mkState
       (HomeScreen.loadProviders Scenarios.distance_flat
          (Some Scenarios.rio) [Scenarios.user_sao_paulo])
       [] "" "" "" (Some Scenarios.rio) 500)
  ≡ₚ MapScreen.loadProviders Scenarios.distance_flat (Some Scenarios.rio) 500
                             [Scenarios.user_sao_paulo].
Proof.
  refine (proj1 (list_and_map_agree Scenarios.distance_flat
                   CaseSpec.lowerLatin1 Scenarios.rio 500
                   [Scenarios.user_sao_paulo] _)).
  intros doc ->%list_elem_of_singleton _. split; [reflexivity|].
  intros lat lon [= <-] [= <-]. reflexivity.
Defined.

Example list_and_map_at_500_km :
  Provider.uid
    <$> MapScreen.loadProviders Scenarios.distance_flat (Some Scenarios.rio)
                                500 [Scenarios.user_sao_paulo]
  = [Some "p3"]
  ∧ MapScreen.loadProviders Scenarios.distance_flat (Some Scenarios.rio) 5
                            [Scenarios.user_sao_paulo]
    = [].
Proof. split; reflexivity. Qed.

End ListingExamples.

(** ** The profile documents *)

Section ProfileFacts.
Import Document AuthService RulesSpec ProfileSpec.

Lemma lookup_clean (o : Object) (f : string) :
  clean o !! f = o !! f ≫= id.
Proof. unfold clean. by rewrite lookup_omap. Qed.

Lemma lookup_merged (data : Data) (old : option Data) (f : string) :
  (data ∪ default ∅ old) !! f
  = match data !! f with
    | Some v => Some v
    | None => old ≫= (λ stored, stored !! f)
    end.
Proof.
  rewrite lookup_union. destruct (data !! f) as [v|] eqn:Hf.
  - by destruct (default ∅ old !! f).
  - destruct old as [stored|]; simpl; [|by rewrite lookup_empty].
    by destruct (stored !! f).
Qed.

(** X17: [updateUserProfile], when the write is fulfilled, leaves under the
    id of the user a document that [getUserProfile] returns, in which every
    property of the object that is defined has the value given and every
    other field is the one the document had, an [undefined] property
    neither writing nor erasing anything; the documents of the other users
    stay as they are; when the write is rejected it throws and the
    collection stays as it is.  [createUserProfile] stores under the id of
    the signed-in user a document that carries this id, the time of the
    call and [isProfileComplete = false], whatever the document held
    before: the query of providers does not return it. *)
Theorem profile_store_round_trip :
  ∀ (uid : string) (userData : Object) (users : Users),
    updateUserProfile false uid userData users = (Firestore.Throw, users)
    ∧ (∃ doc,
         updateUserProfile true uid userData users
         = (Firestore.Ok tt, <[uid := doc]> users)
         ∧ getUserProfile true uid (<[uid := doc]> users) = Some doc
         ∧ (∀ f v, userData !! f = Some (Some v) → doc !! f = Some v)
         ∧ (∀ f, userData !! f = None ∨ userData !! f = Some None →
                 doc !! f = users !! uid ≫= (λ stored, stored !! f))
         ∧ (∀ other, other ≠ uid →
                     getUserProfile true other (<[uid := doc]> users)
                     = getUserProfile true other users))
    ∧ (∀ now firebaseUser,
         AuthService.uid firebaseUser = uid →
         createUserProfile false now firebaseUser userData users
         = (Firestore.Throw, users)
         ∧ ∃ newUser doc,
             createUserProfile true now firebaseUser userData users
             = (Firestore.Ok newUser, <[uid := doc]> users)
             ∧ getUserProfile true uid (<[uid := doc]> users) = Some doc
             ∧ doc !! "uid" = Some (VString uid)
             ∧ doc !! "createdAt" = Some (VTimestamp now)
             ∧ doc !! "isProfileComplete" = Some (VBool false)
             ∧ ¬ providersQuery doc
             ∧ (∀ f v, newUser !! f = Some (Some v) → doc !! f = Some v)
             ∧ (∀ f, newUser !! f = None →
                     doc !! f = users !! uid ≫= (λ stored, stored !! f))).
Proof.
  intros uid userData users. split_and!.
  - done.
  - eexists. split; [reflexivity|]. split_and!.
    + unfold getUserProfile. by rewrite lookup_insert_eq.
    + intros f v Hf. by rewrite lookup_merged, lookup_clean, Hf.
    + intros f Hf. rewrite lookup_merged, lookup_clean.
      by destruct Hf as [-> | ->].
    + intros other Hother. unfold getUserProfile.
      by rewrite lookup_insert_ne.
  - intros now firebaseUser <-. split; [done|].
    eexists _, _. split; [reflexivity|]. split_and!.
    + unfold getUserProfile. by rewrite lookup_insert_eq.
    + rewrite lookup_merged, lookup_clean. reflexivity.
    + rewrite lookup_merged, lookup_clean. reflexivity.
    + rewrite lookup_merged, lookup_clean. reflexivity.
    + intros [_ Hcomplete]. revert Hcomplete.
      rewrite lookup_merged, lookup_clean. by intros [=].
    + intros f v Hf. by rewrite lookup_merged, lookup_clean, Hf.
    + intros f Hf. by rewrite lookup_merged, lookup_clean, Hf.
Qed.

Lemma ofUserHome_listed calculateDistance userLocation doc :
  ListingSpec.required doc = true →
  ∃ p,
    DiscoverySpec.ofUserHome calculateDistance userLocation doc = Some p
    ∧ Provider.uid p = UserDoc.uid (Firestore.data doc)
    ∧ Some (Provider.displayName p)
      = UserDoc.displayName (Firestore.data doc)
    ∧ Some (Provider.serviceType p)
      = UserDoc.serviceType (Firestore.data doc)
    ∧ Some (Provider.neighborhood p)
      = UserDoc.neighborhood (Firestore.data doc)
    ∧ Provider.status p
      = Js.orElse Js.truthyString (UserDoc.status (Firestore.data doc))
                  "disponivel"
    ∧ Provider.rating p
      = Js.orElse Js.truthyNumber (UserDoc.rating (Firestore.data doc))
                  0%float.
Proof.
  unfold ListingSpec.required, DiscoverySpec.ofUserHome.
  destruct (UserDoc.displayName (Firestore.data doc)) as [name|]; [|done].
  destruct (UserDoc.serviceType (Firestore.data doc)) as [service|];
    [|by rewrite andb_false_r].
  destruct (UserDoc.neighborhood (Firestore.data doc)) as [place|];
    [|by rewrite andb_false_r].
  intros [[-> ->]%andb_prop ->]%andb_prop.
  eexists. split; [reflexivity|]. by destruct userLocation.
Qed.

(** X18: [handleSave] writes nothing when the form is not valid, and
    changes the collection only when its write is fulfilled.  Then the
    document of the user holds the trimmed name and the neighbourhood of the
    form, both not empty, the position that
    [getCurrentLocation] answered and [isProfileComplete = true]; its [uid]
    is the one it had, and none when the user had no document.  For a
    provider it also holds the service of the form, which is not empty, the
    status [disponivel] and a rating and a review count of zero, whatever
    they were before; the query of providers returns this document, and the
    list screen lists a provider with this name, service and neighbourhood,
    and with the [uid] of the document if it has one, for the record that
    the screen reads from it. *)
Theorem saved_provider_is_listed :
  ∀ (userType user : option string) (userProfile : option Data)
    (location : option Location.t) (ok : bool) (st : ProfileForm.State)
    (users : Users),
    let '(saved, users', st') :=
      ProfileForm.handleSave userType user userProfile location ok st users in
    (ProfileForm.validateForm userType userProfile st = false →
     saved = false ∧ users' = users ∧ st' = st)
    ∧ (saved = false → users' = users)
    ∧ (saved = true →
       ∃ uid loc doc,
         user = Some uid ∧ location = Some loc ∧ ok = true
         ∧ users' = <[uid := doc]> users
         ∧ doc !! "uid" = users !! uid ≫= (λ stored, stored !! "uid")
         ∧ doc !! "isProfileComplete" = Some (VBool true)
         ∧ doc !! "displayName"
           = Some (VString (JsString.trim (ProfileForm.displayName st)))
         ∧ JsString.trim (ProfileForm.displayName st) ≠ ""
         ∧ doc !! "neighborhood"
           = Some (VString (ProfileForm.neighborhood st))
         ∧ ProfileForm.neighborhood st ≠ ""
         ∧ doc !! "latitude" = Some (VNumber (Location.latitude loc))
         ∧ doc !! "longitude" = Some (VNumber (Location.longitude loc))
         ∧ (isString (ProfileForm.currentUserType userType userProfile)
                     "prestador" = true →
            providersQuery doc
            ∧ doc !! "serviceType"
              = Some (VString (ProfileForm.serviceType st))
            ∧ ProfileForm.serviceType st ≠ ""
            ∧ doc !! "status" = Some (VString "disponivel")
            ∧ doc !! "rating" = Some (VNumber 0)
            ∧ doc !! "reviewCount" = Some (VNumber 0)
            ∧ ∀ docId u calculateDistance userLocation,
                Reads doc u →
                ∃ p,
                  HomeScreen.loadProviders calculateDistance userLocation
                                           [Firestore.mkDoc docId u]
                  = [p]
                  ∧ Provider.uid p = UserDoc.uid u
                  ∧ Provider.displayName p
                    = JsString.trim (ProfileForm.displayName st)
                  ∧ Provider.serviceType p = ProfileForm.serviceType st
                  ∧ Provider.neighborhood p = ProfileForm.neighborhood st
                  ∧ Provider.status p = "disponivel"
                  ∧ Provider.rating p = 0%float)).
Proof.
  intros userType user userProfile location ok st users.
  unfold ProfileForm.handleSave.
  destruct (ProfileForm.validateForm userType userProfile st) eqn:Hvalid;
    simpl.
  2:{ split_and!; done. }
  unfold ProfileForm.validateForm in Hvalid.
  destruct (Js.truthyString (JsString.trim (ProfileForm.displayName st)))
    eqn:Hname; [|done].
  destruct (Js.truthyString (JsString.trim (ProfileForm.phone st)));
    [|done].
  destruct (Js.truthyString (JsString.trim (ProfileForm.cpf st))); [|done].
  destruct (Js.truthyString (ProfileForm.neighborhood st)) eqn:Hplace;
    [|done].
  simpl in Hvalid.
  destruct location as [loc|]; [|by split_and!].
  destruct user as [uid|]; [|by split_and!].
  unfold updateUserProfile, setDocMerge.
  destruct ok; [|by split_and!].
  split_and!; try done.
  intros _. eexists uid, loc, _. split_and!; try done.
  - rewrite lookup_merged, lookup_clean. unfold ProfileForm.profileData.
    destruct (isString _ _), (truthy _); reflexivity.
  - rewrite lookup_merged, lookup_clean. unfold ProfileForm.profileData.
    destruct (isString _ _), (truthy _); reflexivity.
  - rewrite lookup_merged, lookup_clean. unfold ProfileForm.profileData.
    destruct (isString _ _), (truthy _); reflexivity.
  - intros Heq. by rewrite Heq in Hname.
  - rewrite lookup_merged, lookup_clean. unfold ProfileForm.profileData.
    destruct (isString _ _), (truthy _); reflexivity.
  - intros Heq. by rewrite Heq in Hplace.
  - rewrite lookup_merged, lookup_clean. unfold ProfileForm.profileData.
    destruct (isString _ _), (truthy _); reflexivity.
  - rewrite lookup_merged, lookup_clean. unfold ProfileForm.profileData.
    destruct (isString _ _), (truthy _); reflexivity.
  - intros Hprestador. rewrite Hprestador in Hvalid. simpl in Hvalid.
    destruct (Js.truthyString (ProfileForm.serviceType st)) eqn:Hservice;
      [|done].
    assert (ProfileForm.currentUserType userType userProfile
            = Some (VString "prestador")) as Htype.
    { revert Hprestador. unfold isString.
      destruct (ProfileForm.currentUserType _ _) as [[]|]; try done.
      by intros ->%String.eqb_eq. }
    set (doc := _ ∪ _).
    assert (doc !! "userType" = Some (VString "prestador")
            ∧ doc !! "isProfileComplete" = Some (VBool true)
            ∧ doc !! "displayName"
              = Some (VString (JsString.trim (ProfileForm.displayName st)))
            ∧ doc !! "neighborhood"
              = Some (VString (ProfileForm.neighborhood st))
            ∧ doc !! "serviceType"
              = Some (VString (ProfileForm.serviceType st))
            ∧ doc !! "status" = Some (VString "disponivel")
            ∧ doc !! "rating" = Some (VNumber 0)
            ∧ doc !! "reviewCount" = Some (VNumber 0))
      as (Hd1 & Hd2 & Hd3 & Hd4 & Hd5 & Hd6 & Hd7 & Hd8).
    { subst doc. rewrite !lookup_merged, !lookup_clean.
      unfold ProfileForm.profileData. rewrite Hprestador, Htype.
      split_and!; reflexivity. }
    split_and!; try done.
    { intros Heq. by rewrite Heq in Hservice. }
    intros docId u calculateDistance userLocation
      (Huid & Hn & _ & Hs & Hp & Hr & _ & Hst & _).
    rewrite Hd3 in Hn. rewrite Hd5 in Hs. rewrite Hd4 in Hp.
    rewrite Hd7 in Hr. rewrite Hd6 in Hst. simpl in *.
    destruct (ofUserHome_listed calculateDistance userLocation
                (Firestore.mkDoc docId u))
      as (p & Hsome & Hpu & Hpn & Hps & Hpp & Hpst & Hpr).
    { unfold ListingSpec.required. simpl. rewrite Hn, Hs, Hp. simpl.
      by rewrite Hname, Hservice, Hplace. }
    exists p. simpl in *.
    rewrite Hn in Hpn. rewrite Hs in Hps. rewrite Hp in Hpp.
    rewrite Hst in Hpst. rewrite Hr in Hpr.
    split_and!; try congruence.
    + rewrite loadProviders_home. simpl. by rewrite Hsome.
    + by rewrite Hpst.
    + by rewrite Hpr.
Qed.

End ProfileFacts.

(** ** Starting a conversation *)

Section StartChatFacts.
Import Firestore ChatService ChatSpec StartChat.

Lemma createOrGetChat_frame A B nameA nameB w r w' :
  createOrGetChat A B nameA nameB w = (r, w') →
  messages w' = messages w ∧ (r = Throw → chats w' = chats w).
Proof.
  unfold createOrGetChat, getDocsChats, addDocChats, timestampNow, bind,
    request, ret.
  destruct (replies w) as [|r1 rs]; [by intros [= <- <-]|].
  destruct (ok r1); [|by intros [= <- <-]]. simpl.
  destruct (Js.truthy _ _); [by intros [= <- <-]|]. simpl.
  destruct rs as [|r2 rs]; [by intros [= <- <-]|].
  destruct (ok r2); by intros [= <- <-].
Qed.

Lemma createOrGetChat_participants A B nameA nameB w chatId w' :
  createOrGetChat A B nameA nameB w = (Ok chatId, w') →
  ∃ d, d ∈ chats w' ∧ id d = chatId
       ∧ A ∈ participants (data d) ∧ B ∈ participants (data d).
Proof.
  intros [(Hex & _ & ->)|(_ & _ & names & t1 & t2 & ->)]%createOrGetChat_Ok.
  - rewrite existing_last in Hex.
    destruct (last _) as [d|] eqn:Hlast; [|done].
    apply last_Some_elem_of, list_elem_of_filter in Hlast as [[? ?] ?].
    injection Hex as <-. by exists d.
  - eexists. split; [apply elem_of_insertDoc_new|]. simpl.
    split_and!; [done|by left|by right; left].
Qed.

(** X19: [handleStartChat] never runs into a conversation that does not
    exist.  On the map screen it never throws; without a user or a profile
    it makes no request and leads to the sign-in screen; when the store
    fails, or the provider carries no [uid], it creates nothing; and when
    it opens a conversation, that conversation is in the store with the
    user and the provider among its participants, no message has been
    added, and a message sent to it by the user is accepted as soon as the
    store answers the two writes.  On the list screen it makes no request
    at all: without a user it leads to the sign-in screen, and with a user
    it throws. *)
Theorem start_chat_opens_conversation :
  ∀ (user : option ChatDetailScreen.User)
    (userProfile : option ChatDetailScreen.UserProfile)
    (provider : Provider.t) (w : World),
    (∃ route w',
       handleStartChatMap user userProfile provider w = (Ok route, w')
       ∧ messages w' = messages w
       ∧ (user = None ∨ userProfile = None → route = ToAuth)
       ∧ (route = ToAuth → w' = w)
       ∧ (route = Stay → chats w' = chats w)
       ∧ (∀ chatId,
            route = ToChat chatId →
            ∃ u p d otherUserId,
              user = Some u ∧ userProfile = Some p
              ∧ Provider.uid provider = Some otherUserId
              ∧ createOrGetChat (ChatDetailScreen.uid u)
                                otherUserId
                                (ChatDetailScreen.displayName p)
                                (Provider.displayName provider) w
                = (Ok chatId, w')
              ∧ d ∈ chats w' ∧ id d = chatId
              ∧ ChatDetailScreen.uid u ∈ participants (data d)
              ∧ otherUserId ∈ participants (data d)
              ∧ ∀ r1 r2 rest text,
                  replies w' = r1 :: r2 :: rest →
                  ok r1 = true → ok r2 = true →
                  ∃ w'', sendMessage chatId (ChatDetailScreen.uid u)
                                     (ChatDetailScreen.displayName p) text w'
                         = (Ok tt, w'')))
    ∧ (user = None ∧
       handleStartChatHome user provider w = (Ok ToAuth, w)
       ∨ user ≠ None ∧ handleStartChatHome user provider w = (Throw, w)).
Proof.
  intros user userProfile provider w. split.
  - unfold handleStartChatMap.
    destruct user as [u|]; simpl.
    2:{ exists ToAuth, w. split_and!; try done. }
    destruct userProfile as [p|]; simpl.
    2:{ exists ToAuth, w. split_and!; try done. }
    unfold ChatDetailScreen.tryCatch, bind, ret.
    destruct (Provider.uid provider) as [otherUserId|].
    2:{ unfold createOrGetChatUndefined, getDocsChats, bind, request.
        destruct (replies w) as [|r rs].
        { exists Stay, w. split_and!; try done. by intros [?|?]. }
        destruct (ok r); eexists Stay, _;
          (split_and!; [reflexivity|done|by intros [?|?]|done..]). }
    destruct (createOrGetChat _ _ _ _ w) as [[chatId|] w'] eqn:Hchat.
    + exists (ToChat chatId), w'.
      destruct (createOrGetChat_frame _ _ _ _ _ _ _ Hchat) as [Hm _].
      split_and!; try done.
      { by intros [?|?]. }
      intros ? [= <-].
      destruct (createOrGetChat_participants _ _ _ _ _ _ _ Hchat)
        as (d & Hd & Hid & HA & HB).
      exists u, p, d, otherUserId. split_and!; try done.
      intros r1 r2 rest text Hr Hok1 Hok2.
      eapply sendMessage_total; try done.
      rewrite <- Hid. by apply list_elem_of_fmap_2.
    + exists Stay, w'.
      destruct (createOrGetChat_frame _ _ _ _ _ _ _ Hchat) as [Hm Hc].
      split_and!; try done.
      { by intros [?|?]. }
      intros _. by apply Hc.
  - unfold handleStartChatHome. destruct user; [right|left]; done.
Qed.

Example start_chat_then_send :
  ∃ w1 w2,
    handleStartChatMap (Some (ChatDetailScreen.mkUser "u1"))
      (Some (ChatDetailScreen.mkUserProfile "Ana"))
      Scenarios.provider_near Scenarios.world_four_answers
    = (Ok (ToChat "c1"), w1)
    ∧ ChatDetailScreen.handleSendMessage (Some "c1")
        (Some (ChatDetailScreen.mkUser "u1"))
        (Some (ChatDetailScreen.mkUserProfile "Ana"))
        (ChatDetailScreen.mkState [] "  oi " false) w1
      = (Ok (ChatDetailScreen.mkState [] "" false), w2)
    ∧ ChatMessage.text <$> getChatMessages "c1" w2 = ["oi"].
Proof. eexists _, _. split_and!; vm_compute; reflexivity. Qed.

End StartChatFacts.

(** ** Signing up *)

Section AuthScreenFacts.
Import Document AuthService AuthScreen RulesSpec.


(** The length that is tested is the one in code units: a password of five
    characters is refused although it takes seven bytes, and one of six
    characters is handed to the authentication service. *)
Example password_of_five_characters signIn signUp ok now users :
  let st := mkState (Some "cliente") false "ana@example.com"
                    "abcd€" "abcd€" false in
  let st' := mkState (Some "cliente") false "ana@example.com"
                     "abcde€" "abcde€" false in
  handleEmailAuth signIn signUp ok now st users
  = mkOutcome None users None st
  ∧ attempt (handleEmailAuth signIn signUp ok now st' users)
    = Some (SignUp "ana@example.com" "abcde€").
Proof. split; [reflexivity|]. by destruct signUp as [u|], ok. Qed.

End AuthScreenFacts.

(** ** Who an event names *)

Section PartyFacts.
Import ChatService ChatSpec NotificationSpec.

Lemma elem_of_updated_2 chatId text time collection d :
  d ∈ collection → Firestore.id d = chatId →
  Firestore.mkDoc chatId
    (Firestore.mkChatData
       (Firestore.participants (Firestore.data d))
       (Firestore.participantNames (Firestore.data d))
       (Some text) (Some time) (Firestore.createdAt (Firestore.data d)))
  ∈ updated chatId text time collection.
Proof.
  intros Hd Hid. unfold updated. apply list_elem_of_fmap.
  exists d. split; [|done]. by rewrite Hid, String.eqb_refl.
Qed.

(** X21: when [createOrGetChat A B] has created the conversation of two
    different users under names that are not empty, and [A] has sent a text
    that is not empty to it, the conversation in the store gives an event
    with that text to both of them: the component of [B] titles it with the
    name of [A], and the component of [A], for the message [A] wrote, with
    the name of [B]. *)
Theorem events_name_the_other_party :
  ∀ (A B nameA nameB text : string) (w w1 w2 : Firestore.World)
    (chatId : string),
    A ≠ B → nameA ≠ "" → nameB ≠ "" → text ≠ "" →
    Js.truthy Js.truthyString (existing A B (Firestore.chats w)) = false →
    createOrGetChat A B nameA nameB w = (Firestore.Ok chatId, w1) →
    sendMessage chatId A nameA text w1 = (Firestore.Ok tt, w2) →
    ∃ d time,
      d ∈ Firestore.chats w2 ∧ Firestore.id d = chatId
      ∧ Firestore.participants (Firestore.data d) = [A; B]
      ∧ ∀ snapshot,
          d ∈ snapshot →
          NotificationButton.mkNotification
            ("message-" +:+ chatId) NotificationButton.Message
            ("Nova mensagem de " +:+ nameA) text time false
            (Some (NotificationButton.ChatId chatId))
          ∈ NotificationButton.messageNotifications B snapshot
          ∧ NotificationButton.mkNotification
              ("message-" +:+ chatId) NotificationButton.Message
              ("Nova mensagem de " +:+ nameB) text time false
              (Some (NotificationButton.ChatId chatId))
            ∈ NotificationButton.messageNotifications A snapshot.
Proof.
  intros A B nameA nameB text w w1 w2 chatId HAB HnameA HnameB Htext Hnone
    (t1 & t2 & Hw1)%createOrGetChat_created Hsend; [|done].
  pose proof Hsend as (r1 & rest & Hr & Hw2 & _)%sendMessage_updated.
  exists (Firestore.mkDoc chatId
            (Firestore.mkChatData [A; B]
               (<[B := nameB]> (<[A := nameA]> ∅)) (Some text)
               (Some (Firestore.clock w1 + Z.of_N (Firestore.elapsed r1))%Z)
               t2)),
         (Firestore.clock w1 + Z.of_N (Firestore.elapsed r1))%Z.
  split_and!.
  - rewrite Hw2.
    assert (Firestore.mkDoc chatId
              (Firestore.mkChatData [A; B]
                 (<[B := nameB]> (<[A := nameA]> ∅))
                 (Some "") (Some t1) t2)
            ∈ Firestore.chats w1) as Hnew
      by (rewrite Hw1; apply elem_of_insertDoc_new).
    exact (elem_of_updated_2 chatId text _ _ _ Hnew eq_refl).
  - done.
  - done.
  - intros snapshot Hd. rewrite !messageNotifications_omap.
    assert (String.eqb A B = false) as HneAB by by apply String.eqb_neq.
    assert (String.eqb B A = false) as HneBA
      by (apply String.eqb_neq; congruence).
    split; apply list_elem_of_omap; eexists; (split; [exact Hd|]);
      unfold ofChat; cbn [Firestore.data Firestore.lastMessage
        Firestore.lastMessageTime Firestore.participants
        Firestore.participantNames Firestore.id Js.truthy default
        from_option id]; unfold Js.find; cbn [find].
    + rewrite HneAB. cbn [negb NotificationButton.propertyKey default
                          from_option id].
      rewrite lookup_insert_ne, lookup_insert_eq by done.
      destruct text; [done|]. destruct nameA; [done|]. reflexivity.
    + rewrite String.eqb_refl, HneBA.
      cbn [negb NotificationButton.propertyKey default from_option id].
      rewrite lookup_insert_eq.
      destruct text; [done|]. destruct nameB; [done|]. reflexivity.
Qed.

Lemma events_name_the_other_party_witness :
  ∃ w1 w2 d,
    createOrGetChat "u1" "u2" "Ana" "Bia" Scenarios.world_four_answers
    = (Firestore.Ok "c1", w1)
    ∧ sendMessage "c1" "u1" "Ana" "oi" w1 = (Firestore.Ok tt, w2)
    ∧ d ∈ Firestore.chats w2
    ∧ Firestore.participants (Firestore.data d) = ["u1"; "u2"].
Proof.
  destruct (createOrGetChat "u1" "u2" "Ana" "Bia"
              Scenarios.world_four_answers) as [[chatId|] w1] eqn:Hchat;
    [|discriminate Hchat].
  assert (chatId = "c1") as -> by (by injection Hchat as <- _).
  destruct (sendMessage "c1" "u1" "Ana" "oi" w1) as [[[]|] w2] eqn:Hsend.
  2:{ exfalso. injection Hchat as <-. discriminate Hsend. }
  destruct (events_name_the_other_party "u1" "u2" "Ana" "Bia" "oi"
              Scenarios.world_four_answers w1 w2 "c1"
              ltac:(discriminate) ltac:(discriminate) ltac:(discriminate)
              ltac:(discriminate) eq_refl Hchat Hsend)
    as (d & time & Hd & _ & Hparts & _).
  by exists w1, w2, d.
Defined.

End PartyFacts.
